(** * Mandelbrot-Generator: the escape-time evaluator and the quadtree renderer

    A shallow embedding of [src/quadtree.py], [src/Normal/util.py],
    [src/Accelerated/calculation.py], [src/Accelerated/normal_quadtree.py],
    [src/Accelerated/mixed_quadtree.py], [src/Accelerated/raster.py], the
    strategies of [src/Accelerated/accelerated_mandelbrot.py], the raster
    strategy of [src/Normal/mandelbrot.py] and the grayscale schemes of the
    two [coloring.py] files.

    Floating-point values are binary64 numbers (the kernel's primitive floats);
    [np.log] and [np.log2] are parameters.  Pixel indices are integers: the
    [int32] corners of a region stay within the image, far from the wrap-around.
    Numpy byte arrays are lists of integers.  The parallel [prange] loops are
    taken in index order. *)

From Stdlib Require Import ZArith List Bool Lia Floats FunctionalExtensionality.
Import ListNotations.

(** ** The local variables of the orbit loop

    Both [calculate] functions keep the same locals.  [steps] is a ghost
    counter of executed loop bodies; the program has no such variable. *)

Record orbit : Set := Orbit {
  o_x : float; o_y : float; o_x2 : float; o_y2 : float; o_w : float;
  o_x_old : float; o_y_old : float; o_period : nat;
  o_dx : float; o_dy : float;
  o_iterations : nat;
  steps : nat
}.

Definition orbit_init : orbit :=
  Orbit 0 0 0 0 0 0 0 0 0 0 0 0.

(** The body shared by the two loops: the new point, its squares, the
    derivative, and [iterations += 1]. *)
Definition advance (x0 y0 : float) (s : orbit) : orbit :=
  let x := (o_x2 s - o_y2 s + x0)%float in
  let y := (o_w s - o_x2 s - o_y2 s + y0)%float in
  let x2 := (x * x)%float in
  let y2 := (y * y)%float in
  let w := ((x + y) * (x + y))%float in
  let dx2 := (2 * (x * o_dx s - y * o_dy s) + 1)%float in
  let dy := (2 * (y * o_dx s + x * o_dy s))%float in
  Orbit x y x2 y2 w (o_x_old s) (o_y_old s) (o_period s) dx2 dy
        (S (o_iterations s)) (S (steps s)).

Definition set_iterations (n : nat) (s : orbit) : orbit :=
  Orbit (o_x s) (o_y s) (o_x2 s) (o_y2 s) (o_w s) (o_x_old s) (o_y_old s)
        (o_period s) (o_dx s) (o_dy s) n (steps s).

(** [period += 1], then the checkpoint is renewed when [period > cadence]. *)
Definition checkpoint (cadence : nat) (s : orbit) : orbit :=
  let p := S (o_period s) in
  if (cadence <? p)%nat
  then Orbit (o_x s) (o_y s) (o_x2 s) (o_y2 s) (o_w s) (o_x s) (o_y s) 0
             (o_dx s) (o_dy s) (o_iterations s) (steps s)
  else Orbit (o_x s) (o_y s) (o_x2 s) (o_y2 s) (o_w s) (o_x_old s) (o_y_old s) p
             (o_dx s) (o_dy s) (o_iterations s) (steps s).

Definition repeats (s : orbit) : bool :=
  (o_x_old s =? o_x s)%float && (o_y_old s =? o_y s)%float.

Definition magnitude2 (s : orbit) : float := (o_x2 s + o_y2 s)%float.

Definition derivative2 (s : orbit) : float :=
  (o_dx s * o_dx s + o_dy s * o_dy s)%float.

(** [in_main_body], the same text in both packages, in IEEE double
    arithmetic.  The accelerated package compiles it with [fastmath=True],
    which leaves its answer on NaN and infinite coordinates to the compiler;
    the model is that of finite coordinates. *)
Definition in_main_body (x y : float) : bool :=
  let q := ((x - 0.25) * (x - 0.25) + y * y)%float in
  (q * (q + x - 0.25) <=? 0.25 * y * y)%float.

(** What [calculate] hands to the colouring function, and the flag it returns. *)
Record EscapeResult (D : Type) : Type := Escape {
  in_set : bool;
  iterations : nat;
  final_z : float * float;
  distance_estimate : D;
  orbit_steps : nat
}.
Arguments Escape {D}.
Arguments in_set {D}.
Arguments iterations {D}.
Arguments final_z {D}.
Arguments distance_estimate {D}.
Arguments orbit_steps {D}.

(** ** [src/Normal/util.py] *)

Module Normal.

Section Calculate.

Variable np_log : float -> float.
Variable Color : Type.
(** [color_scheme(max_iteration, iteration, distance_estimate, final,
    escape_radius, smooth)] *)
Variable color_scheme :
  nat -> nat -> option float -> float * float -> float -> bool -> Color.

Variables x0 y0 : float.
Variable max_iterations : nat.
Variable escape_radius : float.
Variable period_checking : bool.

Definition escape_radius_squared : float := (escape_radius * escape_radius)%float.

Definition loop_guard (s : orbit) : bool :=
  (magnitude2 s <=? escape_radius_squared)%float
  && (o_iterations s <? max_iterations)%nat.

(** The [while] loop; [None] when the fuel is used up before the guard fails. *)
Fixpoint while_loop (fuel : nat) (s : orbit) : option orbit :=
  match fuel with
  | O => None
  | S fuel' =>
      if loop_guard s then
        let s1 := advance x0 y0 s in
        if period_checking then
          if repeats s1 then Some (set_iterations max_iterations s1)
          else while_loop fuel' (checkpoint 20 s1)
        else while_loop fuel' s1
      else Some s
  end.

(** The values computed after the loop, for [np.float64] coordinates and a
    loop that has run a body: before the first body [z] and [dz] are the
    Python integer 0, and [z / dz] raises [ZeroDivisionError]. *)
Definition finish (s : orbit) : EscapeResult (option float) :=
  let z := magnitude2 s in
  let dz := derivative2 s in
  let distance_estimate :=
    if (o_iterations s =? max_iterations)%nat then None
    else Some (np_log z * sqrt (z / dz))%float in
  Escape (o_iterations s =? max_iterations)%nat (o_iterations s)
         (o_x s, o_y s) distance_estimate (steps s).

(** The data [calculate] computes before colouring.  [memo] is [None], its
    default; [num_computed] is a local counter without effect. *)
Definition evaluate : option (EscapeResult (option float)) :=
  if in_main_body x0 y0
  then Some (Escape true max_iterations (x0, y0) None 0)
  else option_map finish (while_loop (S max_iterations) orbit_init).

Definition calculate (smooth : bool) : option (Color * bool) :=
  option_map
    (fun r => (color_scheme max_iterations (iterations r) (distance_estimate r)
                            (final_z r) escape_radius smooth,
               in_set r))
    evaluate.

End Calculate.

End Normal.

(** ** [src/Accelerated/calculation.py] *)

Module Accelerated.

Section Calculate.

Variable np_log : float -> float.
Variable color_map_t : Type.
(** [determine_colorscheme(max_iteration, iteration, distance_estimate, x, y,
    escape_radius, smooth, color_scheme, color_map)], a byte triple. *)
Variable determine_colorscheme :
  nat -> nat -> float -> float -> float -> float -> bool -> Z -> color_map_t
  -> Z * Z * Z.

Variables x0 y0 : float.
Variable max_iterations : nat.
Variable escape_radius : float.
Variable period_checking : bool.

Definition escape_radius_squared : float := (escape_radius * escape_radius)%float.

Definition escaped (s : orbit) : bool :=
  (escape_radius_squared <=? magnitude2 s)%float.

(** [for i in range(max_iterations)]: [n] passes are left.  The flag
    [period_checking] is also the cadence: [period > period_checking]
    compares with [True], that is with 1. *)
Fixpoint for_loop (n : nat) (s : orbit) : orbit :=
  match n with
  | O => s
  | S n' =>
      let s1 := advance x0 y0 s in
      if escaped s1 then s1
      else if period_checking then
        if repeats s1 then set_iterations max_iterations s1
        else for_loop n' (checkpoint 1 s1)
      else for_loop n' s1
  end.

(** The values computed after the loop, with IEEE division: the compiled
    code raises [ZeroDivisionError] where [dz] is zero. *)
Definition finish (s : orbit) : EscapeResult float :=
  let z := magnitude2 s in
  let dz := derivative2 s in
  let distance_estimate :=
    if negb (o_iterations s =? max_iterations)%nat
    then (np_log z * sqrt (z / dz))%float else 0%float in
  Escape (o_iterations s =? max_iterations)%nat (o_iterations s)
         (o_x s, o_y s) distance_estimate (steps s).

Definition evaluate : EscapeResult float :=
  if in_main_body x0 y0
  then Escape true max_iterations (x0, y0) 0%float 0
  else finish (for_loop max_iterations orbit_init).

(** The returned byte array [[isMaxIteration, color[0], color[1], color[2]]]. *)
Definition calculate (smooth : bool) (color_scheme : Z) (color_map : color_map_t)
  : list Z :=
  let r := evaluate in
  let '(c0, c1, c2) :=
    determine_colorscheme max_iterations (iterations r) (distance_estimate r)
                          (fst (final_z r)) (snd (final_z r))
                          escape_radius smooth color_scheme color_map in
  [if in_set r then 1 else 0; c0; c1; c2]%Z.

End Calculate.

End Accelerated.

(** ** Facts about the evaluator *)

Lemma advance_iterations x0 y0 s :
  o_iterations (advance x0 y0 s) = S (o_iterations s).
Proof. reflexivity. Qed.

Lemma checkpoint_iterations c s :
  o_iterations (checkpoint c s) = o_iterations s.
Proof. unfold checkpoint. destruct (c <? S (o_period s))%nat; reflexivity. Qed.

Lemma checkpoint_magnitude2 c s : magnitude2 (checkpoint c s) = magnitude2 s.
Proof. unfold checkpoint. destruct (c <? S (o_period s))%nat; reflexivity. Qed.

Lemma checkpoint_derivative2 c s : derivative2 (checkpoint c s) = derivative2 s.
Proof. unfold checkpoint. destruct (c <? S (o_period s))%nat; reflexivity. Qed.

Section NormalFacts.

Variables x0 y0 : float.
Variable max_iterations : nat.
Variable escape_radius : float.
Variable period_checking : bool.

Let while_loop := Normal.while_loop x0 y0 max_iterations escape_radius period_checking.


(** The loop runs at most [max_iterations] bodies: the fuel [S max_iterations]
    given by [evaluate] is never used up. *)
Lemma while_loop_returns fuel s :
  (max_iterations - o_iterations s < fuel)%nat ->
  exists s', while_loop fuel s = Some s'.
Proof.
  revert s. induction fuel as [|fuel IH]; intros s Hf; [lia|]. simpl.
  unfold Normal.loop_guard.
  destruct ((magnitude2 s <=? Normal.escape_radius_squared escape_radius)%float);
    simpl; [|eauto].
  destruct (o_iterations s <? max_iterations)%nat eqn:Hi; [|eauto].
  apply Nat.ltb_lt in Hi.
  destruct period_checking.
  - destruct (repeats (advance x0 y0 s)); [eauto|].
    apply IH. rewrite checkpoint_iterations, advance_iterations. lia.
  - apply IH. rewrite advance_iterations. lia.
Qed.

End NormalFacts.

Section AcceleratedFacts.

Variables x0 y0 : float.
Variable max_iterations : nat.
Variable escape_radius : float.
Variable period_checking : bool.

Let for_loop := Accelerated.for_loop x0 y0 max_iterations escape_radius period_checking.
Let escaped := Accelerated.escaped escape_radius.


(** One pass of the loop: the test [x2 + y2 >= escape_radius_squared] on the
    new point ends the loop there, equality included. *)
Lemma for_loop_stops_on_escape n s :
  escaped (advance x0 y0 s) = true ->
  for_loop (S n) s = advance x0 y0 s.
Proof. intros He. simpl. fold escaped. rewrite He. reflexivity. Qed.

End AcceleratedFacts.

(** C3.  A point that satisfies the main-body inequality
    [q*(q + x0 - 0.25) <= 0.25*y0^2], [q = (x0 - 0.25)^2 + y0^2], is returned as
    in the set with the iteration count equal to [max_iterations] and without
    one pass of the orbit loop: the colouring function receives the point
    itself as the final value.  This holds for both evaluators. *)
Theorem main_body_short_circuit
    (np_log : float -> float) (Color color_map_t : Type)
    (color_scheme : nat -> nat -> option float -> float * float -> float -> bool -> Color)
    (determine_colorscheme :
       nat -> nat -> float -> float -> float -> float -> bool -> Z -> color_map_t
       -> Z * Z * Z)
    (x0 y0 : float) (max_iterations : nat) (escape_radius : float)
    (period_checking smooth : bool) (scheme : Z) (color_map : color_map_t) :
  in_main_body x0 y0 = true ->
  Normal.evaluate np_log x0 y0 max_iterations escape_radius period_checking
    = Some (Escape true max_iterations (x0, y0) None 0)
  /\ Normal.calculate np_log Color color_scheme x0 y0 max_iterations escape_radius
       period_checking smooth
     = Some (color_scheme max_iterations max_iterations None (x0, y0)
               escape_radius smooth, true)
  /\ Accelerated.evaluate np_log x0 y0 max_iterations escape_radius period_checking
     = Escape true max_iterations (x0, y0) 0%float 0
  /\ Accelerated.calculate np_log color_map_t determine_colorscheme x0 y0
       max_iterations escape_radius period_checking smooth scheme color_map
     = (let '(c0, c1, c2) :=
          determine_colorscheme max_iterations max_iterations 0%float x0 y0
            escape_radius smooth scheme color_map in
        [1; c0; c1; c2]%Z).
Proof.
  intros Hbody.
  unfold Normal.calculate, Accelerated.calculate,
    Normal.evaluate, Accelerated.evaluate.
  rewrite Hbody. simpl. repeat split.
Qed.

Lemma main_body_short_circuit_witness :
  in_main_body 0.25 0.25 = true
  /\ forall np_log : float -> float,
       Normal.evaluate np_log 0.25 0.25 100 2 true
         = Some (Escape true 100 (0.25, 0.25)%float None 0)
       /\ Accelerated.evaluate np_log 0.25 0.25 100 2 true
          = Escape true 100 (0.25, 0.25)%float 0%float 0.
Proof.
  split; [reflexivity|]. intros np_log.
  destruct (main_body_short_circuit np_log unit unit
              (fun _ _ _ _ _ _ => tt) (fun _ _ _ _ _ _ _ _ _ => (0, 0, 0)%Z)
              0.25 0.25 100 2 true false 0%Z tt eq_refl) as (H1 & _ & H3 & _).
  split; assumption.
Defined.


(** X4.  Without the periodicity check, the accelerated loop returns the first
    orbit value whose squared magnitude is at least [escape_radius_squared],
    with the number of that pass as iteration count. *)
Lemma for_loop_first_escape x0 y0 max_iterations escape_radius k :
  forall n s,
    (forall j, (j < k)%nat ->
       Accelerated.escaped escape_radius (Nat.iter (S j) (advance x0 y0) s) = false) ->
    Accelerated.escaped escape_radius (Nat.iter (S k) (advance x0 y0) s) = true ->
    (k < n)%nat ->
    Accelerated.for_loop x0 y0 max_iterations escape_radius false n s
      = Nat.iter (S k) (advance x0 y0) s.
Proof.
  induction k as [|k IH]; intros n s Hbefore Hat Hn.
  - destruct n as [|n]; [lia|]. simpl in *. rewrite Hat. reflexivity.
  - destruct n as [|n]; [lia|].
    assert (H0 : Accelerated.escaped escape_radius (advance x0 y0 s) = false)
      by (apply (Hbefore 0%nat); lia).
    cbn [Accelerated.for_loop]. rewrite H0.
    rewrite (IH n (advance x0 y0 s)).
    + rewrite <- !Nat.iter_succ_r. reflexivity.
    + intros j Hj. rewrite <- Nat.iter_succ_r. apply (Hbefore (S j)). lia.
    + rewrite <- Nat.iter_succ_r. exact Hat.
    + lia.
Qed.

Lemma for_loop_first_escape_witness :
  Accelerated.escaped 2 (Nat.iter 1 (advance 2 0) orbit_init) = true
  /\ (0 < 50)%nat
  /\ Accelerated.for_loop 2 0 50 2 false 50 orbit_init
     = Nat.iter 1 (advance 2 0) orbit_init.
Proof.
  split; [reflexivity|]. split; [lia|].
  apply (for_loop_first_escape 2 0 50 2 0 50 orbit_init);
    [intros j Hj; lia|reflexivity|lia].
Defined.

(** C6.  At the point [c = 2] with [escape_radius = 2] the first orbit value
    has squared magnitude exactly [escape_radius^2 = 4].  The accelerated loop
    tests [x2 + y2 >= escape_radius_squared] and stops there with one
    iteration; the Normal loop is guarded by [x2 + y2 <= escape_radius_squared],
    runs one more pass and returns two iterations. *)
Theorem escape_boundary_divergence :
  in_main_body 2 0 = false
  /\ magnitude2 (advance 2 0 orbit_init) = Accelerated.escape_radius_squared 2
  /\ o_iterations (Accelerated.for_loop 2 0 50 2 true 50 orbit_init) = 1%nat
  /\ option_map o_iterations (Normal.while_loop 2 0 50 2 true 51 orbit_init)
     = Some 2%nat.
Proof. repeat split; vm_compute; reflexivity. Qed.

(** * [src/quadtree.py] *)

Open Scope Z_scope.

(** The exceptions the modelled code raises. *)
Inductive exn : Set :=
| CannotSplit      (* Exception("Cannot split node.") *)
| ArrayTooSmall    (* Exception("Array too small") *)
| IndexError       (* [array[0]] on an array without rows *)
| BroadcastError   (* a value whose shape does not fit the assigned slice *)
| OverflowError.   (* a Python integer that does not fit [np.int32] *)

Inductive result (A : Type) : Type :=
| Ok (a : A)
| Raise (e : exn).
Arguments Ok {A}.
Arguments Raise {A}.

(** A node holds its corners as [(column, row)] pairs; [rows] and [cols] are
    computed from them by the constructor.  The [children] attribute is the
    list [split] returns. *)
Record QuadTree : Set := Quad { tl : Z * Z; br : Z * Z }.

Definition rows (q : QuadTree) : Z := snd (br q) - snd (tl q).
Definition cols (q : QuadTree) : Z := fst (br q) - fst (tl q).

(** [split] on unbounded integers: the text of the method without the
    conversions of the corners to [np.int32], which [split_int32] below
    writes out.  The two agree inside the 32-bit range
    ([split_int32_in_range]). *)
Definition split (self : QuadTree) (boundary : Z) : result (list QuadTree) :=
  let tl := (fst (tl self) + boundary, snd (tl self) + boundary) in
  let br := (fst (br self) - boundary, snd (br self) - boundary) in
  let cols := fst br - fst tl in
  let rows := snd br - snd tl in
  if (rows <? 1) || (cols <? 1) then Raise CannotSplit
  else if (rows =? 1) && (cols =? 1) then Ok [Quad tl br]
  else
    let smaller_box_size := (cols / 2, rows / 2) in
    if rows =? 1 then
      Ok [Quad tl (fst tl + fst smaller_box_size, snd br);
          Quad (fst tl + fst smaller_box_size, snd tl) br]
    else if cols =? 1 then
      Ok [Quad tl (fst br, snd tl + snd smaller_box_size);
          Quad (fst tl, snd tl + snd smaller_box_size) br]
    else
      Ok [Quad tl (fst tl + fst smaller_box_size, snd tl + snd smaller_box_size);
          Quad (fst tl + fst smaller_box_size, snd tl)
               (fst br, snd tl + snd smaller_box_size);
          Quad (fst tl, snd tl + snd smaller_box_size)
               (fst tl + fst smaller_box_size, snd br);
          Quad (fst tl + fst smaller_box_size, snd tl + snd smaller_box_size) br].

(** A two-dimensional array: its two lengths and its cells [(row, column)].
    Only the cells with [0 <= row < len0] and [0 <= column < len1] belong to
    the array. *)
Record ndarray (V : Type) : Type := Array {
  len0 : Z;
  len1 : Z;
  cell : Z -> Z -> V
}.
Arguments Array {V}.
Arguments len0 {V}.
Arguments len1 {V}.
Arguments cell {V}.

(** A slice bound as Python normalises it for a sequence of length [n]. *)
Definition slice_index (n i : Z) : Z :=
  if i <? 0 then Z.max 0 (i + n) else Z.min i n.

Definition in_slice (n start stop k : Z) : bool :=
  (slice_index n start <=? k) && (k <? slice_index n stop).

(** [array[r0:r1, c0:c1] = value] *)
Definition setslice {V} (array : ndarray V) (r0 r1 c0 c1 : Z) (value : V)
  : ndarray V :=
  Array (len0 array) (len1 array)
        (fun r c =>
           if in_slice (len0 array) r0 r1 r && in_slice (len1 array) c0 c1 c
           then value else cell array r c).

(** [array[r][c] = value], for an index inside the array: the renderers only
    index with pixels of the image.  Out of range numpy raises and compiled
    numba code does not check; the model stores at [(r, c)] all the same. *)
Definition setitem {V} (array : ndarray V) (r c : Z) (value : V) : ndarray V :=
  Array (len0 array) (len1 array)
        (fun r' c' => if (r' =? r) && (c' =? c) then value else cell array r' c').

(** [fill_array]: [broadcast] fits the value to one cell of the array (the
    identity for a scalar into a two-dimensional array). *)
Definition fill_array {V W} (broadcast : W -> option V)
    (self : QuadTree) (array : ndarray V) (value : W) (boundary : Z)
  : result (ndarray V) :=
  let assign :=
    match broadcast value with
    | Some v =>
        Ok (setslice array (snd (tl self) + boundary) (snd (br self) - boundary)
                     (fst (tl self) + boundary) (fst (br self) - boundary) v)
    | None => Raise BroadcastError
    end in
  if len0 array <? snd (br self) then
    if len0 array =? 0 then Raise IndexError
    else if len1 array <? fst (br self) then Raise ArrayTooSmall
    else assign
  else assign.

(** ** Pixels of a region *)

(** The pixel in row [r] and column [c] lies in the half-open rectangle. *)
Definition covers (q : QuadTree) (r c : Z) : bool :=
  (fst (tl q) <=? c) && (c <? fst (br q)) && (snd (tl q) <=? r) && (r <? snd (br q)).

Definition on_border (q : QuadTree) (r c : Z) : bool :=
  covers q r c
  && ((r =? snd (tl q)) || (r =? snd (br q) - 1)
      || (c =? fst (tl q)) || (c =? fst (br q) - 1)).

(** The rectangle [split] and [fill_array] work on. *)
Definition inset (q : QuadTree) (boundary : Z) : QuadTree :=
  Quad (fst (tl q) + boundary, snd (tl q) + boundary)
       (fst (br q) - boundary, snd (br q) - boundary).

(** Pixels of the inset rectangle that no child covers. *)
Definition gap (q : QuadTree) (boundary : Z) (children : list QuadTree) (r c : Z)
  : bool :=
  covers (inset q boundary) r c && negb (existsb (fun k => covers k r c) children).

(** In how many of the given rectangles the pixel lies. *)
Definition cover_count (l : list QuadTree) (r c : Z) : nat :=
  length (filter (fun k => covers k r c) l).

Definition zeros {V} (zero : V) (n0 n1 : Z) : ndarray V :=
  Array n0 n1 (fun _ _ => zero).

(** ** [split] on 32-bit corners *)

(** [split] stores every corner it computes with [dtype=np.int32].  [split]
    above is its text on unbounded integers; [split_int32] writes the
    conversions out, for a node whose corners and boundary are Python integers,
    as the renderers and the tests build the root. *)

(** The values of [np.int32]. *)
Definition int32 (z : Z) : bool :=
  (-2147483648 <=? z) && (z <=? 2147483647).

(** Arithmetic on [np.int32] scalars wraps around. *)
Definition wrap_int32 (z : Z) : Z :=
  (z + 2147483648) mod 4294967296 - 2147483648.

(** [np.array([a, b], dtype=np.int32)] on Python integers: a value out of
    range raises [OverflowError]. *)
Definition int32_array (a b : Z) : result (Z * Z) :=
  if int32 a && int32 b then Ok (a, b) else Raise OverflowError.

Definition split_int32 (self : QuadTree) (boundary : Z)
  : result (list QuadTree) :=
  match int32_array (fst (tl self) + boundary) (snd (tl self) + boundary) with
  | Raise e => Raise e
  | Ok tl =>
    match int32_array (fst (br self) - boundary) (snd (br self) - boundary) with
    | Raise e => Raise e
    | Ok br =>
      let cols := wrap_int32 (fst br - fst tl) in
      let rows := wrap_int32 (snd br - snd tl) in
      if (rows <? 1) || (cols <? 1) then Raise CannotSplit
      else if (rows =? 1) && (cols =? 1) then Ok [Quad tl br]
      else
        let smaller_box_size := (cols / 2, rows / 2) in
        if rows =? 1 then
          Ok [Quad tl (wrap_int32 (fst tl + fst smaller_box_size), snd br);
              Quad (wrap_int32 (fst tl + fst smaller_box_size), snd tl) br]
        else if cols =? 1 then
          Ok [Quad tl (fst br, wrap_int32 (snd tl + snd smaller_box_size));
              Quad (fst tl, wrap_int32 (snd tl + snd smaller_box_size)) br]
        else
          Ok [Quad tl (wrap_int32 (fst tl + fst smaller_box_size),
                       wrap_int32 (snd tl + snd smaller_box_size));
              Quad (wrap_int32 (fst tl + fst smaller_box_size), snd tl)
                   (fst br, wrap_int32 (snd tl + snd smaller_box_size));
              Quad (fst tl, wrap_int32 (snd tl + snd smaller_box_size))
                   (wrap_int32 (fst tl + fst smaller_box_size), snd br);
              Quad (wrap_int32 (fst tl + fst smaller_box_size),
                    wrap_int32 (snd tl + snd smaller_box_size)) br]
    end
  end.

(** The boundary, the corners of the inset rectangle and its two extents are
    values of [np.int32]: no conversion fails and no difference wraps. *)
Definition in_int32 (self : QuadTree) (boundary : Z) : Prop :=
  int32 boundary = true
  /\ int32 (fst (tl (inset self boundary))) = true
  /\ int32 (snd (tl (inset self boundary))) = true
  /\ int32 (fst (br (inset self boundary))) = true
  /\ int32 (snd (br (inset self boundary))) = true
  /\ int32 (cols (inset self boundary)) = true
  /\ int32 (rows (inset self boundary)) = true.

(** ** Facts about [split] and [fill_array] *)

(** Decide the integer comparisons of the goal from the context. *)
Ltac zbool :=
  repeat match goal with
  | |- context [?a <=? ?b] =>
      first [ rewrite (proj2 (Z.leb_le a b)) by lia
            | rewrite (proj2 (Z.leb_gt a b)) by lia ]
  | |- context [?a <? ?b] =>
      first [ rewrite (proj2 (Z.ltb_lt a b)) by lia
            | rewrite (proj2 (Z.ltb_ge a b)) by lia ]
  | |- context [?a =? ?b] =>
      first [ rewrite (proj2 (Z.eqb_eq a b)) by lia
            | rewrite (proj2 (Z.eqb_neq a b)) by lia ]
  end.

(** Split on the integer comparisons of the goal. *)
Ltac zcases :=
  repeat match goal with
  | |- context [?a <=? ?b] => destruct (Z.leb_spec a b)
  | |- context [?a <? ?b] => destruct (Z.ltb_spec a b)
  | |- context [?a =? ?b] => destruct (Z.eqb_spec a b)
  end.

Lemma split_inset self boundary :
  split self boundary = split (inset self boundary) 0.
Proof.
  unfold split, inset; simpl. rewrite !Z.add_0_r, !Z.sub_0_r. reflexivity.
Qed.

(** How [split] ends, by the extents of the inset rectangle. *)
Lemma split_outcome (self : QuadTree) (boundary : Z) :
  (split self boundary = Raise CannotSplit
   <-> rows (inset self boundary) < 1 \/ cols (inset self boundary) < 1)
  /\ ((exists e, split self boundary = Raise e)
      <-> rows (inset self boundary) < 1 \/ cols (inset self boundary) < 1)
  /\ (1 <= rows (inset self boundary) /\ 1 <= cols (inset self boundary) ->
      exists children,
        split self boundary = Ok children
        /\ (length children = 1 \/ length children = 2 \/ length children = 4)%nat
        /\ (length children = 1%nat
            <-> rows (inset self boundary) = 1 /\ cols (inset self boundary) = 1)
        /\ (length children = 4%nat
            <-> 1 < rows (inset self boundary) /\ 1 < cols (inset self boundary))).
Proof.
  unfold split, rows, cols, inset; simpl.
  set (r := snd (br self) - boundary - (snd (tl self) + boundary)).
  set (c := fst (br self) - boundary - (fst (tl self) + boundary)).
  destruct (Z.ltb_spec r 1) as [Hr|Hr]; simpl.
  { repeat split; intros; eauto; lia. }
  destruct (Z.ltb_spec c 1) as [Hc|Hc]; simpl.
  { repeat split; intros; eauto; lia. }
  destruct (Z.eqb_spec r 1) as [Hr1|Hr1]; destruct (Z.eqb_spec c 1) as [Hc1|Hc1];
    simpl.
  all: split; [split; [discriminate|lia]|].
  all: split; [split; [intros [e He]; discriminate|lia]|].
  all: intros _; eexists; split; [reflexivity|]; simpl.
  all: repeat split; intros; try lia; try discriminate; auto.
Qed.

Lemma int32_spec z : int32 z = true <-> -2147483648 <= z <= 2147483647.
Proof. unfold int32. rewrite andb_true_iff, !Z.leb_le. tauto. Qed.

Lemma wrap_int32_id z : -2147483648 <= z <= 2147483647 -> wrap_int32 z = z.
Proof. intros H. unfold wrap_int32. rewrite Z.mod_small by lia. lia. Qed.

(** Inside the 32-bit range [split_int32] is [split]. *)
Lemma split_int32_in_range (self : QuadTree) (boundary : Z) :
  in_int32 self boundary -> split_int32 self boundary = split self boundary.
Proof.
  unfold in_int32, inset, rows, cols; cbn [fst snd tl br].
  rewrite !int32_spec. intros (Hb & H1 & H2 & H3 & H4 & H5 & H6).
  unfold split_int32, split, int32_array.
  rewrite !(proj2 (int32_spec _)) by assumption. cbn [andb fst snd].
  set (c := fst (br self) - boundary - (fst (tl self) + boundary)) in *.
  set (r := snd (br self) - boundary - (snd (tl self) + boundary)) in *.
  rewrite (wrap_int32_id c), (wrap_int32_id r) by assumption.
  destruct (Z.ltb_spec r 1) as [Hr|Hr]; [reflexivity|].
  destruct (Z.ltb_spec c 1) as [Hc|Hc]; [reflexivity|]. cbn [orb].
  assert (Hc2 : 0 <= c / 2 <= c) by (split; [apply Z.div_pos; lia|
    apply Z.div_le_upper_bound; lia]).
  assert (Hr2 : 0 <= r / 2 <= r) by (split; [apply Z.div_pos; lia|
    apply Z.div_le_upper_bound; lia]).
  rewrite (wrap_int32_id (fst (tl self) + boundary + c / 2)) by (subst c; lia).
  rewrite (wrap_int32_id (snd (tl self) + boundary + r / 2)) by (subst r; lia).
  reflexivity.
Qed.

(** C9.  Inside the 32-bit range ([in_int32]: the boundary, the corners of
    the rectangle shrunk by [boundary] on each side and its two extents fit
    [np.int32]), [split(boundary)] raises exactly when that rectangle has
    fewer than one row or fewer than one column, and then with "Cannot split
    node."; otherwise it returns one child (a single pixel), two children
    (one row or one column) or four children. *)
Theorem split_raises_iff (self : QuadTree) (boundary : Z) :
  in_int32 self boundary ->
  (split_int32 self boundary = Raise CannotSplit
   <-> rows (inset self boundary) < 1 \/ cols (inset self boundary) < 1)
  /\ ((exists e, split_int32 self boundary = Raise e)
      <-> rows (inset self boundary) < 1 \/ cols (inset self boundary) < 1)
  /\ (1 <= rows (inset self boundary) /\ 1 <= cols (inset self boundary) ->
      exists children,
        split_int32 self boundary = Ok children
        /\ (length children = 1 \/ length children = 2 \/ length children = 4)%nat
        /\ (length children = 1%nat
            <-> rows (inset self boundary) = 1 /\ cols (inset self boundary) = 1)
        /\ (length children = 4%nat
            <-> 1 < rows (inset self boundary) /\ 1 < cols (inset self boundary))).
Proof.
  intros H. rewrite (split_int32_in_range self boundary H). apply split_outcome.
Qed.

Lemma split_raises_iff_witness :
  in_int32 (Quad (0, 0) (10, 10)) 1
  /\ (exists children,
        split_int32 (Quad (0, 0) (10, 10)) 1 = Ok children
        /\ length children = 4%nat).
Proof.
  assert (H : in_int32 (Quad (0, 0) (10, 10)) 1)
    by (unfold in_int32; repeat split; reflexivity).
  split; [exact H|].
  destruct (split_raises_iff (Quad (0, 0) (10, 10)) 1 H) as (_ & _ & Hok).
  destruct (Hok ltac:(unfold rows, cols, inset; simpl; lia))
    as (children & Hs & _ & _ & H4).
  exists children. split; [exact Hs|].
  apply H4. unfold rows, cols, inset; simpl; lia.
Defined.

(** Outside that range the conversion fails first: with boundary [-1] the
    region from [(0, 0)] to [(2147483647, 2147483647)] has an inset rectangle
    with rows and columns, and [split] raises [OverflowError]. *)
Lemma split_overflow :
  1 <= rows (inset (Quad (0, 0) (2147483647, 2147483647)) (-1))
  /\ 1 <= cols (inset (Quad (0, 0) (2147483647, 2147483647)) (-1))
  /\ split_int32 (Quad (0, 0) (2147483647, 2147483647)) (-1)
     = Raise OverflowError
  /\ split_int32 (Quad (0, 0) (2147483647, 2147483647)) (-1)
     <> Raise CannotSplit.
Proof. vm_compute. repeat split; try discriminate. Qed.

Lemma Quad_eq a b c d a' b' c' d' :
  a = a' -> b = b' -> c = c' -> d = d' ->
  Quad (a, b) (c, d) = Quad (a', b') (c', d').
Proof. intros; subst; reflexivity. Qed.

Lemma div2_double n : (2 * n) / 2 = n.
Proof. rewrite Z.mul_comm. apply Z.div_mul. discriminate. Qed.

(** [split] with inset 1 on a region of [2n] by [2n] pixels, on unbounded
    integers. *)
Lemma split_even_square (x y n : Z) :
  2 <= n ->
  let q := Quad (x, y) (x + 2 * n, y + 2 * n) in
  let children :=
    [Quad (x + 1, y + 1) (x + n, y + n);
     Quad (x + n, y + 1) (x + 2 * n - 1, y + n);
     Quad (x + 1, y + n) (x + n, y + 2 * n - 1);
     Quad (x + n, y + n) (x + 2 * n - 1, y + 2 * n - 1)] in
  split q 1 = Ok children
  /\ (forall r c,
        (Nat.b2n (on_border q r c) + cover_count children r c
         + Nat.b2n (gap q 1 children r c))%nat
        = Nat.b2n (covers q r c))
  /\ (forall r c, (cover_count children r c <= 1)%nat)
  /\ (forall r c, gap q 1 children r c = false).
Proof.
  intros Hn q children.
  assert (Hsplit : split q 1 = Ok children).
  { unfold split, q, children; cbn [fst snd tl br].
    replace (x + 2 * n - 1 - (x + 1)) with (2 * (n - 1)) by lia.
    replace (y + 2 * n - 1 - (y + 1)) with (2 * (n - 1)) by lia.
    rewrite div2_double. zbool. cbn [orb andb].
    f_equal. repeat (f_equal; try (apply Quad_eq; lia)). }
  split; [exact Hsplit|].
  assert (Hpoint : forall r c,
    (cover_count children r c <= 1)%nat
    /\ gap q 1 children r c = false
    /\ (Nat.b2n (on_border q r c) + cover_count children r c)%nat
       = Nat.b2n (covers q r c)).
  { intros r c.
    unfold gap, cover_count, on_border, covers, inset, q, children.
    cbn [fst snd tl br existsb filter].
    assert (Hr : r < y \/ r = y \/ y + 1 <= r < y + n \/ y + n <= r < y + 2 * n - 1
                 \/ r = y + 2 * n - 1 \/ y + 2 * n <= r) by lia.
    assert (Hc : c < x \/ c = x \/ x + 1 <= c < x + n \/ x + n <= c < x + 2 * n - 1
                 \/ c = x + 2 * n - 1 \/ x + 2 * n <= c) by lia.
    destruct Hr as [Hr|[Hr|[Hr|[Hr|[Hr|Hr]]]]];
      destruct Hc as [Hc|[Hc|[Hc|[Hc|[Hc|Hc]]]]];
      zbool; simpl; repeat split; lia. }
  repeat split; intros r c; destruct (Hpoint r c) as (H1 & H2 & H3);
    try assumption.
  rewrite H2. simpl. lia.
Qed.

(** C8.  A region of [2n] by [2n] pixels, [n >= 2], inside the 32-bit range
    ([in_int32]) is split with inset 1 into four children at the
    floor-halfway lines of the inset rectangle.  Every pixel of the region
    lies in exactly one of: the region's border, one of the children, the set
    of inset pixels outside every child; that last set is empty, and pixels
    outside the region lie in none. *)
Theorem split_even_square_tiles (x y n : Z) :
  2 <= n ->
  let q := Quad (x, y) (x + 2 * n, y + 2 * n) in
  let children :=
    [Quad (x + 1, y + 1) (x + n, y + n);
     Quad (x + n, y + 1) (x + 2 * n - 1, y + n);
     Quad (x + 1, y + n) (x + n, y + 2 * n - 1);
     Quad (x + n, y + n) (x + 2 * n - 1, y + 2 * n - 1)] in
  in_int32 q 1 ->
  split_int32 q 1 = Ok children
  /\ (forall r c,
        (Nat.b2n (on_border q r c) + cover_count children r c
         + Nat.b2n (gap q 1 children r c))%nat
        = Nat.b2n (covers q r c))
  /\ (forall r c, (cover_count children r c <= 1)%nat)
  /\ (forall r c, gap q 1 children r c = false).
Proof.
  intros Hn q children H32.
  rewrite (split_int32_in_range q 1 H32). exact (split_even_square x y n Hn).
Qed.

Lemma split_even_square_tiles_witness :
  2 <= 5
  /\ in_int32 (Quad (0, 0) (10, 10)) 1
  /\ split_int32 (Quad (0, 0) (10, 10)) 1
     = Ok [Quad (1, 1) (5, 5); Quad (5, 1) (9, 5);
           Quad (1, 5) (5, 9); Quad (5, 5) (9, 9)].
Proof.
  assert (H : in_int32 (Quad (0, 0) (10, 10)) 1)
    by (unfold in_int32; repeat split; reflexivity).
  split; [lia|]. split; [exact H|].
  exact (proj1 (split_even_square_tiles 0 0 5 ltac:(lia) H)).
Defined.

(** Outside that range [split] does not return the four children: the
    corners of a region of [2^32] by [2^32] pixels do not fit [np.int32]. *)
Lemma split_even_square_overflow :
  2 <= 2147483648
  /\ split_int32 (Quad (0, 0) (0 + 2 * 2147483648, 0 + 2 * 2147483648)) 1
     = Raise OverflowError.
Proof. vm_compute. split; [discriminate|reflexivity]. Qed.

(** Corners that fit are not enough: the inset width of this region of
    [2^32 - 2] by [2^32 - 2] pixels wraps to [-4]. *)
Lemma split_extent_wraps :
  int32 (-2147483648) = true /\ int32 (-2147483648 + 2 * 2147483647) = true
  /\ split_int32 (Quad (-2147483648, -2147483648)
                       (-2147483648 + 2 * 2147483647,
                        -2147483648 + 2 * 2147483647)) 1
     = Raise CannotSplit.
Proof. vm_compute. repeat split. Qed.

(** X2.  [fill_array] raises its size error exactly when the array is too
    small on both axes at once: the two tests are joined by [and]. *)
Lemma fill_array_raises_iff {V W} (broadcast : W -> option V) self array value
    boundary :
  fill_array broadcast self array value boundary = Raise ArrayTooSmall
  <-> (len0 array < snd (br self) /\ len0 array <> 0
       /\ len1 array < fst (br self)).
Proof.
  unfold fill_array.
  destruct (Z.ltb_spec (len0 array) (snd (br self)));
    destruct (Z.eqb_spec (len0 array) 0);
    destruct (Z.ltb_spec (len1 array) (fst (br self)));
    destruct (broadcast value);
    split; try discriminate; try lia; intros; repeat split; auto; lia.
Qed.

(** The case of [test_fill_array_with_small_array]: 5 by 5 cells for a region
    that ends at (10, 10). *)
Lemma fill_array_small_array_raises :
  fill_array Some (Quad (0, 0) (10, 10)) (zeros 0 5 5) 1 1 = Raise ArrayTooSmall.
Proof. reflexivity. Qed.

(** C10.  An array of 5 rows and 20 columns is smaller than the region
    (0, 0)-(10, 10) on the row axis only.  [fill_array] raises nothing: the
    slice assignment is cut at the array's last row and the cells of rows 1-4,
    columns 1-8 are written. *)
Theorem fill_array_one_axis_too_small :
  let array := zeros 0 5 20 in
  let self := Quad (0, 0) (10, 10) in
  len0 array < snd (br self)
  /\ fill_array Some self array 1 1 = Ok (setslice array 1 9 1 9 1)
  /\ cell (setslice array 1 9 1 9 1) 1 1 = 1
  /\ cell (setslice array 1 9 1 9 1) 4 8 = 1
  /\ cell (setslice array 1 9 1 9 1) 5 1 = 0.
Proof. repeat split. Qed.

(** * The renderers' shared state *)

(** [range(a, b)] *)
Fixpoint range_from (a : Z) (n : nat) : list Z :=
  match n with
  | O => []
  | S n' => a :: range_from (a + 1) n'
  end.

Definition range (a b : Z) : list Z := range_from a (Z.to_nat (b - a)).

(** [np.array_equal] on byte arrays. *)
Fixpoint array_equal (a b : list Z) : bool :=
  match a, b with
  | [], [] => true
  | u :: a', v :: b' => (u =? v) && array_equal a' b'
  | _, _ => false
  end.

(** The pixel buffer ([height] by [width] cells of three bytes), the mask of
    the mixed strategy, and a ghost log [calls] of the invocations of the
    point evaluator, the latest first, as [(column, row)]. *)
Record Store : Type := MkStore {
  pixels : ndarray (list Z);
  seen : ndarray bool;
  calls : list (Z * Z)
}.

Definition log_call (i j : Z) (s : Store) : Store :=
  MkStore (pixels s) (seen s) ((i, j) :: calls s).

(** [pixels[r][c] = color] *)
Definition store_pixel (r c : Z) (color : list Z) (s : Store) : Store :=
  MkStore (setitem (pixels s) r c color) (seen s) (calls s).

(** [seen[r][c] = True] *)
Definition mark_seen (r c : Z) (s : Store) : Store :=
  MkStore (pixels s) (setitem (seen s) r c true) (calls s).

(** A byte array assigned to the three bytes of a pixel: numpy's broadcast. *)
Definition broadcast_rgb (value : list Z) : option (list Z) :=
  match value with
  | [v] => Some [v; v; v]
  | [_; _; _] => Some value
  | _ => None
  end.

(** [np.zeros((size[1], size[0], 3))] and no evaluation yet. *)
Definition init_store (size : Z * Z) : Store :=
  MkStore (zeros [0; 0; 0] (snd size) (fst size))
          (zeros false (snd size) (fst size)) [].

(** How a run with a bound on its steps ends. *)
Inductive outcome (A : Type) : Type :=
| Done (a : A)
| Raised (e : exn)
| OutOfFuel.
Arguments Done {A}.
Arguments Raised {A}.
Arguments OutOfFuel {A}.

(** * [src/Accelerated/normal_quadtree.py] *)

Module NormalQuadtree.

Section Scan.

(** [point i j] is [calculate(x[i], y[j], max_iterations, escape_radius,
    smooth, color_scheme, color_map, period_checking)]. *)
Variable point : Z -> Z -> list Z.

Record locals : Set := Locals {
  l_split : bool;
  border_set : bool;
  border : list Z
}.

(** [if not split and cols >= 3 and rows >= 3:
       split |= not np.array_equal(border, color)] *)
Definition compare_border (cols rows : Z) (color : list Z) (loc : locals) : locals :=
  if negb (l_split loc) && (3 <=? cols) && (3 <=? rows)
  then Locals (l_split loc || negb (array_equal (border loc) color))
              (border_set loc) (border loc)
  else loc.

(** The body of [for i in range(tl[0], br[0])]. *)
Definition top_bottom (tl br : Z * Z) (st : locals * Store) (i : Z)
  : locals * Store :=
  let cols := fst br - fst tl in
  let rows := snd br - snd tl in
  let (loc, s) := st in
  if border_set loc then
    let top_color := skipn 1 (point i (snd tl)) in
    let s := log_call i (snd tl) s in
    let loc := compare_border cols rows top_color loc in
    let s := store_pixel (snd tl) i top_color s in
    let bottom_color := skipn 1 (point i (snd br - 1)) in
    let s := log_call i (snd br - 1) s in
    let loc := compare_border cols rows bottom_color loc in
    let s := store_pixel (snd br - 1) i bottom_color s in
    (loc, s)
  else
    let loc := Locals (l_split loc) (border_set loc) (skipn 1 (point i (snd tl))) in
    let s := log_call i (snd tl) s in
    let s := store_pixel (snd tl) i (border loc) s in
    let bottom_color := skipn 1 (point i (snd br - 1)) in
    let s := log_call i (snd br - 1) s in
    let loc := compare_border cols rows bottom_color loc in
    let s := store_pixel (snd br - 1) i bottom_color s in
    (Locals (l_split loc) true (border loc), s).

(** The body of [for j in range(tl[1], br[1])]. *)
Definition left_right (tl br : Z * Z) (st : locals * Store) (j : Z)
  : locals * Store :=
  let cols := fst br - fst tl in
  let rows := snd br - snd tl in
  let (loc, s) := st in
  let left_color := skipn 1 (point (fst tl) j) in
  let s := log_call (fst tl) j s in
  let s := store_pixel j (fst tl) left_color s in
  let loc := compare_border cols rows left_color loc in
  let right_color := skipn 1 (point (fst br - 1) j) in
  let s := log_call (fst br - 1) j s in
  let s := store_pixel j (fst br - 1) right_color s in
  let loc := compare_border cols rows right_color loc in
  (loc, s).

(** [calculate_quadtree(tl, br, pixels, x, y, ...)]: the returned byte array
    [[split_val, border[0], border[1], border[2]]] and the state left. *)
Definition calculate_quadtree (tl br : Z * Z) (s : Store) : list Z * Store :=
  let cols := fst br - fst tl in
  let rows := snd br - snd tl in
  if (rows =? 1) && (cols =? 1) then
    let color := skipn 1 (point (fst tl) (snd tl)) in
    let s := log_call (fst tl) (snd tl) s in
    ([0; nth 0 color 0; nth 1 color 0; nth 2 color 0], s)
  else
    let st := (Locals false false [255; 255; 255], s) in
    let st := fold_left (top_bottom tl br) (range (fst tl) (fst br)) st in
    let st := fold_left (left_right tl br) (range (snd tl) (snd br)) st in
    let (loc, s) := st in
    let split_val := if l_split loc then 1 else 0 in
    ([split_val; nth 0 (border loc) 0; nth 1 (border loc) 0; nth 2 (border loc) 0],
     s).

(** [compute_fast_quadtree]: the rows of [results], one per interval.  The
    passes of the [prange] loop are taken in index order. *)
Fixpoint compute_fast_quadtree (intervals : list ((Z * Z) * (Z * Z))) (s : Store)
  : list (list Z) * Store :=
  match intervals with
  | [] => ([], s)
  | (tl, br) :: rest =>
      let (r, s1) := calculate_quadtree tl br s in
      let (rs, s2) := compute_fast_quadtree rest s1 in
      (r :: rs, s2)
  end.

End Scan.

End NormalQuadtree.

(** * [src/Accelerated/mixed_quadtree.py] *)

Module MixedQuadtree.

Section Scan.

Variable point : Z -> Z -> list Z.

Record locals : Set := Locals {
  isMandelbrot : bool;
  hasMandelbrot : bool;
  border : list Z
}.

(** A point of the first loop: the border colour is taken before the flags
    are updated. *)
Definition note_row (value : list Z) (loc : locals) : locals :=
  let inSet := nth 0 value 0 =? 1 in
  let color := skipn 1 value in
  let border := if negb (hasMandelbrot loc) && inSet then color else border loc in
  Locals (isMandelbrot loc && inSet) (hasMandelbrot loc || inSet) border.

(** A point of the second loop: the flags are updated first. *)
Definition note_column (value : list Z) (loc : locals) : locals :=
  let inSet := nth 0 value 0 =? 1 in
  let color := skipn 1 value in
  let isM := isMandelbrot loc && inSet in
  let hasM := hasMandelbrot loc || inSet in
  let border := if negb hasM && inSet then color else border loc in
  Locals isM hasM border.

Definition top_bottom (tl br : Z * Z) (st : locals * Store) (i : Z)
  : locals * Store :=
  let (loc, s) := st in
  let top := point i (snd tl) in
  let s := log_call i (snd tl) s in
  let loc := note_row top loc in
  let s := store_pixel (snd tl) i (skipn 1 top) s in
  let bottom := point i (snd br - 1) in
  let s := log_call i (snd br - 1) s in
  let loc := note_row bottom loc in
  let s := store_pixel (snd br - 1) i (skipn 1 bottom) s in
  let s := mark_seen (snd tl) i s in
  let s := mark_seen (snd br - 1) i s in
  (loc, s).

Definition left_right (tl br : Z * Z) (st : locals * Store) (j : Z)
  : locals * Store :=
  let (loc, s) := st in
  let left := point (fst tl) j in
  let s := log_call (fst tl) j s in
  let loc := note_column left loc in
  let s := store_pixel j (fst tl) (skipn 1 left) s in
  let right := point (fst br - 1) j in
  let s := log_call (fst br - 1) j s in
  let loc := note_column right loc in
  let s := store_pixel j (fst br - 1) (skipn 1 right) s in
  let s := mark_seen j (fst tl) s in
  let s := mark_seen j (fst br - 1) s in
  (loc, s).

(** [calculate_mixed]: five bytes [[split_val, mandelbrot_val, border...]],
    four bytes [[0, color...]] for a single pixel. *)
Definition calculate_mixed (tl br : Z * Z) (s : Store) : list Z * Store :=
  let cols := fst br - fst tl in
  let rows := snd br - snd tl in
  if (rows =? 1) && (cols =? 1) then
    let color := skipn 1 (point (fst tl) (snd tl)) in
    let s := log_call (fst tl) (snd tl) s in
    let s := mark_seen (snd tl) (fst tl) s in
    ([0; nth 0 color 0; nth 1 color 0; nth 2 color 0], s)
  else
    let st := (Locals true false [0; 0; 0], s) in
    let st := fold_left (top_bottom tl br) (range (fst tl) (fst br)) st in
    let st := fold_left (left_right tl br) (range (snd tl) (snd br)) st in
    let (loc, s) := st in
    let split_val :=
      if negb (Bool.eqb (isMandelbrot loc) (hasMandelbrot loc))
         && (3 <=? cols) && (3 <=? rows)
      then 1 else 0 in
    let mandelbrot_val := if negb (isMandelbrot loc) then 0 else 1 in
    ([split_val; mandelbrot_val;
      nth 0 (border loc) 0; nth 1 (border loc) 0; nth 2 (border loc) 0], s).

End Scan.

End MixedQuadtree.

(** * [src/Accelerated/raster.py] *)

Module Raster.

Section Raster.

Variable point : Z -> Z -> list Z.

(** The body of the two loops, at row [i] and column [j]. *)
Definition visit (mask : ndarray bool) (i : Z) (s : Store) (j : Z) : Store :=
  if negb (len1 mask =? 0) && negb (cell mask i j)
  then store_pixel i j (skipn 1 (point j i)) (log_call j i s)
  else s.

(** [compute_raster(pixels, seen, x, y, ...)], with [width = x.shape[0]] and
    [height = y.shape[0]]; the rows of the [prange] loop in index order. *)
Definition compute_raster (mask : ndarray bool) (width height : Z) (s : Store)
  : Store :=
  fold_left
    (fun s i => fold_left (visit mask i) (range 0 width) s)
    (range 0 height) s.

End Raster.

End Raster.

(** * [src/Accelerated/accelerated_mandelbrot.py] *)

Module AcceleratedMandelbrot.

Section Strategies.

Variable point : Z -> Z -> list Z.
(** [self.size], as [(width, height)]. *)
Variable size : Z * Z.

Definition lift {A B} (r : result A) (k : A -> outcome B) : outcome B :=
  match r with
  | Ok a => k a
  | Raise e => Raised e
  end.

Definition fill_pixels (q : QuadTree) (value : list Z) (s : Store) : result Store :=
  match fill_array broadcast_rgb q (pixels s) value 1 with
  | Ok p => Ok (MkStore p (seen s) (calls s))
  | Raise e => Raise e
  end.

Definition fill_seen (q : QuadTree) (s : Store) : result Store :=
  match fill_array Some q (seen s) true 1 with
  | Ok m => Ok (MkStore (pixels s) m (calls s))
  | Raise e => Raise e
  end.

(** The [while queue:] loop of [normal_quadtree]. *)
Fixpoint quadtree_loop (fuel : nat) (queue : list QuadTree) (s : Store)
  : outcome Store :=
  match fuel with
  | O => OutOfFuel
  | S fuel' =>
      match queue with
      | [] => Done s
      | quad_tree :: queue =>
          let (result, s) :=
            NormalQuadtree.calculate_quadtree point (tl quad_tree) (br quad_tree) s in
          let split_flag := negb (nth 0 result 0 =? 0) in
          let border := skipn 1 result in
          if split_flag then
            lift (split quad_tree 1)
                 (fun children => quadtree_loop fuel' (queue ++ children) s)
          else
            lift (fill_pixels quad_tree border s)
                 (fun s => quadtree_loop fuel' queue s)
      end
  end.

(** [normal_quadtree()]: the sequential strategy. *)
Definition normal_quadtree (fuel : nat) (s : Store) : outcome Store :=
  lift (split (Quad (0, 0) size) 0)
       (fun children => quadtree_loop fuel children s).

(** The [for i, result in enumerate(result_list)] loop of the batched
    strategy: [queue] after the pops and the extensions, [temp_interval], and
    the state; [queue.popleft()] raises on an empty deque. *)
Fixpoint settle (results : list (list Z)) (queue : list QuadTree)
    (temp_interval : list ((Z * Z) * (Z * Z))) (s : Store)
  : result (list QuadTree * list ((Z * Z) * (Z * Z)) * Store) :=
  match results with
  | [] => Ok (queue, temp_interval, s)
  | result :: results =>
      match queue with
      | [] => Raise IndexError
      | quadtree :: queue =>
          let split_flag := negb (nth 0 result 0 =? 0) in
          let border := skipn 1 result in
          if split_flag then
            match split quadtree 1 with
            | Ok children =>
                settle results (queue ++ children)
                       (temp_interval ++ map (fun quad => (tl quad, br quad)) children)
                       s
            | Raise e => Raise e
            end
          else
            match fill_pixels quadtree border s with
            | Ok s => settle results queue temp_interval s
            | Raise e => Raise e
            end
      end
  end.

(** The [while queue:] loop of the batched strategy, one level per pass. *)
Fixpoint fast_loop (fuel : nat) (queue : list QuadTree)
    (interval : list ((Z * Z) * (Z * Z))) (s : Store) : outcome Store :=
  match fuel with
  | O => OutOfFuel
  | S fuel' =>
      match queue with
      | [] => Done s
      | _ :: _ =>
          let (result_list, s) :=
            NormalQuadtree.compute_fast_quadtree point interval s in
          lift (settle result_list queue [] s)
               (fun '(queue, temp_interval, s) =>
                  fast_loop fuel' queue temp_interval s)
      end
  end.

(** The branch of [generate] taken with [fast_quadtree] and without
    [mixed_raster]: the batched strategy. *)
Definition fast_quadtree (fuel : nat) (s : Store) : outcome Store :=
  lift (split (Quad (0, 0) size) 0)
       (fun children =>
          fast_loop fuel children (map (fun quad => (tl quad, br quad)) children) s).

(** The [while queue:] loop of [mixed_quadtree]. *)
Fixpoint mixed_loop (fuel : nat) (queue : list QuadTree) (s : Store)
  : outcome Store :=
  match fuel with
  | O => OutOfFuel
  | S fuel' =>
      match queue with
      | [] => Done s
      | quad_tree :: queue =>
          let (result, s) :=
            MixedQuadtree.calculate_mixed point (tl quad_tree) (br quad_tree) s in
          let split_flag := negb (nth 0 result 0 =? 0) in
          let isMandelbrot := negb (nth 1 result 0 =? 0) in
          let border := skipn 2 result in
          if split_flag then
            lift (split quad_tree 1)
                 (fun children => mixed_loop fuel' (queue ++ children) s)
          else if isMandelbrot then
            lift (fill_pixels quad_tree border s)
                 (fun s => lift (fill_seen quad_tree s)
                                (fun s => mixed_loop fuel' queue s))
          else mixed_loop fuel' queue s
      end
  end.

Definition outcome_map {A B} (f : A -> B) (o : outcome A) : outcome B :=
  match o with
  | Done a => Done (f a)
  | Raised e => Raised e
  | OutOfFuel => OutOfFuel
  end.

(** [mixed_quadtree()]: the quadtree pass, then the raster pass over the
    pixels the mask leaves. *)
Definition mixed_quadtree (fuel : nat) (s : Store) : outcome Store :=
  lift (split (Quad (0, 0) size) 0)
       (fun children =>
          let s := MkStore (pixels s) (zeros false (snd size) (fst size)) (calls s) in
          outcome_map
            (fun s => Raster.compute_raster point (seen s) (fst size) (snd size) s)
            (mixed_loop fuel children s)).

(** The branch of [generate] taken with [raster]: [compute_raster] with the
    mask [np.zeros(shape=(1, 0), dtype=bool)]. *)
Definition raster_pass (s : Store) : Store :=
  Raster.compute_raster point (zeros false 1 0) (fst size) (snd size) s.

End Strategies.

End AcceleratedMandelbrot.

(** * [src/Accelerated/coloring.py]: the grayscale scheme and the dispatch *)

Module Coloring.

Definition float_of_nat (n : nat) : float :=
  PrimFloat.of_uint63 (Uint63.of_Z (Z.of_nat n)).

(** The integer part of a finite float. *)
Definition truncate (f : float) : Z :=
  match Prim2SF f with
  | S754_finite sign m e =>
      let v := if 0 <=? e then Z.pos m * 2 ^ e else Z.pos m / 2 ^ (- e) in
      if sign then - v else v
  | _ => 0
  end.

(** The conversion of [np.array(..., dtype=np.uint8)]. *)
Definition to_uint8 (f : float) : Z := truncate f mod 256.

Section Schemes.

Variable np_log2 : float -> float.
Variable color_map_t : Type.
(** The schemes 1, 2 and 3, which need [np.power], [np.arctan2], [np.log] and
    the colour map. *)
Variable simple_hsv : nat -> nat -> float -> float -> float -> bool -> Z * Z * Z.
Variable quilt_coloring :
  nat -> nat -> float -> float -> float -> float -> bool -> Z * Z * Z.
Variable colormap_coloring :
  nat -> nat -> float -> float -> float -> bool -> color_map_t -> Z * Z * Z.

Definition continous_dwell (x y : float) (dwell : nat) (escape_radus : float)
  : float :=
  (float_of_nat dwell - np_log2 (np_log2 (x * x + y * y))
   + np_log2 (np_log2 escape_radus) + 1)%float.

(** For [max_iteration > 0]: at 0 the compiled division raises
    [ZeroDivisionError]. *)
Definition grayscale (max_iteration iteration : nat) (final_x final_y : float)
    (escape_radius : float) (smooth : bool) : Z * Z * Z :=
  let iteration :=
    if negb (iteration =? max_iteration)%nat && smooth
    then continous_dwell final_x final_y iteration escape_radius
    else float_of_nat iteration in
  let s := sqrt (iteration / float_of_nat max_iteration)%float in
  (to_uint8 (s * 255)%float, to_uint8 (s * 255)%float, to_uint8 (s * 255)%float).

Definition determine_colorscheme (max_iteration iteration : nat)
    (distance_estimate x y escape_radius : float) (smooth : bool)
    (color_scheme : Z) (color_map : color_map_t) : Z * Z * Z :=
  if color_scheme =? 0 then
    grayscale max_iteration iteration x y escape_radius smooth
  else if color_scheme =? 1 then
    simple_hsv max_iteration iteration x y escape_radius smooth
  else if color_scheme =? 2 then
    quilt_coloring max_iteration iteration x y escape_radius distance_estimate smooth
  else if color_scheme =? 3 then
    colormap_coloring max_iteration iteration x y escape_radius smooth color_map
  else
    grayscale max_iteration iteration x y escape_radius smooth.

End Schemes.

End Coloring.

(** * A configuration: the sample grid and the evaluator's parameters *)

Section Configuration.

Variable np_log np_log2 : float -> float.
Variable color_map_t : Type.
Variable simple_hsv : nat -> nat -> float -> float -> float -> bool -> Z * Z * Z.
Variable quilt_coloring :
  nat -> nat -> float -> float -> float -> float -> bool -> Z * Z * Z.
Variable colormap_coloring :
  nat -> nat -> float -> float -> float -> bool -> color_map_t -> Z * Z * Z.

(** [calculate(x[i], y[j], max_iterations, escape_radius, smooth,
    color_scheme, color_map, period_checking)] on the grid [x], [y]. *)
Definition grid_point (x y : list float) (max_iterations : nat)
    (escape_radius : float) (smooth : bool) (color_scheme : Z)
    (color_map : color_map_t) (period_checking : bool) (i j : Z) : list Z :=
  Accelerated.calculate np_log color_map_t
    (Coloring.determine_colorscheme np_log2 color_map_t simple_hsv quilt_coloring
       colormap_coloring)
    (nth (Z.to_nat i) x 0%float) (nth (Z.to_nat j) y 0%float)
    max_iterations escape_radius period_checking smooth color_scheme color_map.

End Configuration.

(** * Traces of the scanners

    The scanners touch the state through [log_call], [store_pixel] and
    [mark_seen] only.  A trace lists these operations in program order; the
    state a scanner leaves is the state after its trace. *)

Inductive op : Set :=
| Call (i j : Z)
| Put (r c : Z) (color : list Z)
| Mark (r c : Z).

Definition run_op (s : Store) (o : op) : Store :=
  match o with
  | Call i j => log_call i j s
  | Put r c color => store_pixel r c color s
  | Mark r c => mark_seen r c s
  end.

Definition run_ops (ops : list op) (s : Store) : Store := fold_left run_op ops s.

Definition is_call (i j : Z) (o : op) : bool :=
  match o with
  | Call i' j' => (i' =? i) && (j' =? j)
  | _ => false
  end.

Definition is_put (r c : Z) (o : op) : bool :=
  match o with
  | Put r' c' _ => (r =? r') && (c =? c')
  | _ => false
  end.

Definition is_mark (r c : Z) (o : op) : bool :=
  match o with
  | Mark r' c' => (r =? r') && (c =? c')
  | _ => false
  end.

(** Every stored colour is the evaluator's colour of the pixel it is stored at. *)
Definition faithful (point : Z -> Z -> list Z) (ops : list op) : Prop :=
  forall r c color, In (Put r c color) ops -> color = skipn 1 (point c r).

(** How often the evaluator was invoked at column [i], row [j]. *)
Definition call_count (i j : Z) (log : list (Z * Z)) : nat :=
  length (filter (fun p => (fst p =? i) && (snd p =? j)) log).

Lemma run_ops_app a b s : run_ops (a ++ b) s = run_ops b (run_ops a s).
Proof. apply fold_left_app. Qed.

Lemma fold_left_flat_map {A} (f : A -> list op) (l : list A) s :
  fold_left (fun s a => run_ops (f a) s) l s = run_ops (flat_map f l) s.
Proof.
  revert s. induction l as [|a l IH]; intros s; simpl; [reflexivity|].
  rewrite run_ops_app. apply IH.
Qed.

Lemma fold_left_pair {A B C} (f : A -> C -> A) (g : B -> C -> B)
    (h : A * B -> C -> A * B) (l : list C) :
  (forall a b c, h (a, b) c = (f a c, g b c)) ->
  forall a b, fold_left h l (a, b) = (fold_left f l a, fold_left g l b).
Proof.
  intros H. induction l as [|c l IH]; intros a b; simpl; [reflexivity|].
  rewrite H. apply IH.
Qed.

Lemma run_ops_len0 ops s : len0 (pixels (run_ops ops s)) = len0 (pixels s).
Proof.
  revert s. induction ops as [|o ops IH]; intros s; [reflexivity|].
  unfold run_ops in *. simpl. rewrite IH. destruct o; reflexivity.
Qed.




(** The pixel buffer after a faithful trace: the evaluator's colour where the
    trace stores, the former content elsewhere. *)
Lemma run_ops_pixels point ops :
  faithful point ops ->
  forall s r c,
    cell (pixels (run_ops ops s)) r c
    = if existsb (is_put r c) ops then skipn 1 (point c r) else cell (pixels s) r c.
Proof.
  induction ops as [|o ops IH]; intros Hf s r c; [reflexivity|].
  assert (Hf' : faithful point ops) by (intros r' c' v H; apply (Hf r' c' v); now right).
  unfold run_ops in *. simpl. rewrite (IH Hf').
  destruct (existsb (is_put r c) ops); [now rewrite orb_true_r|].
  rewrite orb_false_r.
  destruct o as [i j|r' c' v|r' c']; simpl; try reflexivity.
  destruct ((r =? r') && (c =? c')) eqn:E; [|reflexivity].
  apply andb_true_iff in E. destruct E as [E1 E2].
  apply Z.eqb_eq in E1, E2. subst r' c'.
  apply (Hf r c v). now left.
Qed.

Lemma run_ops_seen ops s r c :
  cell (seen (run_ops ops s)) r c
  = existsb (is_mark r c) ops || cell (seen s) r c.
Proof.
  revert s. induction ops as [|o ops IH]; intros s; [reflexivity|].
  unfold run_ops in *. simpl. rewrite IH.
  destruct (existsb (is_mark r c) ops); [now rewrite orb_true_r|].
  rewrite orb_false_r.
  destruct o as [i j|r' c' v|r' c']; reflexivity.
Qed.

Lemma call_count_app i j a b :
  call_count i j (a ++ b) = (call_count i j a + call_count i j b)%nat.
Proof. unfold call_count. rewrite filter_app, length_app. reflexivity. Qed.

Lemma run_ops_calls ops s i j :
  call_count i j (calls (run_ops ops s))
  = (length (filter (is_call i j) ops) + call_count i j (calls s))%nat.
Proof.
  revert s. induction ops as [|o ops IH]; intros s; [reflexivity|].
  unfold run_ops in *. simpl. rewrite IH.
  destruct o as [i' j'|r' c' v|r' c']; simpl; try reflexivity.
  unfold call_count at 1. simpl.
  destruct ((i' =? i) && (j' =? j)); simpl; unfold call_count; lia.
Qed.

(** * [src/Normal/util.py]: the two scanners *)

Module NormalUtil.

Section Scan.

(** What the colouring function returns, the test [(a != b).any()] on two
    colours, and the conversion to the bytes of a pixel. *)
Variable Color : Type.
Variable color_differs : Color -> Color -> bool.
Variable to_pixel : Color -> list Z.
(** [point i j] is the pair [calculate(x[i], y[j], ..., memo)] returns: the
    memo only caches these pairs. *)
Variable point : Z -> Z -> Color * bool.
(** [np.array([-1.0, -1.0, -1.0])] *)
Variable unfilled : Color.

Record locals : Type := Locals {
  l_split : bool;
  border : option Color
}.

(** [(border != color).any()], every entry differing from [None]. *)
Definition differs (border : option Color) (color : Color) : bool :=
  match border with
  | Some b => color_differs b color
  | None => true
  end.

(** [if not split: split |= (border != color).any()] *)
Definition compare_border (color : Color) (loc : locals) : locals :=
  if negb (l_split loc)
  then Locals (l_split loc || differs (border loc) color) (border loc)
  else loc.

Definition top_bottom (quad_tree : QuadTree) (st : locals * Store) (i : Z)
  : locals * Store :=
  let tl := tl quad_tree in
  let br := br quad_tree in
  let (loc, s) := st in
  match border loc with
  | Some _ =>
      let top_color := fst (point i (snd tl)) in
      let s := log_call i (snd tl) s in
      let loc := compare_border top_color loc in
      let s := store_pixel (snd tl) i (to_pixel top_color) s in
      let bottom_color := fst (point i (snd br - 1)) in
      let s := log_call i (snd br - 1) s in
      let loc := compare_border bottom_color loc in
      let s := store_pixel (snd br - 1) i (to_pixel bottom_color) s in
      (loc, s)
  | None =>
      let top_color := fst (point i (snd tl)) in
      let s := log_call i (snd tl) s in
      let s := store_pixel (snd tl) i (to_pixel top_color) s in
      let loc := Locals (l_split loc) (Some top_color) in
      let bottom_color := fst (point i (snd br - 1)) in
      let s := log_call i (snd br - 1) s in
      let loc := Locals (l_split loc || differs (border loc) bottom_color)
                        (border loc) in
      let s := store_pixel (snd br - 1) i (to_pixel bottom_color) s in
      (loc, s)
  end.

Definition left_right (quad_tree : QuadTree) (st : locals * Store) (j : Z)
  : locals * Store :=
  let tl := tl quad_tree in
  let br := br quad_tree in
  let (loc, s) := st in
  let left_color := fst (point (fst tl) j) in
  let s := log_call (fst tl) j s in
  let s := store_pixel j (fst tl) (to_pixel left_color) s in
  let loc := compare_border left_color loc in
  let right_color := fst (point (fst br - 1) j) in
  let s := log_call (fst br - 1) j s in
  let s := store_pixel j (fst br - 1) (to_pixel right_color) s in
  let loc := compare_border right_color loc in
  (loc, s).

(** [calculate_quadtree(quad_tree, pixels, x, y, ...)]: the pair
    [(split, border)] and the state left. *)
Definition calculate_quadtree (quad_tree : QuadTree) (s : Store)
  : (bool * option Color) * Store :=
  let tl := tl quad_tree in
  let br := br quad_tree in
  if (rows quad_tree =? 1) && (cols quad_tree =? 1) then
    let color := fst (point (fst tl) (snd tl)) in
    let s := log_call (fst tl) (snd tl) s in
    ((false, Some color), s)
  else
    let st := (Locals false None, s) in
    let st := fold_left (top_bottom quad_tree) (range (fst tl) (fst br)) st in
    let st := fold_left (left_right quad_tree) (range (snd tl) (snd br)) st in
    let (loc, s) := st in
    ((l_split loc && (3 <? cols quad_tree) && (3 <? rows quad_tree), border loc),
     s).

Record mixed_locals : Type := MixedLocals {
  color : Color;
  isMandelbrot : bool;
  hasMandelbrot : bool
}.

Definition note (value : Color * bool) (loc : mixed_locals) : mixed_locals :=
  let (border, inSet) := value in
  let color := if negb (hasMandelbrot loc) && inSet then border else color loc in
  MixedLocals color (isMandelbrot loc && inSet) (hasMandelbrot loc || inSet).

Definition mixed_top_bottom (quad_tree : QuadTree) (st : mixed_locals * Store)
    (i : Z) : mixed_locals * Store :=
  let tl := tl quad_tree in
  let br := br quad_tree in
  let (loc, s) := st in
  let top := point i (snd tl) in
  let s := log_call i (snd tl) s in
  let loc := note top loc in
  let s := store_pixel (snd tl) i (to_pixel (fst top)) s in
  let bottom := point i (snd br - 1) in
  let s := log_call i (snd br - 1) s in
  let loc := note bottom loc in
  let s := store_pixel (snd br - 1) i (to_pixel (fst bottom)) s in
  (loc, s).

(** The last store of the second loop is [pixels[br[0] - 1][j] = border]:
    row [br[0] - 1], column [j]. *)
Definition mixed_left_right (quad_tree : QuadTree) (st : mixed_locals * Store)
    (j : Z) : mixed_locals * Store :=
  let tl := tl quad_tree in
  let br := br quad_tree in
  let (loc, s) := st in
  let left := point (fst tl) j in
  let s := log_call (fst tl) j s in
  let loc := note left loc in
  let s := store_pixel j (fst tl) (to_pixel (fst left)) s in
  let right := point (fst br - 1) j in
  let s := log_call (fst br - 1) j s in
  let loc := note right loc in
  let s := store_pixel (fst br - 1) j (to_pixel (fst right)) s in
  (loc, s).

(** [calculated_mixed_raster_quadtree(quad_tree, pixels, x, y, ...)] *)
Definition calculated_mixed_raster_quadtree (quad_tree : QuadTree) (s : Store)
  : (bool * Color) * Store :=
  let tl := tl quad_tree in
  let br := br quad_tree in
  if (rows quad_tree =? 1) && (cols quad_tree =? 1) then
    let color := fst (point (fst tl) (snd tl)) in
    let s := log_call (fst tl) (snd tl) s in
    ((false, color), s)
  else
    let st := (MixedLocals unfilled true false, s) in
    let st := fold_left (mixed_top_bottom quad_tree) (range (fst tl) (fst br)) st in
    let st := fold_left (mixed_left_right quad_tree) (range (snd tl) (snd br)) st in
    let (loc, s) := st in
    ((negb (Bool.eqb (isMandelbrot loc) (hasMandelbrot loc))
      && ((3 <? rows quad_tree) && (3 <? cols quad_tree)), color loc), s).

End Scan.

End NormalUtil.

(** * Facts about ranges *)

Definition in_range (a b k : Z) : bool := (a <=? k) && (k <? b).

Lemma in_range_from a n k :
  In k (range_from a n) <-> a <= k < a + Z.of_nat n.
Proof.
  revert a. induction n as [|n IH]; intros a; simpl.
  - lia.
  - rewrite IH. lia.
Qed.

Lemma in_range_iff a b k : In k (range a b) <-> a <= k < b.
Proof. unfold range. rewrite in_range_from. lia. Qed.

Lemma in_range_true a b k : in_range a b k = true <-> a <= k < b.
Proof. unfold in_range. rewrite andb_true_iff, Z.leb_le, Z.ltb_lt. tauto. Qed.

Lemma range_cons a b : a < b -> range a b = a :: range (a + 1) b.
Proof.
  intros H. unfold range.
  replace (Z.to_nat (b - a)) with (S (Z.to_nat (b - (a + 1)))) by lia.
  reflexivity.
Qed.

Lemma range_nil a b : b <= a -> range a b = [].
Proof. intros H. unfold range. replace (Z.to_nat (b - a)) with 0%nat by lia. reflexivity. Qed.

(** A value occurs once in a range that holds it. *)
Lemma count_range_from (f : Z -> bool) k a n :
  (forall i, f i = (i =? k)) ->
  length (filter f (range_from a n))
  = Nat.b2n (in_range a (a + Z.of_nat n) k).
Proof.
  intros Hf. revert a. induction n as [|n IH]; intros a; simpl.
  - unfold in_range. zcases; simpl; try reflexivity; lia.
  - rewrite Hf. destruct (Z.eqb_spec a k) as [->|Hne]; simpl; rewrite IH;
      unfold in_range; zcases; simpl; try reflexivity; lia.
Qed.

Lemma count_range (f : Z -> bool) k a b :
  (forall i, f i = (i =? k)) ->
  length (filter f (range a b)) = Nat.b2n (in_range a b k).
Proof.
  intros Hf. unfold range. rewrite (count_range_from f k) by exact Hf.
  unfold in_range. zcases; simpl; try reflexivity; lia.
Qed.

Lemma filter_flat_map {A B} (p : B -> bool) (f : A -> list B) (l : list A) :
  filter p (flat_map f l) = flat_map (fun a => filter p (f a)) l.
Proof.
  induction l as [|a l IH]; simpl; [reflexivity|].
  rewrite filter_app, IH. reflexivity.
Qed.

Lemma length_flat_map_const {A B} (f : A -> list B) (g : A -> bool) (n : nat)
    (l : list A) :
  (forall a, length (f a) = if g a then n else 0%nat) ->
  length (flat_map f l) = (n * length (filter g l))%nat.
Proof.
  intros H. induction l as [|a l IH]; simpl; [lia|].
  rewrite length_app, IH, H. destruct (g a); simpl; lia.
Qed.

Lemma array_equal_spec a b : array_equal a b = true <-> a = b.
Proof.
  revert b. induction a as [|u a IH]; destruct b as [|v b]; simpl;
    try (split; [discriminate|discriminate]); try tauto.
  rewrite andb_true_iff, Z.eqb_eq, IH. split; [intros [-> ->]; reflexivity|].
  intros [= -> ->]. tauto.
Qed.

Lemma array_equal_refl a : array_equal a a = true.
Proof. apply array_equal_spec. reflexivity. Qed.

(** * Facts about the plain scanner of the accelerated package *)

Section PlainScan.

Variable point : Z -> Z -> list Z.
Variables tl br : Z * Z.

Let cmp : bool := (3 <=? fst br - fst tl) && (3 <=? snd br - snd tl).

(** The pixels the two loops store at. *)
Definition scanned (r c : Z) : bool :=
  (in_range (fst tl) (fst br) c && ((r =? snd tl) || (r =? snd br - 1)))
  || (in_range (snd tl) (snd br) r && ((c =? fst tl) || (c =? fst br - 1))).

Definition row_ops (i : Z) : list op :=
  [Call i (snd tl); Put (snd tl) i (skipn 1 (point i (snd tl)));
   Call i (snd br - 1); Put (snd br - 1) i (skipn 1 (point i (snd br - 1)))].

Definition col_ops (j : Z) : list op :=
  [Call (fst tl) j; Put j (fst tl) (skipn 1 (point (fst tl) j));
   Call (fst br - 1) j; Put j (fst br - 1) (skipn 1 (point (fst br - 1) j))].

(** The trace of [calculate_quadtree]. *)
Definition scan_ops : list op :=
  if (snd br - snd tl =? 1) && (fst br - fst tl =? 1)
  then [Call (fst tl) (snd tl)]
  else flat_map row_ops (range (fst tl) (fst br))
       ++ flat_map col_ops (range (snd tl) (snd br)).

Definition row_colors (i : Z) : list (list Z) :=
  [skipn 1 (point i (snd tl)); skipn 1 (point i (snd br - 1))].

Definition col_colors (j : Z) : list (list Z) :=
  [skipn 1 (point (fst tl) j); skipn 1 (point (fst br - 1) j)].

(** The colours of the scanned pixels, in the order of the scan. *)
Definition scan_colors : list (list Z) :=
  flat_map row_colors (range (fst tl) (fst br))
  ++ flat_map col_colors (range (snd tl) (snd br)).

Definition differs (border color : list Z) : bool := negb (array_equal border color).

Definition row_locals (loc : NormalQuadtree.locals) (i : Z) : NormalQuadtree.locals :=
  fst (NormalQuadtree.top_bottom point tl br (loc, init_store (0, 0)) i).

Definition col_locals (loc : NormalQuadtree.locals) (j : Z) : NormalQuadtree.locals :=
  fst (NormalQuadtree.left_right point tl br (loc, init_store (0, 0)) j).

Definition scan_locals : NormalQuadtree.locals :=
  fold_left col_locals (range (snd tl) (snd br))
    (fold_left row_locals (range (fst tl) (fst br))
       (NormalQuadtree.Locals false false [255; 255; 255])).

(** The array [calculate_quadtree] returns. *)
Definition scan_result : list Z :=
  if (snd br - snd tl =? 1) && (fst br - fst tl =? 1) then
    let color := skipn 1 (point (fst tl) (snd tl)) in
    [0; nth 0 color 0; nth 1 color 0; nth 2 color 0]
  else
    let loc := scan_locals in
    [if NormalQuadtree.l_split loc then 1 else 0;
     nth 0 (NormalQuadtree.border loc) 0; nth 1 (NormalQuadtree.border loc) 0;
     nth 2 (NormalQuadtree.border loc) 0].

Lemma top_bottom_parts loc s i :
  NormalQuadtree.top_bottom point tl br (loc, s) i
  = (row_locals loc i, run_ops (row_ops i) s).
Proof.
  unfold row_locals, NormalQuadtree.top_bottom.
  destruct (NormalQuadtree.border_set loc); reflexivity.
Qed.

Lemma left_right_parts loc s j :
  NormalQuadtree.left_right point tl br (loc, s) j
  = (col_locals loc j, run_ops (col_ops j) s).
Proof. reflexivity. Qed.

(** The scanner returns an array that does not depend on the state, and
    leaves the state after its trace. *)
Lemma calculate_quadtree_parts s :
  NormalQuadtree.calculate_quadtree point tl br s
  = (scan_result, run_ops scan_ops s).
Proof.
  unfold NormalQuadtree.calculate_quadtree, scan_result, scan_ops.
  destruct ((snd br - snd tl =? 1) && (fst br - fst tl =? 1)); [reflexivity|].
  rewrite (fold_left_pair row_locals (fun s i => run_ops (row_ops i) s))
    by (intros; apply top_bottom_parts).
  rewrite (fold_left_pair col_locals (fun s j => run_ops (col_ops j) s))
    by (intros; apply left_right_parts).
  rewrite !fold_left_flat_map, run_ops_app. reflexivity.
Qed.

Lemma compare_border_eq color loc :
  NormalQuadtree.compare_border (fst br - fst tl) (snd br - snd tl) color loc
  = NormalQuadtree.Locals
      (NormalQuadtree.l_split loc
       || (cmp && differs (NormalQuadtree.border loc) color))
      (NormalQuadtree.border_set loc) (NormalQuadtree.border loc).
Proof.
  unfold NormalQuadtree.compare_border, cmp, differs.
  destruct loc as [sp bs b]; simpl.
  destruct sp, (3 <=? fst br - fst tl), (3 <=? snd br - snd tl); reflexivity.
Qed.

Lemma fold_row_locals l : forall sp b,
  fold_left row_locals l (NormalQuadtree.Locals sp true b)
  = NormalQuadtree.Locals
      (sp || (cmp && existsb (differs b) (flat_map row_colors l))) true b.
Proof.
  induction l as [|i l IH]; intros sp b.
  - cbn [fold_left flat_map existsb]. rewrite andb_false_r, orb_false_r. reflexivity.
  - cbn [fold_left flat_map].
    unfold row_locals at 2, NormalQuadtree.top_bottom.
    cbn [NormalQuadtree.border_set fst].
    rewrite !compare_border_eq.
    cbn [NormalQuadtree.l_split NormalQuadtree.border_set NormalQuadtree.border].
    rewrite IH. f_equal.
    rewrite existsb_app. cbn [row_colors existsb].
    destruct sp, cmp, (differs b (skipn 1 (point i (snd tl)))),
      (differs b (skipn 1 (point i (snd br - 1)))); reflexivity.
Qed.

Lemma fold_col_locals l : forall sp bs b,
  fold_left col_locals l (NormalQuadtree.Locals sp bs b)
  = NormalQuadtree.Locals
      (sp || (cmp && existsb (differs b) (flat_map col_colors l))) bs b.
Proof.
  induction l as [|j l IH]; intros sp bs b.
  - cbn [fold_left flat_map existsb]. rewrite andb_false_r, orb_false_r. reflexivity.
  - cbn [fold_left flat_map].
    unfold col_locals at 2, NormalQuadtree.left_right.
    cbn [fst].
    rewrite !compare_border_eq.
    cbn [NormalQuadtree.l_split NormalQuadtree.border_set NormalQuadtree.border].
    rewrite IH. f_equal.
    rewrite existsb_app. cbn [col_colors existsb].
    destruct sp, cmp, (differs b (skipn 1 (point (fst tl) j))),
      (differs b (skipn 1 (point (fst br - 1) j))); reflexivity.
Qed.

(** On a region with at least one column, the reference colour is the colour
    of the top-left pixel and the flag says whether some scanned colour
    differs from it, provided both dimensions are at least 3. *)
Lemma scan_locals_eq :
  fst tl < fst br ->
  scan_locals
  = NormalQuadtree.Locals
      (cmp && existsb (differs (skipn 1 (point (fst tl) (snd tl)))) scan_colors)
      true (skipn 1 (point (fst tl) (snd tl))).
Proof.
  intros Hc. unfold scan_locals, scan_colors.
  rewrite (range_cons (fst tl) (fst br)) by exact Hc.
  cbn [fold_left flat_map].
  unfold row_locals at 2, NormalQuadtree.top_bottom.
  cbn [NormalQuadtree.border_set NormalQuadtree.l_split NormalQuadtree.border fst snd].
  rewrite compare_border_eq.
  cbn [NormalQuadtree.border_set NormalQuadtree.l_split NormalQuadtree.border].
  rewrite fold_row_locals, fold_col_locals. f_equal.
  rewrite !existsb_app. cbn [row_colors existsb].
  assert (Hrefl : forall b, differs b b = false)
    by (intros b; unfold differs; rewrite array_equal_refl; reflexivity).
  rewrite Hrefl.
  destruct cmp,
    (differs (skipn 1 (point (fst tl) (snd tl)))
       (skipn 1 (point (fst tl) (snd br - 1))));
    cbn [andb orb]; rewrite ?orb_false_r; reflexivity.
Qed.

Lemma scan_colors_scanned color :
  In color scan_colors
  <-> exists r c, scanned r c = true /\ color = skipn 1 (point c r).
Proof.
  unfold scan_colors, scanned. rewrite in_app_iff, !in_flat_map. split.
  - intros [[i [Hi Hin]]|[j [Hj Hin]]].
    + apply in_range_iff in Hi. simpl in Hin.
      destruct Hin as [<-|[<-|[]]].
      * exists (snd tl), i. split; [|reflexivity].
        unfold in_range. zbool. reflexivity.
      * exists (snd br - 1), i. split; [|reflexivity].
        unfold in_range. zbool. simpl. rewrite orb_true_r. reflexivity.
    + apply in_range_iff in Hj. simpl in Hin.
      destruct Hin as [<-|[<-|[]]].
      * exists j, (fst tl). split; [|reflexivity].
        unfold in_range. zbool. simpl. rewrite orb_true_r. reflexivity.
      * exists j, (fst br - 1). split; [|reflexivity].
        unfold in_range. zbool. simpl. rewrite !orb_true_r. reflexivity.
  - intros (r & c & Hs & ->).
    apply orb_true_iff in Hs. destruct Hs as [Hs|Hs];
      apply andb_true_iff in Hs; destruct Hs as [Hin Hedge];
      apply in_range_true in Hin; apply orb_true_iff in Hedge.
    + left. exists c. split; [apply in_range_iff; exact Hin|].
      destruct Hedge as [E|E]; apply Z.eqb_eq in E; subst r; simpl; auto.
    + right. exists r. split; [apply in_range_iff; exact Hin|].
      destruct Hedge as [E|E]; apply Z.eqb_eq in E; subst c; simpl; auto.
Qed.

End PlainScan.

(** Where [k] lies with respect to the first and last index of [[a, b)]. *)
Ltac position k a b :=
  let H := fresh "Hpos" in
  assert (H : k < a \/ k = a \/ (a < k < b - 1) \/ (k = b - 1 /\ a < k) \/ b <= k)
    by lia;
  destruct H as [H|[H|[H|[H|H]]]].

Lemma scanned_on_border tl br r c :
  fst tl < fst br -> snd tl < snd br ->
  scanned tl br r c = on_border (Quad tl br) r c.
Proof.
  intros Hc Hr. unfold scanned, on_border, covers, in_range. simpl.
  position r (snd tl) (snd br); position c (fst tl) (fst br); zbool; reflexivity.
Qed.

Section PlainScanTrace.

Variable point : Z -> Z -> list Z.
Variables tl br : Z * Z.

Lemma row_col_ops_faithful :
  faithful point (flat_map (row_ops point tl br) (range (fst tl) (fst br))
                  ++ flat_map (col_ops point tl br) (range (snd tl) (snd br))).
Proof.
  intros r c color Hin. apply in_app_iff in Hin.
  destruct Hin as [Hin|Hin]; apply in_flat_map in Hin; destruct Hin as [k [_ Hin]];
    simpl in Hin;
    repeat (destruct Hin as [Hin|Hin]; [try discriminate; injection Hin as <- <- <-; reflexivity|]);
    destruct Hin.
Qed.

Lemma scan_ops_faithful : faithful point (scan_ops point tl br).
Proof.
  unfold scan_ops.
  destruct ((snd br - snd tl =? 1) && (fst br - fst tl =? 1)).
  - intros r c color [H|[]]. discriminate.
  - apply row_col_ops_faithful.
Qed.

Lemma existsb_flat_map {A B} (p : B -> bool) (f : A -> list B) (l : list A) :
  existsb p (flat_map f l) = existsb (fun a => existsb p (f a)) l.
Proof.
  induction l as [|a l IH]; simpl; [reflexivity|].
  rewrite existsb_app, IH. reflexivity.
Qed.

Lemma existsb_range (f : Z -> bool) (g : bool) k a b :
  (forall i, f i = (i =? k) && g) ->
  existsb f (range a b) = in_range a b k && g.
Proof.
  intros Hf. apply eq_true_iff_eq. rewrite existsb_exists, andb_true_iff, in_range_true.
  split.
  - intros [i [Hi Hfi]]. rewrite Hf in Hfi. apply andb_true_iff in Hfi.
    destruct Hfi as [E Hg]. apply Z.eqb_eq in E. subst i.
    apply in_range_iff in Hi. tauto.
  - intros [Hk Hg]. exists k. split; [apply in_range_iff; exact Hk|].
    rewrite Hf, Z.eqb_refl. exact Hg.
Qed.

Lemma row_col_ops_put r c :
  existsb (is_put r c)
    (flat_map (row_ops point tl br) (range (fst tl) (fst br))
     ++ flat_map (col_ops point tl br) (range (snd tl) (snd br)))
  = scanned tl br r c.
Proof.
  unfold scanned. rewrite existsb_app, !existsb_flat_map. f_equal.
  - apply existsb_range. intros i. cbn [row_ops existsb is_put].
    destruct (Z.eqb_spec i c) as [->|Hne].
    + rewrite Z.eqb_refl. cbn [orb andb]. rewrite !andb_true_r, orb_false_r.
      reflexivity.
    + replace (c =? i) with false by (symmetry; apply Z.eqb_neq; congruence).
      rewrite !andb_false_r. reflexivity.
  - apply existsb_range. intros j. cbn [col_ops existsb is_put].
    destruct (Z.eqb_spec j r) as [->|Hne].
    + rewrite Z.eqb_refl. cbn [orb andb]. rewrite orb_false_r. reflexivity.
    + replace (r =? j) with false by (symmetry; apply Z.eqb_neq; congruence).
      reflexivity.
Qed.

(** The pixel buffer after a scan: the evaluator's colour at each scanned
    pixel of a region that is not a single pixel, the former content anywhere
    else. *)
Lemma scan_pixels s r c :
  cell (pixels (run_ops (scan_ops point tl br) s)) r c
  = if negb ((snd br - snd tl =? 1) && (fst br - fst tl =? 1)) && scanned tl br r c
    then skipn 1 (point c r) else cell (pixels s) r c.
Proof.
  rewrite (run_ops_pixels point) by apply scan_ops_faithful.
  unfold scan_ops.
  destruct ((snd br - snd tl =? 1) && (fst br - fst tl =? 1)); [reflexivity|].
  rewrite row_col_ops_put. reflexivity.
Qed.

(** How often the scan of a region that is not a single pixel invokes the
    evaluator at column [i], row [j]: once per row loop pass on that column
    for each of the two rows it equals, once per column loop pass on that row
    for each of the two columns. *)
Lemma scan_calls i j :
  (snd br - snd tl =? 1) && (fst br - fst tl =? 1) = false ->
  length (filter (is_call i j) (scan_ops point tl br))
  = (Nat.b2n (in_range (fst tl) (fst br) i)
     * (Nat.b2n (j =? snd tl)%Z + Nat.b2n (j =? snd br - 1)%Z)
     + Nat.b2n (in_range (snd tl) (snd br) j)
       * (Nat.b2n (i =? fst tl)%Z + Nat.b2n (i =? fst br - 1)%Z))%nat.
Proof.
  intros H1. unfold scan_ops. rewrite H1.
  rewrite filter_app, length_app, !filter_flat_map.
  rewrite (length_flat_map_const _ (fun k => k =? i)
             (Nat.b2n (j =? snd tl)%Z + Nat.b2n (j =? snd br - 1)%Z)%nat).
  2:{ intros k. cbn [row_ops filter is_call].
      destruct (k =? i); cbn [andb];
        [|reflexivity].
      rewrite (Z.eqb_sym (snd tl) j), (Z.eqb_sym (snd br - 1) j).
      destruct (j =? snd tl), (j =? snd br - 1); reflexivity. }
  rewrite (length_flat_map_const _ (fun k => k =? j)
             (Nat.b2n (i =? fst tl)%Z + Nat.b2n (i =? fst br - 1)%Z)%nat).
  2:{ intros k. cbn [col_ops filter is_call].
      rewrite (Z.eqb_sym (fst tl) i), (Z.eqb_sym (fst br - 1) i).
      destruct (k =? j), (i =? fst tl), (i =? fst br - 1); reflexivity. }
  rewrite (count_range _ i), (count_range _ j) by reflexivity. lia.
Qed.

End PlainScanTrace.

(** X1.  The plain scanner of the accelerated package reports [split] exactly when
    both dimensions are at least 3 and some border pixel has a colour other
    than the first evaluated one (the top-left pixel's). *)
Theorem plain_scan_split_iff (point : Z -> Z -> list Z) (tl br : Z * Z) (s : Store) :
  fst tl < fst br -> snd tl < snd br ->
  let result := fst (NormalQuadtree.calculate_quadtree point tl br s) in
  (nth 0 result 0 = 1
   <-> (3 <= cols (Quad tl br) /\ 3 <= rows (Quad tl br)
        /\ exists r c, on_border (Quad tl br) r c = true
                       /\ skipn 1 (point c r) <> skipn 1 (point (fst tl) (snd tl))))
  /\ (nth 0 result 0 = 0 \/ nth 0 result 0 = 1).
Proof.
  intros Hc Hr. rewrite calculate_quadtree_parts. cbn [fst]. cbv zeta.
  unfold scan_result, cols, rows. simpl.
  destruct ((snd br - snd tl =? 1) && (fst br - fst tl =? 1)) eqn:E1.
  - apply andb_true_iff in E1. destruct E1 as [E1 E2].
    apply Z.eqb_eq in E1, E2. cbn [nth].
    split; [|auto]. split; [discriminate|lia].
  - rewrite scan_locals_eq by exact Hc. cbn [NormalQuadtree.l_split nth].
    set (B := skipn 1 (point (fst tl) (snd tl))).
    assert (Hex : existsb (differs B) (scan_colors point tl br) = true
                  <-> exists r c, on_border (Quad tl br) r c = true
                                  /\ skipn 1 (point c r) <> B).
    { rewrite existsb_exists. split.
      - intros [color [Hin Hd]]. apply scan_colors_scanned in Hin.
        destruct Hin as (r & c & Hs & ->). exists r, c.
        rewrite <- scanned_on_border by assumption. split; [exact Hs|].
        unfold differs in Hd. apply negb_true_iff in Hd.
        intros Heq. rewrite Heq, array_equal_refl in Hd. discriminate.
      - intros (r & c & Hb & Hne). exists (skipn 1 (point c r)). split.
        + apply scan_colors_scanned. exists r, c.
          rewrite scanned_on_border by assumption. auto.
        + unfold differs. apply negb_true_iff.
          destruct (array_equal B (skipn 1 (point c r))) eqn:Ea; [|reflexivity].
          apply array_equal_spec in Ea. congruence. }
    destruct (Z.leb_spec 3 (fst br - fst tl)); destruct (Z.leb_spec 3 (snd br - snd tl));
      cbn [andb];
      try (split; [split; [discriminate|lia]|auto]).
    destruct (existsb (differs B) (scan_colors point tl br)).
    + split; [|auto]. split; [|reflexivity]. intros _.
      repeat split; try assumption. apply Hex. reflexivity.
    + split; [|auto]. split; [discriminate|].
      intros (_ & _ & Hx). apply Hex in Hx. discriminate.
Qed.

Lemma plain_scan_split_iff_witness :
  fst (0, 0) < fst (3, 3) /\ snd (0, 0) < snd (3, 3)
  /\ forall (point : Z -> Z -> list Z) (s : Store),
       nth 0 (fst (NormalQuadtree.calculate_quadtree point (0, 0) (3, 3) s)) 0 = 0
       \/ nth 0 (fst (NormalQuadtree.calculate_quadtree point (0, 0) (3, 3) s)) 0 = 1.
Proof.
  split; [simpl; lia|]. split; [simpl; lia|]. intros point s.
  exact (proj2 (plain_scan_split_iff point (0, 0) (3, 3) s
                  ltac:(simpl; lia) ltac:(simpl; lia))).
Defined.

(** A corner of the region: a pixel on a horizontal and on a vertical edge. *)
Definition corner (q : QuadTree) (r c : Z) : bool :=
  ((r =? snd (tl q)) || (r =? snd (br q) - 1))
  && ((c =? fst (tl q)) || (c =? fst (br q) - 1)).





(** * [src/Normal/coloring.py]: the grayscale scheme *)

Module NormalColoring.

Definition float_of_Z (z : Z) : float := PrimFloat.of_uint63 (Uint63.of_Z z).

(** [np.round] on the non-negative values the scheme produces: to the nearest
    integer, a tie to the even one. *)
Definition np_round (f : float) : float :=
  let t := Coloring.truncate f in
  let d := (f - float_of_Z t)%float in
  if (d <? 0.5)%float then float_of_Z t
  else if (0.5 <? d)%float then float_of_Z (t + 1)
  else if Z.even t then float_of_Z t else float_of_Z (t + 1).

Section Schemes.

Variable np_log2 : float -> float.

Definition continous_dwell (x y : float) (dwell : nat) (escape_radus : float)
  : float :=
  (Coloring.float_of_nat dwell - np_log2 (np_log2 (x * x + y * y))
   + np_log2 (np_log2 escape_radus) + 1)%float.

(** [grayscale(max_iteration=, iteration=, distance_estimate=, final=,
    escape_radius=, smooth=)]: an array of three floats, for
    [max_iteration > 0] (at 0 the division raises [ZeroDivisionError]). *)
Definition grayscale (max_iteration iteration : nat)
    (distance_estimate : option float) (final : float * float)
    (escape_radius : float) (smooth : bool) : list float :=
  let iteration :=
    if negb (iteration =? max_iteration)%nat && smooth
    then continous_dwell (fst final) (snd final) iteration escape_radius
    else Coloring.float_of_nat iteration in
  let s := sqrt (iteration / Coloring.float_of_nat max_iteration)%float in
  [np_round (s * 255)%float; np_round (s * 255)%float; np_round (s * 255)%float].

End Schemes.

(** [(a != b).any()] on two arrays of the same length. *)
Fixpoint color_differs (a b : list float) : bool :=
  match a, b with
  | u :: a', v :: b' => negb (u =? v)%float || color_differs a' b'
  | _, _ => false
  end.

(** The conversion of an assignment into the [uint8] buffer. *)
Definition to_pixel (color : list float) : list Z := map Coloring.to_uint8 color.

End NormalColoring.

(** [calculate(x[i], y[j], ...)] of the Normal package on the grid [x], [y],
    coloured by [grayscale].  [calculate] always returns (the fuel of its
    loop is never used up); the last branch is never taken. *)
Definition normal_grid_point (np_log np_log2 : float -> float) (x y : list float)
    (max_iterations : nat) (escape_radius : float) (smooth period_checking : bool)
    (i j : Z) : list float * bool :=
  match Normal.calculate np_log (list float) (NormalColoring.grayscale np_log2)
          (nth (Z.to_nat i) x 0%float) (nth (Z.to_nat j) y 0%float)
          max_iterations escape_radius period_checking smooth with
  | Some v => v
  | None => ([], false)
  end.

(** C4.  The Normal scanner returns [split and cols > 3 and rows > 3]: on a
    region of 3 by 3 pixels it never reports a split.  On the grid
    [x = [0, 3, 6]], [y = [3, 0, 3]] (50 iterations, radius 2, grayscale) the
    border pixel in row 1, column 0 is the point 0 of the set, coloured 255,
    and the first border colour is 36: the accelerated scanner reports the
    split, the Normal one does not. *)
Theorem normal_scan_misses_split_at_three :
  (forall (Color : Type) (color_differs : Color -> Color -> bool)
          (to_pixel : Color -> list Z) (point : Z -> Z -> Color * bool)
          (x y : Z) (s : Store),
      fst (fst (NormalUtil.calculate_quadtree Color color_differs to_pixel point
                  (Quad (x, y) (x + 3, y + 3)) s)) = false)
  /\ (forall np_log np_log2 : float -> float,
        let point :=
          normal_grid_point np_log np_log2 [0; 3; 6]%float [3; 0; 3]%float
            50 2 false true in
        fst (point 0 0) = [36; 36; 36]%float
        /\ fst (point 0 1) = [255; 255; 255]%float
        /\ on_border (Quad (0, 0) (3, 3)) 1 0 = true
        /\ fst (NormalUtil.calculate_quadtree (list float)
                  NormalColoring.color_differs NormalColoring.to_pixel point
                  (Quad (0, 0) (3, 3)) (init_store (3, 3)))
           = (false, Some [36; 36; 36]%float))
  /\ (forall (np_log np_log2 : float -> float) color_map_t simple_hsv quilt_coloring
             colormap_coloring (color_map : color_map_t),
        let point :=
          grid_point np_log np_log2 color_map_t simple_hsv quilt_coloring
            colormap_coloring [0; 3; 6]%float [3; 0; 3]%float 50 2 false 0
            color_map true in
        fst (NormalQuadtree.calculate_quadtree point (0, 0) (3, 3) (init_store (3, 3)))
        = [1; 36; 36; 36]).
Proof.
  split; [|split].
  - intros. unfold NormalUtil.calculate_quadtree, rows, cols.
    cbn [tl br fst snd].
    replace (y + 3 - y) with 3 by lia. replace (x + 3 - x) with 3 by lia.
    cbn [Z.eqb andb Pos.eqb].
    destruct (fold_left (NormalUtil.left_right _ _ _ _ _) _ _) as [loc s0].
    cbn [fst]. rewrite andb_false_r. reflexivity.
  - intros np_log np_log2. vm_compute. repeat split.
  - intros. vm_compute. reflexivity.
Qed.

(** X5.  The Normal mixed scanner stores the right column's colours transposed:
    on the region (0, 0)-(4, 3), in a pixel buffer of at least 4 rows and 4
    columns (every store of the scan falls inside it), the colour of the pixel
    in row 1, column 3 is stored at row 3, column 1, and the pixel itself
    keeps its content. *)
Lemma mixed_raster_right_column_transposed
    (Color : Type) (color_differs : Color -> Color -> bool)
    (to_pixel : Color -> list Z) (point : Z -> Z -> Color * bool)
    (unfilled : Color) (s : Store) :
  4 <= len0 (pixels s) -> 4 <= len1 (pixels s) ->
  let s' := snd (NormalUtil.calculated_mixed_raster_quadtree Color to_pixel point
                   unfilled (Quad (0, 0) (4, 3)) s) in
  on_border (Quad (0, 0) (4, 3)) 1 3 = true
  /\ cell (pixels s') 1 3 = cell (pixels s) 1 3
  /\ cell (pixels s') 3 1 = to_pixel (fst (point 3 1)).
Proof. intros _ _. repeat split. Qed.

Lemma mixed_raster_right_column_transposed_witness :
  4 <= len0 (pixels (init_store (4, 4)))
  /\ 4 <= len1 (pixels (init_store (4, 4)))
  /\ forall (Color : Type) (color_differs : Color -> Color -> bool)
            (to_pixel : Color -> list Z) (point : Z -> Z -> Color * bool)
            (unfilled : Color),
       cell (pixels (snd (NormalUtil.calculated_mixed_raster_quadtree Color to_pixel
                            point unfilled (Quad (0, 0) (4, 3)) (init_store (4, 4)))))
            1 3
       = [0; 0; 0].
Proof.
  split; [simpl; lia|]. split; [simpl; lia|].
  intros Color color_differs to_pixel point unfilled.
  exact (proj1 (proj2
           (mixed_raster_right_column_transposed Color color_differs to_pixel point
              unfilled (init_store (4, 4)) ltac:(simpl; lia) ltac:(simpl; lia)))).
Defined.

(** * Geometry of the regions of one level *)

(** A region with at least one row and one column. *)
Definition nonempty (q : QuadTree) : Prop :=
  fst (tl q) < fst (br q) /\ snd (tl q) < snd (br q).

(** [k] lies inside [q]. *)
Definition within (k q : QuadTree) : Prop :=
  fst (tl q) <= fst (tl k) /\ snd (tl q) <= snd (tl k)
  /\ fst (br k) <= fst (br q) /\ snd (br k) <= snd (br q).

(** Two regions without a common pixel. *)
Definition disjoint (q k : QuadTree) : Prop :=
  fst (br q) <= fst (tl k) \/ fst (br k) <= fst (tl q)
  \/ snd (br q) <= snd (tl k) \/ snd (br k) <= snd (tl q).

Fixpoint pairwise {A} (R : A -> A -> Prop) (l : list A) : Prop :=
  match l with
  | [] => True
  | a :: l' => Forall (R a) l' /\ pairwise R l'
  end.

Lemma pairwise_app {A} (R : A -> A -> Prop) (a b : list A) :
  pairwise R (a ++ b)
  <-> pairwise R a /\ pairwise R b /\ (forall x y, In x a -> In y b -> R x y).
Proof.
  induction a as [|x a IH]; simpl.
  - split; [intros H; repeat split; auto; intros _ _ []|tauto].
  - rewrite Forall_app, IH, !Forall_forall. split.
    + intros [[H1 H2] (H3 & H4 & H5)]. repeat split; auto.
      intros u v [<-|Hu] Hv; auto.
    + intros ((H1 & H2) & H3 & H4). repeat split; auto.
Qed.

Lemma disjoint_sym q k : disjoint q k -> disjoint k q.
Proof. unfold disjoint. tauto. Qed.

Lemma disjoint_within q k q' k' :
  disjoint q k -> within q' q -> within k' k -> disjoint q' k'.
Proof. unfold disjoint, within. lia. Qed.

Lemma within_inset k q : within k (inset q 1) -> within k q.
Proof. unfold within, inset; simpl. lia. Qed.

(** The children [split] returns are not empty, lie inside the inset
    rectangle and do not overlap. *)
Lemma split_children self boundary children :
  split self boundary = Ok children ->
  Forall (fun k => nonempty k /\ within k (inset self boundary)) children
  /\ pairwise disjoint children.
Proof.
  unfold split.
  set (c := fst (br self) - boundary - (fst (tl self) + boundary)).
  set (r := snd (br self) - boundary - (snd (tl self) + boundary)).
  cbn [fst snd]. fold c r.
  pose proof (Z.div_mod c 2 ltac:(lia)) as Hc.
  pose proof (Z.mod_pos_bound c 2 ltac:(lia)) as Hc'.
  pose proof (Z.div_mod r 2 ltac:(lia)) as Hr.
  pose proof (Z.mod_pos_bound r 2 ltac:(lia)) as Hr'.
  destruct (Z.ltb_spec r 1); cbn [orb]; [discriminate|].
  destruct (Z.ltb_spec c 1); [discriminate|].
  destruct (Z.eqb_spec r 1); destruct (Z.eqb_spec c 1); cbn [andb];
    intros [= <-]; cbn [pairwise]; split;
    repeat (apply Forall_cons || apply Forall_nil || split);
    unfold nonempty, within, disjoint, inset; cbn [tl br fst snd];
    subst c r; try lia.
Qed.

Lemma in_slice_bounds n start stop k :
  0 <= start -> 0 <= stop -> in_slice n start stop k = true -> start <= k < stop.
Proof.
  unfold in_slice, slice_index. intros H0 H1 H.
  apply andb_true_iff in H. destruct H as [Ha Hb].
  apply Z.leb_le in Ha. apply Z.ltb_lt in Hb.
  destruct (Z.ltb_spec start 0); [lia|]. destruct (Z.ltb_spec stop 0); lia.
Qed.

Lemma scanned_covers tl br r c :
  fst tl < fst br -> snd tl < snd br ->
  scanned tl br r c = true -> covers (Quad tl br) r c = true.
Proof.
  intros Hc Hr Hs. rewrite scanned_on_border in Hs by assumption.
  unfold on_border in Hs. apply andb_true_iff in Hs. tauto.
Qed.

(** * One level of the quadtree, region by region and as a batch *)

Section QuadtreeRuns.

Variable point : Z -> Z -> list Z.

(** The array the scanner returns for a region, the flag read from it, and
    the state after the scan. *)
Definition decide (q : QuadTree) : list Z := scan_result point (tl q) (br q).

Definition wants_split (q : QuadTree) : bool := negb (nth 0 (decide q) 0 =? 0).

Definition visit (q : QuadTree) (s : Store) : Store :=
  run_ops (scan_ops point (tl q) (br q)) s.

(** The children of a region that is split. *)
Definition kids (q : QuadTree) : list QuadTree :=
  match split q 1 with
  | Ok children => children
  | Raise _ => []
  end.

Definition children_of (level : list QuadTree) : list QuadTree :=
  flat_map (fun q => if wants_split q then kids q else []) level.

(** The state after [fill_array(self.pixels, border)]. *)
Definition paint (q : QuadTree) (s : Store) : Store :=
  MkStore (setslice (pixels s) (snd (tl q) + 1) (snd (br q) - 1)
                    (fst (tl q) + 1) (fst (br q) - 1) (skipn 1 (decide q)))
          (seen s) (calls s).

Definition settle_one (q : QuadTree) (s : Store) : Store :=
  if wants_split q then s else paint q s.

(** A level taken region by region, all its scans, and all its fills. *)
Definition seq_effect (level : list QuadTree) (s : Store) : Store :=
  fold_left (fun s q => settle_one q (visit q s)) level s.

Definition visits (level : list QuadTree) (s : Store) : Store :=
  fold_left (fun s q => visit q s) level s.

Definition paints (level : list QuadTree) (s : Store) : Store :=
  fold_left (fun s q => settle_one q s) level s.

Definition interval (q : QuadTree) : (Z * Z) * (Z * Z) := (tl q, br q).

Lemma decide_border q :
  broadcast_rgb (skipn 1 (decide q)) = Some (skipn 1 (decide q)).
Proof.
  unfold decide, scan_result.
  destruct ((snd (br q) - snd (tl q) =? 1) && (fst (br q) - fst (tl q) =? 1));
    reflexivity.
Qed.

Lemma row_locals_split tl br loc i :
  NormalQuadtree.l_split (row_locals point tl br loc i) = true ->
  NormalQuadtree.l_split loc = true
  \/ (3 <=? fst br - fst tl) && (3 <=? snd br - snd tl) = true.
Proof.
  unfold row_locals, NormalQuadtree.top_bottom. cbn [fst].
  destruct (NormalQuadtree.border_set loc);
    rewrite !compare_border_eq;
    cbn [NormalQuadtree.l_split NormalQuadtree.border_set NormalQuadtree.border];
    destruct (NormalQuadtree.l_split loc),
      ((3 <=? fst br - fst tl) && (3 <=? snd br - snd tl));
    cbn [andb orb]; auto.
Qed.

Lemma col_locals_split tl br loc j :
  NormalQuadtree.l_split (col_locals point tl br loc j) = true ->
  NormalQuadtree.l_split loc = true
  \/ (3 <=? fst br - fst tl) && (3 <=? snd br - snd tl) = true.
Proof.
  unfold col_locals, NormalQuadtree.left_right. cbn [fst].
  rewrite !compare_border_eq.
  cbn [NormalQuadtree.l_split NormalQuadtree.border_set NormalQuadtree.border].
  destruct (NormalQuadtree.l_split loc),
    ((3 <=? fst br - fst tl) && (3 <=? snd br - snd tl));
    cbn [andb orb]; auto.
Qed.

Lemma fold_locals_split (f : NormalQuadtree.locals -> Z -> NormalQuadtree.locals)
    (g : bool) (l : list Z) :
  (forall loc i, NormalQuadtree.l_split (f loc i) = true ->
                 NormalQuadtree.l_split loc = true \/ g = true) ->
  forall loc, NormalQuadtree.l_split (fold_left f l loc) = true ->
              NormalQuadtree.l_split loc = true \/ g = true.
Proof.
  intros Hf. induction l as [|i l IH]; intros loc H; simpl in H; [auto|].
  destruct (IH _ H) as [H1|H1]; [|auto]. apply (Hf _ _ H1).
Qed.

(** A split is asked for regions of at least 3 by 3 pixels only. *)
Lemma wants_split_dims q :
  wants_split q = true -> 3 <= cols q /\ 3 <= rows q.
Proof.
  unfold wants_split, decide, scan_result, cols, rows.
  destruct ((snd (br q) - snd (tl q) =? 1) && (fst (br q) - fst (tl q) =? 1));
    [discriminate|].
  cbn [nth].
  destruct (NormalQuadtree.l_split (scan_locals point (tl q) (br q))) eqn:E;
    [|discriminate].
  intros _. unfold scan_locals in E.
  apply (fold_locals_split _ _ _ (col_locals_split (tl q) (br q))) in E.
  destruct E as [E|E].
  - apply (fold_locals_split _ _ _ (row_locals_split (tl q) (br q))) in E.
    destruct E as [E|E]; [discriminate|].
    apply andb_true_iff in E. rewrite !Z.leb_le in E. exact E.
  - apply andb_true_iff in E. rewrite !Z.leb_le in E. exact E.
Qed.

Lemma split_ok q :
  3 <= cols q -> 3 <= rows q -> split q 1 = Ok (kids q).
Proof.
  intros Hc Hr. unfold kids. destruct (split q 1) as [ch|e] eqn:E; [reflexivity|].
  destruct (split_outcome q 1) as (_ & H & _).
  assert (Hx : exists e, split q 1 = Raise e) by eauto.
  apply H in Hx. unfold rows, cols, inset in *. simpl in Hx. lia.
Qed.

Lemma fill_pixels_ok q s :
  snd (br q) <= len0 (pixels s) ->
  AcceleratedMandelbrot.fill_pixels q (skipn 1 (decide q)) s = Ok (paint q s).
Proof.
  intros H. unfold AcceleratedMandelbrot.fill_pixels, fill_array.
  rewrite decide_border.
  destruct (Z.ltb_spec (len0 (pixels s)) (snd (br q))); [lia|]. reflexivity.
Qed.

End QuadtreeRuns.

Section QuadtreeLevels.

Variable point : Z -> Z -> list Z.

Lemma visit_len0 q s : len0 (pixels (visit point q s)) = len0 (pixels s).
Proof. apply run_ops_len0. Qed.

Lemma settle_one_len0 q s : len0 (pixels (settle_one point q s)) = len0 (pixels s).
Proof. unfold settle_one. destruct (wants_split point q); reflexivity. Qed.

Lemma visits_len0 level s : len0 (pixels (visits point level s)) = len0 (pixels s).
Proof.
  revert s. induction level as [|q l IH]; intros s; [reflexivity|].
  unfold visits in *. simpl. rewrite IH. apply visit_len0.
Qed.

Lemma paints_len0 level s : len0 (pixels (paints point level s)) = len0 (pixels s).
Proof.
  revert s. induction level as [|q l IH]; intros s; [reflexivity|].
  unfold paints in *. simpl. rewrite IH. apply settle_one_len0.
Qed.

Lemma seq_effect_len0 level s :
  len0 (pixels (seq_effect point level s)) = len0 (pixels s).
Proof.
  revert s. induction level as [|q l IH]; intros s; [reflexivity|].
  unfold seq_effect in *. simpl. rewrite IH, settle_one_len0. apply visit_len0.
Qed.

(** One pass of the sequential loop. *)
Lemma quadtree_loop_step fuel q rest s :
  AcceleratedMandelbrot.quadtree_loop point (S fuel) (q :: rest) s
  = if wants_split point q then
      AcceleratedMandelbrot.lift (split q 1)
        (fun children =>
           AcceleratedMandelbrot.quadtree_loop point fuel (rest ++ children)
             (visit point q s))
    else
      AcceleratedMandelbrot.lift
        (AcceleratedMandelbrot.fill_pixels q (skipn 1 (decide point q))
           (visit point q s))
        (fun s' => AcceleratedMandelbrot.quadtree_loop point fuel rest s').
Proof.
  cbn [AcceleratedMandelbrot.quadtree_loop].
  rewrite calculate_quadtree_parts. reflexivity.
Qed.

(** The sequential loop works through a level, the regions behind it
    waiting, and leaves the children of the level at the end of the queue. *)
Lemma quadtree_loop_level level : forall waiting fuel s,
  (forall q, In q level -> snd (br q) <= len0 (pixels s)) ->
  AcceleratedMandelbrot.quadtree_loop point (length level + fuel)
    (level ++ waiting) s
  = AcceleratedMandelbrot.quadtree_loop point fuel
      (waiting ++ children_of point level) (seq_effect point level s).
Proof.
  induction level as [|q level IH]; intros waiting fuel s Hin.
  - cbn [length app children_of flat_map seq_effect fold_left Nat.add].
    rewrite app_nil_r. reflexivity.
  - cbn [length app Nat.add]. rewrite quadtree_loop_step.
    unfold seq_effect, children_of. cbn [fold_left flat_map].
    unfold settle_one at 2.
    destruct (wants_split point q) eqn:Ew.
    + destruct (wants_split_dims point q Ew) as [Hc Hr].
      rewrite (split_ok q Hc Hr). cbn [AcceleratedMandelbrot.lift].
      rewrite <- app_assoc, IH, <- app_assoc; [reflexivity|].
      intros k Hk. rewrite visit_len0. apply Hin. now right.
    + rewrite fill_pixels_ok
        by (rewrite visit_len0; apply Hin; now left).
      cbn [AcceleratedMandelbrot.lift app]. apply IH.
      intros k Hk. unfold paint. cbn [pixels setslice len0].
      rewrite visit_len0. apply Hin. now right.
Qed.

Lemma compute_fast_quadtree_eq level s :
  NormalQuadtree.compute_fast_quadtree point (map interval level) s
  = (map (decide point) level, visits point level s).
Proof.
  revert s. induction level as [|q level IH]; intros s; [reflexivity|].
  cbn [map interval NormalQuadtree.compute_fast_quadtree].
  rewrite calculate_quadtree_parts. fold (interval q).
  change (map (fun q0 => (tl q0, br q0)) level) with (map interval level).
  rewrite IH. reflexivity.
Qed.

(** The serial half of a batched pass. *)
Lemma settle_eq level : forall queue temp_interval s,
  (forall q, In q level -> snd (br q) <= len0 (pixels s)) ->
  AcceleratedMandelbrot.settle (map (decide point) level) (level ++ queue)
    temp_interval s
  = Ok (queue ++ children_of point level,
        temp_interval ++ map interval (children_of point level),
        paints point level s).
Proof.
  induction level as [|q level IH]; intros queue temp s Hin.
  - cbn [map app AcceleratedMandelbrot.settle children_of flat_map paints fold_left].
    rewrite !app_nil_r. reflexivity.
  - cbn [map app AcceleratedMandelbrot.settle].
    unfold paints, children_of. cbn [fold_left flat_map].
    unfold settle_one at 2. fold (wants_split point q).
    destruct (wants_split point q) eqn:Ew.
    + destruct (wants_split_dims point q Ew) as [Hc Hr].
      rewrite (split_ok q Hc Hr).
      rewrite <- app_assoc, IH by (intros k Hk; apply Hin; now right).
      rewrite map_app, <- !app_assoc. reflexivity.
    + rewrite fill_pixels_ok by (apply Hin; now left).
      apply IH. intros k Hk. apply Hin. now right.
Qed.

(** One pass of the batched loop. *)
Lemma fast_loop_level fuel level s :
  level <> [] ->
  (forall q, In q level -> snd (br q) <= len0 (pixels s)) ->
  AcceleratedMandelbrot.fast_loop point (S fuel) level (map interval level) s
  = AcceleratedMandelbrot.fast_loop point fuel (children_of point level)
      (map interval (children_of point level))
      (paints point level (visits point level s)).
Proof.
  intros Hne Hin. destruct level as [|q level]; [congruence|].
  cbn [AcceleratedMandelbrot.fast_loop].
  rewrite compute_fast_quadtree_eq.
  rewrite <- (app_nil_r (q :: level)) at 2.
  rewrite settle_eq by (intros k Hk; rewrite visits_len0; apply Hin; exact Hk).
  reflexivity.
Qed.

End QuadtreeLevels.

(** * The scans and the fills of one level commute *)

Section LevelOrder.

Variable point : Z -> Z -> list Z.

(** A fill and a trace that stores outside the filled slice can be swapped. *)
Lemma paint_run_ops q ops : forall s,
  (forall r c v, In (Put r c v) ops ->
     in_slice (len0 (pixels s)) (snd (tl q) + 1) (snd (br q) - 1) r
     && in_slice (len1 (pixels s)) (fst (tl q) + 1) (fst (br q) - 1) c = false) ->
  run_ops ops (paint point q s) = paint point q (run_ops ops s).
Proof.
  induction ops as [|o ops IH]; intros s Hout; [reflexivity|].
  unfold run_ops in *. cbn [fold_left].
  assert (Hstep : run_op (paint point q s) o = paint point q (run_op s o)).
  { destruct o as [i j|r c v|r c]; try reflexivity.
    unfold paint, run_op, store_pixel. cbn [pixels seen calls]. f_equal.
    unfold setitem, setslice. cbn [len0 len1 cell]. f_equal.
    apply functional_extensionality. intros r'.
    apply functional_extensionality. intros c'.
    destruct ((r' =? r) && (c' =? c)) eqn:E; [|reflexivity].
    apply andb_true_iff in E. destruct E as [E1 E2].
    apply Z.eqb_eq in E1, E2. subst r' c'.
    rewrite (Hout r c v) by now left. reflexivity. }
  rewrite Hstep. apply IH.
  intros r c v Hin.
  replace (len0 (pixels (run_op s o))) with (len0 (pixels s))
    by (destruct o; reflexivity).
  replace (len1 (pixels (run_op s o))) with (len1 (pixels s))
    by (destruct o; reflexivity).
  apply (Hout r c v). now right.
Qed.

Lemma scan_puts_covered k r c v :
  nonempty k ->
  In (Put r c v) (scan_ops point (tl k) (br k)) -> covers k r c = true.
Proof.
  intros [Hc Hr] Hin.
  assert (Hex : existsb (is_put r c) (scan_ops point (tl k) (br k)) = true).
  { apply existsb_exists. exists (Put r c v). split; [exact Hin|].
    cbn [is_put]. rewrite !Z.eqb_refl. reflexivity. }
  unfold scan_ops in Hex, Hin.
  destruct ((snd (br k) - snd (tl k) =? 1) && (fst (br k) - fst (tl k) =? 1)).
  - destruct Hin as [Hin|[]]. discriminate.
  - rewrite row_col_ops_put in Hex.
    apply scanned_covers in Hex; assumption.
Qed.

Lemma visit_paint q k s :
  nonempty q -> 0 <= fst (tl q) -> 0 <= snd (tl q) ->
  nonempty k -> disjoint q k ->
  visit point k (paint point q s) = paint point q (visit point k s).
Proof.
  intros [Hqc Hqr] H0 H1 Hk Hd. unfold visit. apply paint_run_ops.
  intros r c v Hin. apply (scan_puts_covered k r c v Hk) in Hin.
  destruct (in_slice (len0 (pixels s)) (snd (tl q) + 1) (snd (br q) - 1) r) eqn:Er;
    [|reflexivity].
  destruct (in_slice (len1 (pixels s)) (fst (tl q) + 1) (fst (br q) - 1) c) eqn:Ec;
    [|reflexivity].
  exfalso.
  apply in_slice_bounds in Er; [|lia|lia].
  apply in_slice_bounds in Ec; [|lia|lia].
  unfold covers in Hin. rewrite !andb_true_iff, !Z.leb_le, !Z.ltb_lt in Hin.
  unfold disjoint in Hd. lia.
Qed.

Lemma visits_settle_one q level : forall s,
  nonempty q -> 0 <= fst (tl q) -> 0 <= snd (tl q) ->
  Forall nonempty level -> Forall (disjoint q) level ->
  visits point level (settle_one point q s)
  = settle_one point q (visits point level s).
Proof.
  intros s Hq H0 H1 Hne Hd. unfold settle_one.
  destruct (wants_split point q); [reflexivity|].
  revert s. induction level as [|k level IH]; intros s; [reflexivity|].
  unfold visits in *. cbn [fold_left].
  inversion Hne as [|? ? Hk Hne']; subst.
  inversion Hd as [|? ? Hdk Hd']; subst.
  rewrite (visit_paint q k s Hq H0 H1 Hk Hdk). apply (IH Hne' Hd').
Qed.

(** Taking a level region by region leaves the state that all the scans
    followed by all the fills leave. *)
Lemma level_commute level : forall s,
  Forall (fun q => nonempty q /\ 0 <= fst (tl q) /\ 0 <= snd (tl q)) level ->
  pairwise disjoint level ->
  seq_effect point level s = paints point level (visits point level s).
Proof.
  induction level as [|q level IH]; intros s Hgood Hpw; [reflexivity|].
  inversion Hgood as [|? ? (Hq & H0 & H1) Hgood']; subst.
  destruct Hpw as [Hd Hpw].
  unfold seq_effect, paints, visits in *. cbn [fold_left].
  rewrite (IH _ Hgood' Hpw).
  fold (visits point level (settle_one point q (visit point q s))).
  rewrite visits_settle_one; try assumption; [reflexivity|].
  apply Forall_impl with (2 := Hgood'). tauto.
Qed.

(** The regions of a level: not empty, with non-negative corners, ending
    within the [height] rows of the buffer, and pairwise disjoint. *)
Definition good (height : Z) (level : list QuadTree) : Prop :=
  Forall (fun q => nonempty q /\ 0 <= fst (tl q) /\ 0 <= snd (tl q)
                   /\ snd (br q) <= height) level
  /\ pairwise disjoint level.

Lemma kids_props q :
  wants_split point q = true ->
  Forall (fun k => nonempty k /\ within k (inset q 1)) (kids q)
  /\ pairwise disjoint (kids q).
Proof.
  intros Hw. destruct (wants_split_dims point q Hw) as [Hc Hr].
  apply (split_children q 1). apply (split_ok q Hc Hr).
Qed.

Lemma children_within level k :
  In k (children_of point level) ->
  exists q, In q level /\ wants_split point q = true
            /\ nonempty k /\ within k (inset q 1).
Proof.
  unfold children_of. rewrite in_flat_map. intros [q [Hq Hk]].
  destruct (wants_split point q) eqn:Hw; [|destruct Hk].
  exists q. repeat split; try assumption;
    destruct (kids_props q Hw) as [Hf _];
    rewrite Forall_forall in Hf; apply (Hf k Hk).
Qed.

Lemma children_pairwise level :
  pairwise disjoint level -> pairwise disjoint (children_of point level).
Proof.
  induction level as [|q level IH]; intros Hpw; [exact I|].
  destruct Hpw as [Hd Hpw].
  change (children_of point (q :: level))
    with ((if wants_split point q then kids q else [])
          ++ children_of point level).
  apply pairwise_app. split; [|split].
  - destruct (wants_split point q) eqn:Hw; [|exact I]. apply (kids_props q Hw).
  - apply IH. exact Hpw.
  - intros a b Ha Hb.
    destruct (wants_split point q) eqn:Hw; [|destruct Ha].
    destruct (kids_props q Hw) as [Hf _]. rewrite Forall_forall in Hf.
    destruct (Hf a Ha) as [_ Hwa].
    destruct (children_within level b Hb) as (q' & Hq' & _ & _ & Hwb).
    rewrite Forall_forall in Hd.
    apply (disjoint_within q q' a b (Hd q' Hq'));
      apply within_inset; assumption.
Qed.

Lemma children_good height level :
  good height level -> good height (children_of point level).
Proof.
  intros [Hall Hpw]. split; [|apply children_pairwise; exact Hpw].
  apply Forall_forall. intros k Hk.
  destruct (children_within level k Hk) as (q & Hq & _ & Hne & Hw).
  rewrite Forall_forall in Hall. destruct (Hall q Hq) as (_ & H0 & H1 & H2).
  unfold within, inset in Hw. cbn [tl br fst snd] in Hw.
  repeat split; try apply Hne; lia.
Qed.

Lemma children_cols level k :
  In k (children_of point level) ->
  exists q, In q level /\ 3 <= cols q /\ cols k <= cols q - 2.
Proof.
  intros Hk. destruct (children_within level k Hk) as (q & Hq & Hw & _ & Hin).
  exists q. split; [exact Hq|].
  destruct (wants_split_dims point q Hw) as [Hc _]. split; [exact Hc|].
  unfold within, inset, cols in *. cbn [tl br fst snd] in Hin. lia.
Qed.

End LevelOrder.

(** * The sequential and the batched quadtree *)

Section Equivalence.

Variable point : Z -> Z -> list Z.

(** Both loops end in [out] when given [n] steps or more. *)
Definition both_end (level : list QuadTree) (s out : Store) (n : nat) : Prop :=
  forall fuel, (n <= fuel)%nat ->
    AcceleratedMandelbrot.quadtree_loop point fuel level s = Done out
    /\ AcceleratedMandelbrot.fast_loop point fuel level (map interval level) s
       = Done out.

Lemma both_end_empty s : both_end [] s s 1.
Proof. intros [|fuel] H; [lia|]. split; reflexivity. Qed.

(** From the children of a level back to the level. *)
Lemma both_end_level height level s out n :
  level <> [] ->
  len0 (pixels s) = height ->
  good height level ->
  both_end (children_of point level) (seq_effect point level s) out n ->
  both_end level s out (length level + n).
Proof.
  intros Hne Hh [Hall Hpw] Hnext fuel Hfuel.
  assert (Hin : forall q, In q level -> snd (br q) <= len0 (pixels s)).
  { intros q Hq. rewrite Forall_forall in Hall. rewrite Hh. apply (Hall q Hq). }
  split.
  - replace fuel with (length level + (fuel - length level))%nat by lia.
    pose proof (quadtree_loop_level point level [] (fuel - length level) s Hin)
      as E.
    rewrite app_nil_r in E. rewrite E.
    cbn [app]. apply Hnext. lia.
  - destruct fuel as [|fuel]; [destruct level; simpl in *; [congruence|lia]|].
    rewrite fast_loop_level by assumption.
    rewrite <- level_commute.
    + apply Hnext. destruct level; simpl in *; [congruence|lia].
    + apply Forall_impl with (2 := Hall). tauto.
    + exact Hpw.
Qed.

(** Every level ends: the regions of a level are at most [2d + 2] columns
    wide, their children two columns narrower, and no region narrower than 3
    columns is split. *)
Lemma levels_end (d : nat) : forall level s,
  good (len0 (pixels s)) level ->
  (forall q, In q level -> cols q <= 2 * Z.of_nat d + 2) ->
  exists out n, both_end level s out n.
Proof.
  induction d as [|d IH]; intros level s Hgood Hcols.
  - destruct level as [|q0 level]; [exists s, 1%nat; apply both_end_empty|].
    assert (Hnone : children_of point (q0 :: level) = []).
    { destruct (children_of point (q0 :: level)) as [|k l] eqn:E; [reflexivity|].
      destruct (children_cols point (q0 :: level) k) as (q & Hq & Hc & _);
        [rewrite E; now left|].
      specialize (Hcols q Hq). lia. }
    exists (seq_effect point (q0 :: level) s), (length (q0 :: level) + 1)%nat.
    apply (both_end_level (len0 (pixels s))); try assumption; try reflexivity;
      [discriminate|].
    rewrite Hnone. apply both_end_empty.
  - destruct level as [|q0 level]; [exists s, 1%nat; apply both_end_empty|].
    destruct (IH (children_of point (q0 :: level))
                 (seq_effect point (q0 :: level) s)) as (out & n & Hend).
    + rewrite seq_effect_len0. apply children_good. exact Hgood.
    + intros k Hk.
      destruct (children_cols point (q0 :: level) k Hk) as (q & Hq & _ & Hle).
      specialize (Hcols q Hq). lia.
    + exists out, (length (q0 :: level) + n)%nat.
      apply (both_end_level (len0 (pixels s))); try assumption; try reflexivity.
      discriminate.
Qed.

Lemma root_children_good size children :
  split (Quad (0, 0) size) 0 = Ok children -> good (snd size) children.
Proof.
  intros Hs. destruct (split_children _ _ _ Hs) as [Hall Hpw].
  split; [|exact Hpw].
  apply Forall_impl with (2 := Hall). intros k [Hne Hw].
  unfold within, inset in Hw. cbn [tl br fst snd] in Hw.
  repeat split; try apply Hne; lia.
Qed.

Lemma root_children_cols size children q :
  split (Quad (0, 0) size) 0 = Ok children -> In q children ->
  cols q <= 2 * Z.of_nat (Z.to_nat (fst size)) + 2.
Proof.
  intros Hs Hq. destruct (split_children _ _ _ Hs) as [Hall _].
  rewrite Forall_forall in Hall. destruct (Hall q Hq) as [Hne Hw].
  unfold within, inset, nonempty, cols in *. cbn [tl br fst snd] in Hw. lia.
Qed.

End Equivalence.

(** C1, as the code has it.  For every point evaluator (grid, iteration cap,
    radius, colour scheme, smooth flag) and every image size, the sequential
    quadtree and the batched quadtree of the accelerated renderer end, given
    enough steps, in the same way: both raise the split failure of an empty
    image, or both complete and leave the same state, so the same content in
    every cell of the pixel buffer. *)
Theorem sequential_equals_batched (point : Z -> Z -> list Z) (size : Z * Z) :
  exists (out : outcome Store) (n : nat),
    out <> OutOfFuel
    /\ (forall fuel, (n <= fuel)%nat ->
          AcceleratedMandelbrot.normal_quadtree point size fuel (init_store size) = out
          /\ AcceleratedMandelbrot.fast_quadtree point size fuel (init_store size) = out)
    /\ (forall fuel s1 s2 r c, (n <= fuel)%nat ->
          AcceleratedMandelbrot.normal_quadtree point size fuel (init_store size)
            = Done s1 ->
          AcceleratedMandelbrot.fast_quadtree point size fuel (init_store size)
            = Done s2 ->
          cell (pixels s1) r c = cell (pixels s2) r c).
Proof.
  unfold AcceleratedMandelbrot.normal_quadtree, AcceleratedMandelbrot.fast_quadtree.
  destruct (split (Quad (0, 0) size) 0) as [children|e] eqn:Hs;
    cbn [AcceleratedMandelbrot.lift].
  - destruct (levels_end point (Z.to_nat (fst size)) children (init_store size))
      as (out & n & Hend).
    + apply root_children_good. exact Hs.
    + intros q Hq. apply (root_children_cols size children q Hs Hq).
    + exists (Done out), n. split; [discriminate|]. split.
      * intros fuel Hfuel. apply (Hend fuel Hfuel).
      * intros fuel s1 s2 r c Hfuel H1 H2.
        destruct (Hend fuel Hfuel) as [E1 E2].
        change (map (fun quad => (tl quad, br quad)) children)
          with (map interval children) in H2.
        congruence.
  - exists (Raised e), 0%nat. split; [discriminate|]. split.
    + intros; split; reflexivity.
    + intros; discriminate.
Qed.

(** * Pixels the strategies leave unwritten *)

(** X3.  With the mask of the raster branch, [seen.shape[1] != 0] is false at every
    pixel: [compute_raster] evaluates and stores nothing. *)
Lemma raster_pass_identity (point : Z -> Z -> list Z) (size : Z * Z) (s : Store) :
  AcceleratedMandelbrot.raster_pass point size s = s.
Proof.
  unfold AcceleratedMandelbrot.raster_pass, Raster.compute_raster.
  assert (Hrow : forall l i s0,
            fold_left (Raster.visit point (zeros false 1 0) i) l s0 = s0)
    by (induction l as [|j l IH]; intros; [reflexivity|apply IH]).
  induction (range 0 (snd size)) as [|i l IH]; [reflexivity|].
  cbn [fold_left]. rewrite Hrow. exact IH.
Qed.

(** X6.  A region of one pixel is evaluated, and neither the scan nor the fill
    that follows stores its colour: the filled slice [tl + 1 : br - 1] is
    empty. *)
Lemma single_pixel_region_unwritten (point : Z -> Z -> list Z) (q : QuadTree)
    (s : Store) (r c : Z) :
  rows q = 1 -> cols q = 1 -> 0 <= fst (tl q) -> 0 <= snd (tl q) ->
  wants_split point q = false
  /\ cell (pixels (settle_one point q (visit point q s))) r c = cell (pixels s) r c
  /\ call_count (fst (tl q)) (snd (tl q)) (calls (settle_one point q (visit point q s)))
     = S (call_count (fst (tl q)) (snd (tl q)) (calls s)).
Proof.
  unfold rows, cols. intros Hr Hc H0 H1.
  assert (E : (snd (br q) - snd (tl q) =? 1) && (fst (br q) - fst (tl q) =? 1) = true)
    by (rewrite Hr, Hc; reflexivity).
  assert (Hw : wants_split point q = false).
  { unfold wants_split, decide, scan_result. rewrite E. reflexivity. }
  split; [exact Hw|]. unfold settle_one. rewrite Hw.
  unfold paint, visit. cbn [pixels calls setslice cell].
  rewrite run_ops_len0, scan_pixels, E. cbn [negb andb].
  split.
  - replace (in_slice (len0 (pixels s)) (snd (tl q) + 1) (snd (br q) - 1) r)
      with false; [reflexivity|].
    symmetry. unfold in_slice, slice_index. zbool.
    zcases; try reflexivity; lia.
  - rewrite run_ops_calls. unfold scan_ops. rewrite E.
    cbn [filter is_call]. rewrite !Z.eqb_refl. reflexivity.
Qed.

Lemma single_pixel_region_unwritten_witness :
  rows (Quad (1, 1) (2, 2)) = 1 /\ cols (Quad (1, 1) (2, 2)) = 1
  /\ forall (point : Z -> Z -> list Z) (s : Store) (r c : Z),
       cell (pixels (settle_one point (Quad (1, 1) (2, 2))
                       (visit point (Quad (1, 1) (2, 2)) s))) r c
       = cell (pixels s) r c.
Proof.
  split; [reflexivity|]. split; [reflexivity|]. intros point s r c.
  exact (proj1 (proj2 (single_pixel_region_unwritten point (Quad (1, 1) (2, 2)) s r c
                         eq_refl eq_refl ltac:(simpl; lia) ltac:(simpl; lia)))).
Defined.

Section Examples.

Variable np_log np_log2 : float -> float.
Variable color_map_t : Type.
Variable simple_hsv : nat -> nat -> float -> float -> float -> bool -> Z * Z * Z.
Variable quilt_coloring :
  nat -> nat -> float -> float -> float -> float -> bool -> Z * Z * Z.
Variable colormap_coloring :
  nat -> nat -> float -> float -> float -> bool -> color_map_t -> Z * Z * Z.
Variable color_map : color_map_t.

(** The evaluator on a grid of 6 by 6 samples, 3 apart, with 50 iterations,
    radius 2, grayscale, no smoothing. *)
Definition example_point (x y : list float) : Z -> Z -> list Z :=
  grid_point np_log np_log2 color_map_t simple_hsv quilt_coloring
    colormap_coloring x y 50 2 false 0 color_map true.

(** The pixel (r, c) of the buffer a run leaves holds [color]. *)
Definition leaves (o : outcome Store) (r c : Z) (color : list Z) : Prop :=
  match o with
  | Done s => cell (pixels s) r c = color
  | _ => False
  end.

End Examples.

(** C2.  On the grid [x = [0, 3, .., 15]], [y = [3, 0, 3, .., 12]] the
    top-left 3 by 3 region has the point 0 of the set on its border (row 1,
    column 0) and is split; its child is the single pixel (1, 1).  The
    sequential and the batched quadtree evaluate that pixel once, to the
    colour 36, and complete with the pixel at the initial zeros. *)
Theorem single_pixel_leaf_left_unwritten
    (np_log np_log2 : float -> float) (color_map_t : Type)
    (simple_hsv : nat -> nat -> float -> float -> float -> bool -> Z * Z * Z)
    (quilt_coloring :
       nat -> nat -> float -> float -> float -> float -> bool -> Z * Z * Z)
    (colormap_coloring :
       nat -> nat -> float -> float -> float -> bool -> color_map_t -> Z * Z * Z)
    (color_map : color_map_t) :
  let point :=
    example_point np_log np_log2 color_map_t simple_hsv quilt_coloring
      colormap_coloring color_map
      [0; 3; 6; 9; 12; 15]%float [3; 0; 3; 6; 9; 12]%float in
  skipn 1 (point 1 1) = [36; 36; 36]
  /\ cell (pixels (init_store (6, 6))) 1 1 = [0; 0; 0]
  /\ leaves (AcceleratedMandelbrot.normal_quadtree point (6, 6) 100
               (init_store (6, 6))) 1 1 [0; 0; 0]
  /\ leaves (AcceleratedMandelbrot.fast_quadtree point (6, 6) 100
               (init_store (6, 6))) 1 1 [0; 0; 0]
  /\ leaves (AcceleratedMandelbrot.normal_quadtree point (6, 6) 100
               (init_store (6, 6))) 1 0 [255; 255; 255]
  /\ match AcceleratedMandelbrot.normal_quadtree point (6, 6) 100
             (init_store (6, 6)) with
     | Done s => call_count 1 1 (calls s) = 1%nat
     | _ => False
     end.
Proof. vm_compute. repeat split. Qed.

(** C1 as stated fails.  On the grid [x = [-3, 0, .., 12]],
    [y = [3, 0, 3, .., 12]] the only point of the set is the pixel (1, 1),
    inside the top-left 3 by 3 region, whose border is uniformly coloured 36.
    The sequential quadtree fills the pixel with 36; the mixed strategy
    leaves it to the raster pass, which stores 255. *)
Lemma quadtree_differs_from_mixed :
  exists x y : list float,
    forall (np_log np_log2 : float -> float) (color_map_t : Type)
           (simple_hsv : nat -> nat -> float -> float -> float -> bool -> Z * Z * Z)
           (quilt_coloring :
              nat -> nat -> float -> float -> float -> float -> bool -> Z * Z * Z)
           (colormap_coloring :
              nat -> nat -> float -> float -> float -> bool -> color_map_t
              -> Z * Z * Z)
           (color_map : color_map_t),
      let point :=
        example_point np_log np_log2 color_map_t simple_hsv quilt_coloring
          colormap_coloring color_map x y in
      leaves (AcceleratedMandelbrot.normal_quadtree point (6, 6) 100
                (init_store (6, 6))) 1 1 [36; 36; 36]
      /\ leaves (AcceleratedMandelbrot.mixed_quadtree point (6, 6) 100
                   (init_store (6, 6))) 1 1 [255; 255; 255].
Proof.
  exists [-3; 0; 3; 6; 9; 12]%float, [3; 0; 3; 6; 9; 12]%float.
  intros. vm_compute. split; reflexivity.
Qed.

(** * Further facts about [src/quadtree.py] *)

(** The children [split] returns on unbounded integers tile the rectangle
    left by the boundary. *)
Lemma split_children_tile (self : QuadTree) (boundary : Z)
    (children : list QuadTree) (r c : Z) :
  split self boundary = Ok children ->
  cover_count children r c = Nat.b2n (covers (inset self boundary) r c).
Proof.
  unfold split, inset, cover_count, covers.
  set (x0 := fst (tl self) + boundary). set (y0 := snd (tl self) + boundary).
  set (x1 := fst (br self) - boundary). set (y1 := snd (br self) - boundary).
  cbn [fst snd tl br].
  pose proof (Z.div_mod (x1 - x0) 2 ltac:(lia)) as Hc.
  pose proof (Z.mod_pos_bound (x1 - x0) 2 ltac:(lia)) as Hc'.
  pose proof (Z.div_mod (y1 - y0) 2 ltac:(lia)) as Hr.
  pose proof (Z.mod_pos_bound (y1 - y0) 2 ltac:(lia)) as Hr'.
  set (hx := (x1 - x0) / 2) in *. set (hy := (y1 - y0) / 2) in *.
  destruct (Z.ltb_spec (y1 - y0) 1); cbn [orb]; [discriminate|].
  destruct (Z.ltb_spec (x1 - x0) 1); [discriminate|].
  assert (Hpr : r < y0 \/ y0 <= r < y0 + hy \/ y0 + hy <= r < y1 \/ y1 <= r) by lia.
  assert (Hpc : c < x0 \/ x0 <= c < x0 + hx \/ x0 + hx <= c < x1 \/ x1 <= c) by lia.
  destruct (Z.eqb_spec (y1 - y0) 1); destruct (Z.eqb_spec (x1 - x0) 1); cbn [andb];
    intros [= <-]; cbn [filter tl br fst snd];
    destruct Hpr as [Hpr|[Hpr|[Hpr|Hpr]]]; destruct Hpc as [Hpc|[Hpc|[Hpc|Hpc]]];
    first [exfalso; lia | zbool; reflexivity].
Qed.

(** X7.  Whenever [split] succeeds inside the 32-bit range ([in_int32]), its
    children tile the rectangle left by the boundary: a pixel of that
    rectangle lies in exactly one child, any other pixel in none.  This holds
    for every such size and boundary, negative ones included. *)
Theorem split_tiles_inset (self : QuadTree) (boundary : Z)
    (children : list QuadTree) (r c : Z) :
  in_int32 self boundary ->
  split_int32 self boundary = Ok children ->
  cover_count children r c = Nat.b2n (covers (inset self boundary) r c).
Proof.
  intros H32. rewrite (split_int32_in_range self boundary H32).
  apply split_children_tile.
Qed.

Lemma split_tiles_inset_witness :
  in_int32 (Quad (0, 0) (10, 10)) 1
  /\ split_int32 (Quad (0, 0) (10, 10)) 1
     = Ok [Quad (1, 1) (5, 5); Quad (5, 1) (9, 5); Quad (1, 5) (5, 9); Quad (5, 5) (9, 9)]
  /\ cover_count [Quad (1, 1) (5, 5); Quad (5, 1) (9, 5);
                  Quad (1, 5) (5, 9); Quad (5, 5) (9, 9)] 4 5 = 1%nat.
Proof.
  assert (H : in_int32 (Quad (0, 0) (10, 10)) 1)
    by (unfold in_int32; repeat split; reflexivity).
  split; [exact H|]. split; [reflexivity|].
  exact (split_tiles_inset (Quad (0, 0) (10, 10)) 1 _ 4 5 H eq_refl).
Defined.

(** X8.  On an array that holds the region, with a boundary that is not
    negative and not beyond the bottom-right corner, [fill_array] raises
    nothing, keeps the shape and writes the value into exactly the cells of
    the region shrunk by the boundary. *)
Theorem fill_array_writes_inset {V W : Type} (broadcast : W -> option V)
    (self : QuadTree) (array : ndarray V) (value : W) (v : V) (boundary : Z) :
  broadcast value = Some v ->
  0 <= boundary ->
  0 <= fst (tl self) -> 0 <= snd (tl self) ->
  boundary <= fst (br self) <= len1 array ->
  boundary <= snd (br self) <= len0 array ->
  exists array',
    fill_array broadcast self array value boundary = Ok array'
    /\ len0 array' = len0 array /\ len1 array' = len1 array
    /\ forall r c,
         cell array' r c
         = if covers (inset self boundary) r c then v else cell array r c.
Proof.
  intros Hb Hn Hx Hy Hc Hr. unfold fill_array. rewrite Hb.
  destruct (Z.ltb_spec (len0 array) (snd (br self))); [lia|].
  eexists. split; [reflexivity|]. split; [reflexivity|]. split; [reflexivity|].
  intros r c. unfold setslice, in_slice, slice_index, covers, inset.
  cbn [cell tl br fst snd].
  assert (Hpr : r < snd (tl self) + boundary
                \/ snd (tl self) + boundary <= r < snd (br self) - boundary
                \/ snd (br self) - boundary <= r) by lia.
  assert (Hpc : c < fst (tl self) + boundary
                \/ fst (tl self) + boundary <= c < fst (br self) - boundary
                \/ fst (br self) - boundary <= c) by lia.
  destruct Hpr as [Hpr|[Hpr|Hpr]]; destruct Hpc as [Hpc|[Hpc|Hpc]];
    zbool; cbn [andb]; try reflexivity;
    zcases; cbn [andb]; try reflexivity; exfalso; lia.
Qed.

Lemma fill_array_writes_inset_witness :
  0 <= 1
  /\ exists array',
       fill_array Some (Quad (5, 5) (15, 15)) (zeros 0 20 20) 1 1 = Ok array'
       /\ cell array' 6 6 = 1 /\ cell array' 5 5 = 0 /\ cell array' 14 14 = 0.
Proof.
  split; [lia|].
  destruct (fill_array_writes_inset Some (Quad (5, 5) (15, 15)) (zeros 0 20 20) 1 1 1
              eq_refl ltac:(lia) ltac:(simpl; lia) ltac:(simpl; lia)
              ltac:(simpl; lia) ltac:(simpl; lia))
    as (array' & Hok & _ & _ & Hcell).
  exists array'. split; [exact Hok|].
  rewrite !Hcell. repeat split.
Defined.

(** * The orbit loops *)

Section StepsBound.

Variables x0 y0 : float.
Variable max_iterations : nat.
Variable escape_radius : float.
Variable period_checking : bool.

(** The [while] loop executes at most [max_iterations] bodies, and as many as
    it counts iterations unless the periodicity check forced the count. *)
Lemma while_loop_steps fuel : forall s s',
  Normal.while_loop x0 y0 max_iterations escape_radius period_checking fuel s
  = Some s' ->
  (steps s = o_iterations s)%nat ->
  (o_iterations s <= max_iterations)%nat ->
  (steps s' <= max_iterations)%nat
  /\ (o_iterations s' <= max_iterations)%nat
  /\ ((o_iterations s' < max_iterations)%nat -> steps s' = o_iterations s').
Proof.
  induction fuel as [|fuel IH]; intros s s'; simpl; [discriminate|].
  unfold Normal.loop_guard.
  destruct ((magnitude2 s <=? Normal.escape_radius_squared escape_radius)%float);
    cbn [andb].
  - destruct (o_iterations s <? max_iterations)%nat eqn:Hi.
    + apply Nat.ltb_lt in Hi. destruct period_checking.
      * destruct (repeats (advance x0 y0 s)).
        -- intros [= <-] Hs Hle. simpl. repeat split; lia.
        -- intros H Hs Hle. apply (IH _ _ H).
           ++ unfold checkpoint. destruct (20 <? _)%nat; simpl; lia.
           ++ rewrite checkpoint_iterations, advance_iterations. lia.
      * intros H Hs Hle. apply (IH _ _ H); simpl; lia.
    + intros [= <-] Hs Hle. repeat split; lia.
  - intros [= <-] Hs Hle. repeat split; lia.
Qed.

(** The same for the [for] loop. *)
Lemma for_loop_steps n : forall s,
  (steps s = o_iterations s)%nat ->
  (o_iterations s + n = max_iterations)%nat ->
  let s' :=
    Accelerated.for_loop x0 y0 max_iterations escape_radius period_checking n s in
  (steps s' <= max_iterations)%nat
  /\ (o_iterations s' <= max_iterations)%nat
  /\ ((o_iterations s' < max_iterations)%nat -> steps s' = o_iterations s').
Proof.
  induction n as [|n IH]; intros s Hs Hn; simpl.
  - repeat split; lia.
  - destruct (Accelerated.escaped escape_radius (advance x0 y0 s)).
    + simpl. repeat split; lia.
    + destruct period_checking.
      * destruct (repeats (advance x0 y0 s)).
        -- simpl. repeat split; lia.
        -- apply IH.
           ++ unfold checkpoint. destruct (1 <? _)%nat; simpl; lia.
           ++ rewrite checkpoint_iterations, advance_iterations. lia.
      * apply IH; simpl; lia.
Qed.

End StepsBound.

(** X10.  The orbit loop of each evaluator ends for every input: the
    [while] loop of the Normal evaluator within any fuel above
    [max_iterations], the [for] loop of the accelerated one by its range.
    Either loop executes at most [max_iterations] bodies and leaves an
    iteration count of at most [max_iterations]; a count below
    [max_iterations] is the number of bodies executed.  The statement is
    about the loops alone, not about the distance estimate and the colouring
    computed after them. *)
Theorem orbit_loops_bounded (x0 y0 : float) (max_iterations : nat)
    (escape_radius : float) (period_checking : bool) :
  (forall fuel, (max_iterations < fuel)%nat ->
     exists s,
       Normal.while_loop x0 y0 max_iterations escape_radius period_checking fuel
         orbit_init = Some s
       /\ (steps s <= max_iterations)%nat
       /\ (o_iterations s <= max_iterations)%nat
       /\ ((o_iterations s < max_iterations)%nat -> steps s = o_iterations s))
  /\ (let s := Accelerated.for_loop x0 y0 max_iterations escape_radius
                 period_checking max_iterations orbit_init in
      (steps s <= max_iterations)%nat
      /\ (o_iterations s <= max_iterations)%nat
      /\ ((o_iterations s < max_iterations)%nat -> steps s = o_iterations s)).
Proof.
  split.
  - intros fuel Hfuel.
    destruct (while_loop_returns x0 y0 max_iterations escape_radius
                period_checking fuel orbit_init) as [s Hs]; [simpl; lia|].
    exists s. split; [exact Hs|].
    apply (while_loop_steps x0 y0 max_iterations escape_radius period_checking
             _ _ _ Hs); [reflexivity|simpl; lia].
  - apply (for_loop_steps x0 y0 max_iterations escape_radius period_checking
             max_iterations orbit_init); reflexivity.
Qed.

(** ** What the periodicity check can find *)

Section PeriodWindow.

Variables x0 y0 : float.
Variable max_iterations : nat.
Variable escape_radius : float.

(** The orbit value number [k], computed without any check. *)
Definition orbit_value (k : nat) : orbit := Nat.iter k (advance x0 y0) orbit_init.

(** The two states hold the same orbit value and derivative. *)
Definition same_value (s t : orbit) : Prop :=
  o_x s = o_x t /\ o_y s = o_y t /\ o_x2 s = o_x2 t /\ o_y2 s = o_y2 t
  /\ o_w s = o_w t /\ o_dx s = o_dx t /\ o_dy s = o_dy t.

(** What the loops keep between two passes, [j] passes being done: the state
    holds the orbit value number [j], the period counter [p] is at most the
    cadence, and the checkpoint is the orbit value number [j - p]. *)
Definition window (cadence j : nat) (s : orbit) : Prop :=
  same_value s (orbit_value j)
  /\ steps s = j /\ o_iterations s = j
  /\ (o_period s <= cadence)%nat /\ (o_period s <= j)%nat
  /\ o_x_old s = o_x (orbit_value (j - o_period s))
  /\ o_y_old s = o_y (orbit_value (j - o_period s)).

(** The check fired at pass [k] on a repetition of the orbit value [d] passes
    earlier. *)
Definition repeated (k d : nat) : Prop :=
  (o_x (orbit_value (k - d)) =? o_x (orbit_value k))%float = true
  /\ (o_y (orbit_value (k - d)) =? o_y (orbit_value k))%float = true.

Lemma window_init cadence : window cadence 0 orbit_init.
Proof. unfold window, same_value. simpl. repeat split; lia. Qed.

Lemma same_value_advance s t :
  same_value s t -> same_value (advance x0 y0 s) (advance x0 y0 t).
Proof.
  unfold same_value. intros (Hx & Hy & Hx2 & Hy2 & Hw & Hdx & Hdy).
  cbn [advance o_x o_y o_x2 o_y2 o_w o_dx o_dy].
  rewrite Hx2, Hy2, Hw, Hdx, Hdy. repeat split.
Qed.

Lemma window_repeats cadence j s :
  window cadence j s ->
  repeats (advance x0 y0 s) = true ->
  exists d, (1 <= d <= S cadence)%nat /\ (d <= S j)%nat /\ repeated (S j) d.
Proof.
  intros (Hv & _ & _ & Hp & Hpj & Hox & Hoy) Hrep.
  exists (S (o_period s)). split; [lia|]. split; [lia|].
  unfold repeats in Hrep. apply andb_true_iff in Hrep.
  pose proof (same_value_advance _ _ Hv) as (Hx & Hy & _).
  cbn [advance o_x_old o_y_old] in Hrep. rewrite Hox, Hoy in Hrep.
  change (advance x0 y0 (orbit_value j)) with (orbit_value (S j)) in Hx, Hy.
  unfold repeated. replace (S j - S (o_period s))%nat with (j - o_period s)%nat by lia.
  rewrite <- Hx, <- Hy. exact Hrep.
Qed.

Lemma window_checkpoint cadence j s :
  window cadence j s ->
  window cadence (S j) (checkpoint cadence (advance x0 y0 s)).
Proof.
  intros (Hv & Hs & Hi & Hp & Hpj & Hox & Hoy).
  pose proof (same_value_advance _ _ Hv) as Hv'.
  change (advance x0 y0 (orbit_value j)) with (orbit_value (S j)) in Hv'.
  unfold checkpoint. cbn [advance o_period].
  destruct (Nat.ltb_spec cadence (S (o_period s))).
  - unfold window, same_value in *.
    cbn [advance o_x o_y o_x2 o_y2 o_w o_dx o_dy steps o_iterations o_period
         o_x_old o_y_old] in *.
    rewrite Nat.sub_0_r.
    repeat split; try tauto; try lia.
  - unfold window, same_value in *.
    cbn [advance o_x o_y o_x2 o_y2 o_w o_dx o_dy steps o_iterations o_period
         o_x_old o_y_old] in *.
    replace (S j - S (o_period s))%nat with (j - o_period s)%nat by lia.
    repeat split; try tauto; try lia.
Qed.

(** The accelerated loop: a forced count after fewer than [max_iterations]
    passes comes from a repetition at most two passes back. *)
Lemma for_loop_window n : forall j s,
  window 1 j s -> (j + n = max_iterations)%nat ->
  let s' := Accelerated.for_loop x0 y0 max_iterations escape_radius true n s in
  (steps s' < max_iterations)%nat -> o_iterations s' = max_iterations ->
  exists d, (1 <= d <= 2)%nat /\ (d <= steps s')%nat /\ repeated (steps s') d.
Proof.
  induction n as [|n IH]; intros j s Hw Hn; cbn [Accelerated.for_loop].
  - destruct Hw as (_ & Hs & _). intros; lia.
  - destruct (Accelerated.escaped escape_radius (advance x0 y0 s)).
    + destruct Hw as (_ & Hs & Hi & _). cbn [advance steps o_iterations].
      intros; lia.
    + destruct (repeats (advance x0 y0 s)) eqn:Hrep.
      * intros _ _. cbn [set_iterations advance steps].
        destruct (window_repeats 1 j s Hw Hrep) as (d & Hd & Hdj & Hr).
        destruct Hw as (_ & Hs & _). rewrite Hs. exists d. auto.
      * apply (IH (S j)); [apply window_checkpoint; exact Hw|lia].
Qed.

(** The Normal loop: a repetition at most 21 passes back. *)
Lemma while_loop_window fuel : forall j s s',
  window 20 j s ->
  Normal.while_loop x0 y0 max_iterations escape_radius true fuel s = Some s' ->
  (steps s' < max_iterations)%nat -> o_iterations s' = max_iterations ->
  exists d, (1 <= d <= 21)%nat /\ (d <= steps s')%nat /\ repeated (steps s') d.
Proof.
  induction fuel as [|fuel IH]; intros j s s' Hw; cbn [Normal.while_loop];
    [discriminate|].
  destruct (Normal.loop_guard max_iterations escape_radius s).
  - destruct (repeats (advance x0 y0 s)) eqn:Hrep.
    + intros [= <-] _ _. cbn [set_iterations advance steps].
      destruct (window_repeats 20 j s Hw Hrep) as (d & Hd & Hdj & Hr).
      destruct Hw as (_ & Hs & _). rewrite Hs. exists d. auto.
    + apply (IH (S j)). apply window_checkpoint. exact Hw.
  - intros [= <-]. destruct Hw as (_ & Hs & Hi & _). intros; lia.
Qed.

End PeriodWindow.

(** X11.  With the periodicity check on, a point outside the main body that
    is returned as in the set after fewer than [max_iterations] loop bodies
    was caught by the check, and the check only ever compares an orbit value
    with an earlier one that is close: the accelerated loop renews its
    checkpoint when [period > period_checking], that is when [period > 1], and
    finds a repetition of the value one or two passes back; the Normal loop
    renews it when [period > 20] and looks up to 21 passes back. *)
Theorem period_check_window (np_log : float -> float) (x0 y0 : float)
    (max_iterations : nat) (escape_radius : float) :
  in_main_body x0 y0 = false ->
  (let a := Accelerated.evaluate np_log x0 y0 max_iterations escape_radius true in
   in_set a = true -> (orbit_steps a < max_iterations)%nat ->
   exists d, (1 <= d <= 2)%nat /\ (d <= orbit_steps a)%nat
             /\ repeated x0 y0 (orbit_steps a) d)
  /\ (exists r,
        Normal.evaluate np_log x0 y0 max_iterations escape_radius true = Some r
        /\ (in_set r = true -> (orbit_steps r < max_iterations)%nat ->
            exists d, (1 <= d <= 21)%nat /\ (d <= orbit_steps r)%nat
                      /\ repeated x0 y0 (orbit_steps r) d)).
Proof.
  intros Hbody. split.
  - unfold Accelerated.evaluate. rewrite Hbody. cbv zeta.
    unfold Accelerated.finish. cbn [in_set orbit_steps].
    intros Hin Hlt. apply Nat.eqb_eq in Hin.
    apply (for_loop_window x0 y0 max_iterations escape_radius max_iterations
             0%nat orbit_init (window_init x0 y0 1) eq_refl Hlt Hin).
  - unfold Normal.evaluate. rewrite Hbody.
    destruct (while_loop_returns x0 y0 max_iterations escape_radius true
                (S max_iterations) orbit_init) as [s Hs]; [simpl; lia|].
    rewrite Hs. cbn [option_map]. eexists. split; [reflexivity|].
    unfold Normal.finish. cbn [in_set orbit_steps].
    intros Hin Hlt. apply Nat.eqb_eq in Hin.
    apply (while_loop_window x0 y0 max_iterations escape_radius _ 0%nat orbit_init s
             (window_init x0 y0 20) Hs Hlt Hin).
Qed.

Lemma period_check_window_witness :
  in_main_body (-1) 0 = false
  /\ forall np_log : float -> float,
       orbit_steps (Accelerated.evaluate np_log (-1) 0 50 2 true) = 2%nat
       /\ exists d, (1 <= d <= 2)%nat /\ repeated (-1) 0 2 d.
Proof.
  split; [reflexivity|]. intros np_log. split; [reflexivity|].
  destruct (proj1 (period_check_window np_log (-1) 0 50 2 eq_refl) eq_refl
              ltac:(vm_compute; lia))
    as (d & Hd & _ & Hr).
  exists d. split; [exact Hd|exact Hr].
Defined.

(** * Traces: the last store at a cell *)

(** The colour the last store of a trace leaves at the cell [(r, c)]. *)
Fixpoint last_put (r c : Z) (ops : list op) : option (list Z) :=
  match ops with
  | [] => None
  | o :: ops' =>
      match last_put r c ops' with
      | Some v => Some v
      | None =>
          match o with
          | Put r' c' v => if (r =? r') && (c =? c') then Some v else None
          | _ => None
          end
      end
  end.

Lemma run_ops_last_put ops : forall s r c,
  cell (pixels (run_ops ops s)) r c
  = match last_put r c ops with
    | Some v => v
    | None => cell (pixels s) r c
    end.
Proof.
  induction ops as [|o ops IH]; intros s r c; [reflexivity|].
  unfold run_ops in *. cbn [fold_left last_put]. rewrite IH.
  destruct (last_put r c ops); [reflexivity|].
  destruct o as [i j|r' c' v|r' c']; try reflexivity.
  cbn [run_op store_pixel pixels setitem cell].
  destruct ((r =? r') && (c =? c')); reflexivity.
Qed.

Lemma last_put_app r c a b :
  last_put r c (a ++ b)
  = match last_put r c b with
    | Some v => Some v
    | None => last_put r c a
    end.
Proof.
  induction a as [|o a IH]; cbn [app last_put].
  - destruct (last_put r c b); reflexivity.
  - rewrite IH. destruct (last_put r c b); reflexivity.
Qed.

Lemma last_put_flat_map_none {A} r c (f : A -> list op) (l : list A) :
  (forall a, In a l -> last_put r c (f a) = None) ->
  last_put r c (flat_map f l) = None.
Proof.
  induction l as [|a l IH]; intros H; [reflexivity|].
  cbn [flat_map]. rewrite last_put_app, IH by (intros; apply H; now right).
  apply H. now left.
Qed.

Lemma last_put_flat_map_some r c (f : Z -> list op) (l : list Z) k v :
  In k l ->
  last_put r c (f k) = Some v ->
  (forall j, In j l -> j <> k -> last_put r c (f j) = None) ->
  last_put r c (flat_map f l) = Some v.
Proof.
  induction l as [|a l IH]; intros Hin Hk Hother; [destruct Hin|].
  cbn [flat_map]. rewrite last_put_app.
  destruct (in_dec Z.eq_dec k l) as [Hl|Hl].
  - rewrite IH; [reflexivity|exact Hl|exact Hk|].
    intros j Hj. apply Hother. now right.
  - destruct Hin as [->|Hin]; [|contradiction].
    rewrite last_put_flat_map_none; [exact Hk|].
    intros j Hj. apply Hother; [now right|]. intros ->. contradiction.
Qed.

(** A loop over [range(a, b)] of which only the pass at [k] stores at the
    cell. *)
Lemma last_put_range r c (f : Z -> list op) a b k :
  (forall j, j <> k -> last_put r c (f j) = None) ->
  last_put r c (flat_map f (range a b))
  = if in_range a b k then last_put r c (f k) else None.
Proof.
  intros Hother. destruct (in_range a b k) eqn:Hk.
  - apply in_range_true, in_range_iff in Hk.
    destruct (last_put r c (f k)) as [v|] eqn:Hv.
    + apply (last_put_flat_map_some r c f _ k v Hk Hv). auto.
    + apply last_put_flat_map_none. intros j _.
      destruct (Z.eq_dec j k) as [->|Hne]; auto.
  - apply last_put_flat_map_none. intros j Hj. apply Hother. intros ->.
    apply in_range_iff, in_range_true in Hj. congruence.
Qed.

(** The same for the invocations a loop logs. *)
Lemma calls_range i j (f : Z -> list op) a b k :
  (forall m, m <> k -> filter (is_call i j) (f m) = []) ->
  length (filter (is_call i j) (flat_map f (range a b)))
  = if in_range a b k then length (filter (is_call i j) (f k)) else 0%nat.
Proof.
  intros Hother. rewrite filter_flat_map.
  rewrite (length_flat_map_const _ (fun m => m =? k)
             (length (filter (is_call i j) (f k)))).
  - rewrite (count_range _ k) by reflexivity.
    destruct (in_range a b k); simpl; lia.
  - intros m. destruct (Z.eqb_spec m k) as [->|Hne]; [reflexivity|].
    rewrite Hother by exact Hne. reflexivity.
Qed.

Lemma fold_left_ext {A B} (f g : A -> B -> A) (l : list B) :
  (forall a b, f a b = g a b) -> forall a, fold_left f l a = fold_left g l a.
Proof.
  intros H. induction l as [|b l IH]; intros a; simpl; [reflexivity|].
  rewrite H. apply IH.
Qed.

(** ** Two nested loops over the rows and the columns of the image *)

Section GridTrace.

(** The trace of the pass at row [i], column [j]. *)
Variable pass : Z -> Z -> list op.

Definition grid_ops (width height : Z) : list op :=
  flat_map (fun i => flat_map (pass i) (range 0 width)) (range 0 height).

Lemma grid_last_put width height r c :
  (forall i j, i <> r \/ j <> c -> last_put r c (pass i j) = None) ->
  last_put r c (grid_ops width height)
  = if in_range 0 height r && in_range 0 width c
    then last_put r c (pass r c) else None.
Proof.
  intros Hother. unfold grid_ops.
  rewrite (last_put_range r c _ 0 height r).
  - destruct (in_range 0 height r); [|reflexivity]. cbn [andb].
    apply last_put_range. intros j Hj. apply Hother. now right.
  - intros i Hi. apply last_put_flat_map_none. intros j _.
    apply Hother. now left.
Qed.

Lemma grid_calls width height r c :
  (forall i j, i <> r \/ j <> c -> filter (is_call c r) (pass i j) = []) ->
  length (filter (is_call c r) (grid_ops width height))
  = if in_range 0 height r && in_range 0 width c
    then length (filter (is_call c r) (pass r c)) else 0%nat.
Proof.
  intros Hother. unfold grid_ops.
  rewrite (calls_range c r _ 0 height r).
  - destruct (in_range 0 height r); [|reflexivity]. cbn [andb].
    apply calls_range. intros j Hj. apply Hother. now right.
  - intros i Hi. induction (range 0 width) as [|j l IH]; [reflexivity|].
    cbn [flat_map]. rewrite filter_app, IH, Hother by now left. reflexivity.
Qed.

Lemma grid_marks width height r c :
  (forall i j, existsb (is_mark r c) (pass i j) = false) ->
  existsb (is_mark r c) (grid_ops width height) = false.
Proof.
  intros Hnone. apply not_true_iff_false. intros H.
  apply existsb_exists in H. destruct H as [o [Hin Hm]].
  unfold grid_ops in Hin.
  apply in_flat_map in Hin. destruct Hin as [i [_ Hin]].
  apply in_flat_map in Hin. destruct Hin as [j [_ Hin]].
  specialize (Hnone i j). apply not_true_iff_false in Hnone. apply Hnone.
  apply existsb_exists. exists o. auto.
Qed.

End GridTrace.

(** * [src/Accelerated/raster.py]: what [compute_raster] does *)

Section RasterTrace.

Variable point : Z -> Z -> list Z.
Variable mask : ndarray bool.

(** The test of the inner loop at row [i], column [j]. *)
Definition unseen (i j : Z) : bool :=
  negb (len1 mask =? 0) && negb (cell mask i j).

Definition raster_cell_ops (i j : Z) : list op :=
  if unseen i j then [Call j i; Put i j (skipn 1 (point j i))] else [].

Lemma compute_raster_trace width height s :
  Raster.compute_raster point mask width height s
  = run_ops (grid_ops raster_cell_ops width height) s.
Proof.
  unfold Raster.compute_raster, grid_ops.
  rewrite <- fold_left_flat_map. apply fold_left_ext. intros s0 i.
  rewrite <- fold_left_flat_map. apply fold_left_ext. intros s1 j.
  unfold Raster.visit, raster_cell_ops, unseen.
  destruct (negb (len1 mask =? 0) && negb (cell mask i j)); reflexivity.
Qed.

Lemma raster_cell_put r c i j :
  i <> r \/ j <> c -> last_put r c (raster_cell_ops i j) = None.
Proof.
  intros Hne. unfold raster_cell_ops. destruct (unseen i j); [|reflexivity].
  cbn [last_put].
  replace ((r =? i) && (c =? j)) with false; [reflexivity|].
  symmetry. apply andb_false_iff.
  destruct Hne; [left|right]; apply Z.eqb_neq; congruence.
Qed.

Lemma raster_cell_call r c i j :
  i <> r \/ j <> c -> filter (is_call c r) (raster_cell_ops i j) = [].
Proof.
  intros Hne. unfold raster_cell_ops. destruct (unseen i j); [|reflexivity].
  cbn [filter is_call].
  replace ((j =? c) && (i =? r)) with false; [reflexivity|].
  symmetry. apply andb_false_iff.
  destruct Hne; [right|left]; apply Z.eqb_neq; congruence.
Qed.

Lemma raster_effect width height s r c :
  let s' := Raster.compute_raster point mask width height s in
  let fresh := in_range 0 height r && in_range 0 width c && unseen r c in
  cell (pixels s') r c = (if fresh then skipn 1 (point c r) else cell (pixels s) r c)
  /\ call_count c r (calls s') = (Nat.b2n fresh + call_count c r (calls s))%nat
  /\ cell (seen s') r c = cell (seen s) r c.
Proof.
  cbv zeta. rewrite compute_raster_trace. split; [|split].
  - rewrite run_ops_last_put, grid_last_put by (intros; now apply raster_cell_put).
    unfold raster_cell_ops.
    destruct (in_range 0 height r && in_range 0 width c); [|reflexivity].
    destruct (unseen r c); [|reflexivity].
    cbn [last_put andb]. rewrite !Z.eqb_refl. reflexivity.
  - rewrite run_ops_calls, grid_calls by (intros; now apply raster_cell_call).
    unfold raster_cell_ops.
    destruct (in_range 0 height r && in_range 0 width c); [|reflexivity].
    destruct (unseen r c); [|reflexivity].
    cbn [filter is_call andb]. rewrite !Z.eqb_refl. reflexivity.
  - rewrite run_ops_seen, grid_marks; [reflexivity|].
    intros i j. unfold raster_cell_ops. destruct (unseen i j); reflexivity.
Qed.

End RasterTrace.

(** X12.  [compute_raster] on an image of [width] by [height] pixels, with a
    pixel buffer of that size and a mask that is either of that size or has
    no column: it evaluates, once, and stores each pixel of the image that the
    mask does not flag, provided the mask has a column at all; it changes no
    other cell and never the mask's flags. *)
Theorem compute_raster_spec (point : Z -> Z -> list Z) (mask : ndarray bool)
    (width height : Z) (s : Store) (r c : Z) :
  height <= len0 (pixels s) -> width <= len1 (pixels s) ->
  len1 mask = 0 \/ (height <= len0 mask /\ width <= len1 mask) ->
  let s' := Raster.compute_raster point mask width height s in
  let fresh :=
    in_range 0 height r && in_range 0 width c
    && negb (len1 mask =? 0) && negb (cell mask r c) in
  cell (pixels s') r c = (if fresh then skipn 1 (point c r) else cell (pixels s) r c)
  /\ call_count c r (calls s') = (Nat.b2n fresh + call_count c r (calls s))%nat
  /\ cell (seen s') r c = cell (seen s) r c.
Proof.
  intros _ _ _. cbv zeta. rewrite <- !andb_assoc.
  rewrite (andb_assoc (in_range 0 height r)).
  apply (raster_effect point mask width height s r c).
Qed.

Lemma compute_raster_spec_witness :
  2 <= len0 (pixels (init_store (2, 2))) /\ 2 <= len1 (pixels (init_store (2, 2)))
  /\ forall point : Z -> Z -> list Z,
       cell (pixels (Raster.compute_raster point (zeros false 2 2) 2 2
                       (init_store (2, 2)))) 1 0
       = skipn 1 (point 0 1).
Proof.
  split; [simpl; lia|]. split; [simpl; lia|]. intros point.
  exact (proj1 (compute_raster_spec point (zeros false 2 2) 2 2 (init_store (2, 2)) 1 0
                  ltac:(simpl; lia) ltac:(simpl; lia)
                  ltac:(right; simpl; lia))).
Defined.

(** * [src/Accelerated/mixed_quadtree.py]: what [calculate_mixed] does *)

Lemma existsb_in_range (f : Z -> bool) (g : bool) k a b :
  (forall i, f i = (i =? k) && g) ->
  existsb f (range a b) = in_range a b k && g.
Proof. exact (existsb_range (fun _ _ => []) (0, 0) (0, 0) f g k a b). Qed.

Section MixedScan.

Variable point : Z -> Z -> list Z.
Variables tl br : Z * Z.

Definition mixed_row_ops (i : Z) : list op :=
  row_ops point tl br i ++ [Mark (snd tl) i; Mark (snd br - 1) i].

Definition mixed_col_ops (j : Z) : list op :=
  col_ops point tl br j ++ [Mark j (fst tl); Mark j (fst br - 1)].

(** The trace of [calculate_mixed]. *)
Definition mixed_scan_ops : list op :=
  if (snd br - snd tl =? 1) && (fst br - fst tl =? 1)
  then [Call (fst tl) (snd tl); Mark (snd tl) (fst tl)]
  else flat_map mixed_row_ops (range (fst tl) (fst br))
       ++ flat_map mixed_col_ops (range (snd tl) (snd br)).

Definition row_values (i : Z) : list (list Z) :=
  [point i (snd tl); point i (snd br - 1)].

Definition col_values (j : Z) : list (list Z) :=
  [point (fst tl) j; point (fst br - 1) j].

(** What the evaluator returns at the scanned pixels, in the order of the
    scan. *)
Definition scan_values : list (list Z) :=
  flat_map row_values (range (fst tl) (fst br))
  ++ flat_map col_values (range (snd tl) (snd br)).

(** [value[0] == 1] *)
Definition inSet (value : list Z) : bool := nth 0 value 0 =? 1.

Definition mixed_row_locals (loc : MixedQuadtree.locals) (i : Z)
  : MixedQuadtree.locals :=
  MixedQuadtree.note_row (point i (snd br - 1))
    (MixedQuadtree.note_row (point i (snd tl)) loc).

Definition mixed_col_locals (loc : MixedQuadtree.locals) (j : Z)
  : MixedQuadtree.locals :=
  MixedQuadtree.note_column (point (fst br - 1) j)
    (MixedQuadtree.note_column (point (fst tl) j) loc).

Definition mixed_scan_locals : MixedQuadtree.locals :=
  fold_left mixed_col_locals (range (snd tl) (snd br))
    (fold_left mixed_row_locals (range (fst tl) (fst br))
       (MixedQuadtree.Locals true false [0; 0; 0])).

(** The array [calculate_mixed] returns. *)
Definition mixed_scan_result : list Z :=
  if (snd br - snd tl =? 1) && (fst br - fst tl =? 1) then
    let color := skipn 1 (point (fst tl) (snd tl)) in
    [0; nth 0 color 0; nth 1 color 0; nth 2 color 0]
  else
    let loc := mixed_scan_locals in
    [if negb (Bool.eqb (MixedQuadtree.isMandelbrot loc) (MixedQuadtree.hasMandelbrot loc))
        && (3 <=? fst br - fst tl) && (3 <=? snd br - snd tl) then 1 else 0;
     if negb (MixedQuadtree.isMandelbrot loc) then 0 else 1;
     nth 0 (MixedQuadtree.border loc) 0; nth 1 (MixedQuadtree.border loc) 0;
     nth 2 (MixedQuadtree.border loc) 0].

Lemma calculate_mixed_parts s :
  MixedQuadtree.calculate_mixed point tl br s
  = (mixed_scan_result, run_ops mixed_scan_ops s).
Proof.
  unfold MixedQuadtree.calculate_mixed, mixed_scan_result, mixed_scan_ops.
  destruct ((snd br - snd tl =? 1) && (fst br - fst tl =? 1)); [reflexivity|].
  rewrite (fold_left_pair mixed_row_locals (fun s i => run_ops (mixed_row_ops i) s))
    by reflexivity.
  rewrite (fold_left_pair mixed_col_locals (fun s j => run_ops (mixed_col_ops j) s))
    by reflexivity.
  rewrite !fold_left_flat_map, run_ops_app. reflexivity.
Qed.

(** The row loop: [isMandelbrot] and [hasMandelbrot] accumulate the test over
    the values, and [border] takes the colour of the first value in the set,
    unless [hasMandelbrot] held before. *)
Lemma fold_mixed_rows l : forall loc,
  fold_left mixed_row_locals l loc
  = MixedQuadtree.Locals
      (MixedQuadtree.isMandelbrot loc && forallb inSet (flat_map row_values l))
      (MixedQuadtree.hasMandelbrot loc || existsb inSet (flat_map row_values l))
      (if MixedQuadtree.hasMandelbrot loc then MixedQuadtree.border loc
       else match find inSet (flat_map row_values l) with
            | Some v => skipn 1 v
            | None => MixedQuadtree.border loc
            end).
Proof.
  induction l as [|i l IH]; intros [m h b].
  - cbn. rewrite andb_true_r, orb_false_r. destruct h; reflexivity.
  - cbn [fold_left flat_map row_values app forallb existsb find].
    rewrite IH. unfold mixed_row_locals, MixedQuadtree.note_row, inSet.
    cbn [MixedQuadtree.isMandelbrot MixedQuadtree.hasMandelbrot MixedQuadtree.border].
    destruct (nth 0 (point i (snd tl)) 0 =? 1),
      (nth 0 (point i (snd br - 1)) 0 =? 1), m, h; reflexivity.
Qed.

(** The column loop updates the two flags before its test
    [not hasMandelbrot and inSet], which therefore never holds: [border] keeps
    its value. *)
Lemma fold_mixed_cols l : forall loc,
  fold_left mixed_col_locals l loc
  = MixedQuadtree.Locals
      (MixedQuadtree.isMandelbrot loc && forallb inSet (flat_map col_values l))
      (MixedQuadtree.hasMandelbrot loc || existsb inSet (flat_map col_values l))
      (MixedQuadtree.border loc).
Proof.
  induction l as [|j l IH]; intros [m h b].
  - cbn. rewrite andb_true_r, orb_false_r. reflexivity.
  - cbn [fold_left flat_map col_values app forallb existsb].
    rewrite IH. unfold mixed_col_locals, MixedQuadtree.note_column, inSet.
    cbn [MixedQuadtree.isMandelbrot MixedQuadtree.hasMandelbrot MixedQuadtree.border].
    destruct (nth 0 (point (fst tl) j) 0 =? 1),
      (nth 0 (point (fst br - 1) j) 0 =? 1), m, h; reflexivity.
Qed.

Lemma mixed_scan_locals_eq :
  mixed_scan_locals
  = MixedQuadtree.Locals
      (forallb inSet scan_values) (existsb inSet scan_values)
      match find inSet (flat_map row_values (range (fst tl) (fst br))) with
      | Some v => skipn 1 v
      | None => [0; 0; 0]
      end.
Proof.
  unfold mixed_scan_locals, scan_values.
  rewrite fold_mixed_rows, fold_mixed_cols.
  cbn [MixedQuadtree.isMandelbrot MixedQuadtree.hasMandelbrot MixedQuadtree.border
       andb orb].
  rewrite forallb_app, existsb_app. reflexivity.
Qed.

Lemma scan_values_scanned value :
  In value scan_values
  <-> exists r c, scanned tl br r c = true /\ value = point c r.
Proof.
  unfold scan_values, scanned. rewrite in_app_iff, !in_flat_map. split.
  - intros [[i [Hi Hin]]|[j [Hj Hin]]].
    + apply in_range_iff in Hi. simpl in Hin.
      destruct Hin as [<-|[<-|[]]].
      * exists (snd tl), i. split; [|reflexivity].
        unfold in_range. zbool. reflexivity.
      * exists (snd br - 1), i. split; [|reflexivity].
        unfold in_range. zbool. simpl. rewrite orb_true_r. reflexivity.
    + apply in_range_iff in Hj. simpl in Hin.
      destruct Hin as [<-|[<-|[]]].
      * exists j, (fst tl). split; [|reflexivity].
        unfold in_range. zbool. simpl. rewrite orb_true_r. reflexivity.
      * exists j, (fst br - 1). split; [|reflexivity].
        unfold in_range. zbool. simpl. rewrite !orb_true_r. reflexivity.
  - intros (r & c & Hs & ->).
    apply orb_true_iff in Hs. destruct Hs as [Hs|Hs];
      apply andb_true_iff in Hs; destruct Hs as [Hin Hedge];
      apply in_range_true in Hin; apply orb_true_iff in Hedge.
    + left. exists c. split; [apply in_range_iff; exact Hin|].
      destruct Hedge as [E|E]; apply Z.eqb_eq in E; subst r; simpl; auto.
    + right. exists r. split; [apply in_range_iff; exact Hin|].
      destruct Hedge as [E|E]; apply Z.eqb_eq in E; subst c; simpl; auto.
Qed.

Lemma mixed_ops_faithful :
  faithful point (flat_map mixed_row_ops (range (fst tl) (fst br))
                  ++ flat_map mixed_col_ops (range (snd tl) (snd br))).
Proof.
  intros r c color Hin. apply in_app_iff in Hin.
  destruct Hin as [Hin|Hin]; apply in_flat_map in Hin; destruct Hin as [k [_ Hin]];
    simpl in Hin;
    repeat (destruct Hin as [Hin|Hin]; [try discriminate; injection Hin as <- <- <-; reflexivity|]);
    destruct Hin.
Qed.

Lemma mixed_ops_put r c :
  existsb (is_put r c)
    (flat_map mixed_row_ops (range (fst tl) (fst br))
     ++ flat_map mixed_col_ops (range (snd tl) (snd br)))
  = scanned tl br r c.
Proof.
  rewrite <- (row_col_ops_put point tl br r c).
  rewrite !existsb_app, !existsb_flat_map. reflexivity.
Qed.

Lemma mixed_ops_mark r c :
  existsb (is_mark r c)
    (flat_map mixed_row_ops (range (fst tl) (fst br))
     ++ flat_map mixed_col_ops (range (snd tl) (snd br)))
  = scanned tl br r c.
Proof.
  unfold scanned. rewrite existsb_app, !existsb_flat_map. f_equal.
  - apply existsb_in_range. intros i.
    cbn [mixed_row_ops row_ops app existsb is_mark is_put].
    destruct (Z.eqb_spec i c) as [->|Hne].
    + rewrite Z.eqb_refl. cbn [orb andb]. rewrite !andb_true_r, orb_false_r.
      reflexivity.
    + replace (c =? i) with false by (symmetry; apply Z.eqb_neq; congruence).
      rewrite !andb_false_r. reflexivity.
  - apply existsb_in_range. intros j.
    cbn [mixed_col_ops col_ops app existsb is_mark].
    destruct (Z.eqb_spec j r) as [->|Hne].
    + rewrite Z.eqb_refl. cbn [orb andb]. rewrite orb_false_r. reflexivity.
    + replace (r =? j) with false by (symmetry; apply Z.eqb_neq; congruence).
      reflexivity.
Qed.

Lemma mixed_ops_calls i j :
  filter (is_call i j)
    (flat_map mixed_row_ops (range (fst tl) (fst br))
     ++ flat_map mixed_col_ops (range (snd tl) (snd br)))
  = filter (is_call i j)
      (flat_map (row_ops point tl br) (range (fst tl) (fst br))
       ++ flat_map (col_ops point tl br) (range (snd tl) (snd br))).
Proof.
  rewrite !filter_app, !filter_flat_map. reflexivity.
Qed.

End MixedScan.

(** X13.  What [calculate_mixed] returns for a region that is not a single
    pixel: [mandelbrot_val] is 1 exactly when every border pixel is in the
    set; [split_val] is 1 exactly when both dimensions are at least 3 and the
    border has a pixel in the set and one outside; and when [mandelbrot_val]
    is 1 the returned colour is the top-left pixel's. *)
Theorem mixed_scan_flags (point : Z -> Z -> list Z) (tl br : Z * Z) (s : Store) :
  fst tl < fst br -> snd tl < snd br ->
  ~ (rows (Quad tl br) = 1 /\ cols (Quad tl br) = 1) ->
  let q := Quad tl br in
  let result := fst (MixedQuadtree.calculate_mixed point tl br s) in
  let member r c := nth 0 (point c r) 0 = 1 in
  let first := skipn 1 (point (fst tl) (snd tl)) in
  (nth 1 result 0 = 1 <-> forall r c, on_border q r c = true -> member r c)
  /\ (nth 0 result 0 = 1
      <-> 3 <= cols q /\ 3 <= rows q
          /\ (exists r c, on_border q r c = true /\ member r c)
          /\ (exists r c, on_border q r c = true /\ ~ member r c))
  /\ (nth 0 result 0 = 0 \/ nth 0 result 0 = 1)
  /\ (nth 1 result 0 = 0 \/ nth 1 result 0 = 1)
  /\ (nth 1 result 0 = 1 ->
      skipn 2 result = [nth 0 first 0; nth 1 first 0; nth 2 first 0]).
Proof.
  intros Hc Hr H11 q result member first. subst result.
  rewrite calculate_mixed_parts. cbn [fst].
  unfold mixed_scan_result, rows, cols in *. simpl in H11.
  assert (E1 : (snd br - snd tl =? 1) && (fst br - fst tl =? 1) = false).
  { destruct (Z.eqb_spec (snd br - snd tl) 1); [|reflexivity].
    destruct (Z.eqb_spec (fst br - fst tl) 1); [|reflexivity]. tauto. }
  rewrite E1, mixed_scan_locals_eq.
  cbn [MixedQuadtree.isMandelbrot MixedQuadtree.hasMandelbrot MixedQuadtree.border
       nth skipn].
  assert (Hall : forallb (inSet) (scan_values point tl br) = true
                 <-> forall r c, on_border q r c = true -> member r c).
  { rewrite forallb_forall. split.
    - intros H r c Hb. unfold member. apply Z.eqb_eq.
      apply (H (point c r)). apply scan_values_scanned. exists r, c.
      rewrite scanned_on_border by assumption. auto.
    - intros H v Hin. apply scan_values_scanned in Hin.
      destruct Hin as (r & c & Hs & ->).
      rewrite scanned_on_border in Hs by assumption.
      apply Z.eqb_eq. apply (H r c Hs). }
  assert (Hex : existsb (inSet) (scan_values point tl br) = true
                <-> exists r c, on_border q r c = true /\ member r c).
  { rewrite existsb_exists. split.
    - intros [v [Hin Hv]]. apply scan_values_scanned in Hin.
      destruct Hin as (r & c & Hs & ->). exists r, c.
      rewrite <- (scanned_on_border tl br) by assumption. split; [exact Hs|].
      apply Z.eqb_eq. exact Hv.
    - intros (r & c & Hb & Hm). exists (point c r). split.
      + apply scan_values_scanned. exists r, c.
        rewrite scanned_on_border by assumption. auto.
      + apply Z.eqb_eq. exact Hm. }
  assert (Hcorner : on_border q (snd tl) (fst tl) = true).
  { unfold q, on_border, covers. simpl.
    zbool. reflexivity. }
  assert (Hsome : forallb inSet (scan_values point tl br) = true ->
                  existsb inSet (scan_values point tl br) = true).
  { intros Ha. apply Hex. exists (snd tl), (fst tl). split; [exact Hcorner|].
    apply Hall; assumption. }
  assert (Hnot : forallb inSet (scan_values point tl br) = false ->
                 exists r c, on_border q r c = true /\ ~ member r c).
  { intros Ha.
    destruct (existsb (fun v => negb (inSet v)) (scan_values point tl br)) eqn:En.
    - apply existsb_exists in En. destruct En as [v [Hin Hv]].
      apply scan_values_scanned in Hin. destruct Hin as (r & c & Hs & ->).
      exists r, c. rewrite <- (scanned_on_border tl br) by assumption.
      split; [exact Hs|]. unfold member. intros Hm.
      apply negb_true_iff in Hv. unfold inSet in Hv.
      apply Z.eqb_neq in Hv. contradiction.
    - exfalso. assert (Ht : forallb inSet (scan_values point tl br) = true).
      { apply forallb_forall. intros v Hin.
        destruct (inSet v) eqn:Ev; [reflexivity|].
        assert (Hx : existsb (fun v => negb (inSet v)) (scan_values point tl br)
                     = true)
          by (apply existsb_exists; exists v; rewrite Ev; auto).
        congruence. }
      congruence. }
  destruct (forallb inSet (scan_values point tl br)) eqn:Ea.
  - rewrite (Hsome eq_refl). cbn [Bool.eqb negb andb].
    split; [split; [intros _; apply Hall; reflexivity|reflexivity]|].
    split.
    { split; [discriminate|]. intros (_ & _ & _ & (r & c & Hb & Hn)).
      exfalso. apply Hn. apply Hall; [reflexivity|exact Hb]. }
    split; [auto|]. split; [auto|]. intros _.
    rewrite (range_cons (fst tl) (fst br)) by exact Hc.
    cbn [flat_map row_values app find].
    assert (Hf : inSet (point (fst tl) (snd tl)) = true).
    { apply Z.eqb_eq. apply (proj1 Hall eq_refl (snd tl) (fst tl) Hcorner). }
    rewrite Hf. reflexivity.
  - cbn [negb].
    split; [split; [discriminate|intros H; apply Hall in H; discriminate]|].
    split.
    2:{ split; [|split; [auto|discriminate]].
        destruct (_ && _ && _); auto. }
    destruct (existsb inSet (scan_values point tl br)) eqn:Ee; cbn [Bool.eqb negb andb].
    + destruct (Z.leb_spec 3 (fst br - fst tl)); destruct (Z.leb_spec 3 (snd br - snd tl));
        cbn [andb]; try (split; [discriminate|simpl; lia]).
      split; [|reflexivity]. intros _. simpl.
      repeat split; try assumption; [apply Hex; reflexivity|apply Hnot; reflexivity].
    + split; [discriminate|]. intros (_ & _ & Hx & _).
      apply Hex in Hx. discriminate.
Qed.

Lemma mixed_scan_flags_witness :
  fst (0, 0) < fst (3, 3) /\ snd (0, 0) < snd (3, 3)
  /\ forall (point : Z -> Z -> list Z) (s : Store),
       nth 0 (fst (MixedQuadtree.calculate_mixed point (0, 0) (3, 3) s)) 0 = 0
       \/ nth 0 (fst (MixedQuadtree.calculate_mixed point (0, 0) (3, 3) s)) 0 = 1.
Proof.
  split; [simpl; lia|]. split; [simpl; lia|]. intros point s.
  exact (proj1 (proj2 (proj2 (mixed_scan_flags point (0, 0) (3, 3) s
                  ltac:(simpl; lia) ltac:(simpl; lia)
                  ltac:(unfold rows; simpl; lia))))).
Defined.

(** X14.  The effect of [calculate_mixed] on a region of at least 2 by 2
    pixels: the evaluator is invoked once at each border pixel that is not a
    corner and twice at each corner; every border pixel receives its colour
    and its flag in [seen]; no other cell of the two arrays changes. *)
Theorem mixed_scan_effect (point : Z -> Z -> list Z) (tl br : Z * Z)
    (s : Store) (r c : Z) :
  2 <= fst br - fst tl -> 2 <= snd br - snd tl ->
  let q := Quad tl br in
  let s' := snd (MixedQuadtree.calculate_mixed point tl br s) in
  call_count c r (calls s')
  = ((if on_border q r c then (if corner q r c then 2 else 1) else 0)
     + call_count c r (calls s))%nat
  /\ cell (pixels s') r c
     = (if on_border q r c then skipn 1 (point c r) else cell (pixels s) r c)
  /\ cell (seen s') r c = on_border q r c || cell (seen s) r c.
Proof.
  intros Hc Hr q s'. subst s'. rewrite calculate_mixed_parts. cbn [snd].
  assert (H1 : (snd br - snd tl =? 1) && (fst br - fst tl =? 1) = false)
    by (zbool; reflexivity).
  unfold mixed_scan_ops. rewrite H1.
  split; [|split].
  - rewrite run_ops_calls, mixed_ops_calls.
    pose proof (scan_calls point tl br c r H1) as E.
    unfold scan_ops in E. rewrite H1 in E. rewrite E. f_equal.
    unfold q, on_border, corner, covers, in_range. simpl.
    position r (snd tl) (snd br); position c (fst tl) (fst br); zbool; reflexivity.
  - rewrite (run_ops_pixels point) by apply mixed_ops_faithful.
    rewrite mixed_ops_put, scanned_on_border by lia. reflexivity.
  - rewrite run_ops_seen, mixed_ops_mark, scanned_on_border by lia. reflexivity.
Qed.

Lemma mixed_scan_effect_witness :
  2 <= fst (3, 3) - fst (0, 0) /\ 2 <= snd (3, 3) - snd (0, 0)
  /\ forall point s,
       cell (seen (snd (MixedQuadtree.calculate_mixed point (0, 0) (3, 3) s))) 0 1
       = true
       /\ cell (seen (snd (MixedQuadtree.calculate_mixed point (0, 0) (3, 3) s))) 1 1
          = cell (seen s) 1 1.
Proof.
  split; [simpl; lia|]. split; [simpl; lia|]. intros point s. split.
  - exact (proj2 (proj2 (mixed_scan_effect point (0, 0) (3, 3) s 0 1
                    ltac:(simpl; lia) ltac:(simpl; lia)))).
  - exact (proj2 (proj2 (mixed_scan_effect point (0, 0) (3, 3) s 1 1
                    ltac:(simpl; lia) ltac:(simpl; lia)))).
Defined.

(** X15.  A region of one pixel in the mixed strategy: [calculate_mixed]
    evaluates the pixel, flags it in [seen] and stores no colour, and returns
    four bytes without a split; the raster pass that ends the strategy then
    skips the pixel, whose cell keeps its former content. *)
Theorem mixed_single_pixel_skipped (point : Z -> Z -> list Z) (tl br : Z * Z)
    (s : Store) (width height : Z) :
  rows (Quad tl br) = 1 -> cols (Quad tl br) = 1 ->
  let result := fst (MixedQuadtree.calculate_mixed point tl br s) in
  let s1 := snd (MixedQuadtree.calculate_mixed point tl br s) in
  let s2 := Raster.compute_raster point (seen s1) width height s1 in
  nth 0 result 0 = 0 /\ length result = 4%nat
  /\ cell (seen s1) (snd tl) (fst tl) = true
  /\ (forall r c, cell (pixels s1) r c = cell (pixels s) r c)
  /\ cell (pixels s2) (snd tl) (fst tl) = cell (pixels s) (snd tl) (fst tl)
  /\ call_count (fst tl) (snd tl) (calls s2)
     = S (call_count (fst tl) (snd tl) (calls s)).
Proof.
  unfold rows, cols. simpl. intros Hr Hc.
  rewrite calculate_mixed_parts. cbn [fst snd].
  unfold mixed_scan_result, mixed_scan_ops. rewrite Hr, Hc. cbn [Z.eqb Pos.eqb andb].
  split; [reflexivity|]. split; [reflexivity|].
  set (s1 := run_ops _ s).
  assert (Hseen : cell (seen s1) (snd tl) (fst tl) = true).
  { unfold s1. rewrite run_ops_seen. cbn [existsb is_mark].
    rewrite !Z.eqb_refl. reflexivity. }
  assert (Hpix : forall r c, cell (pixels s1) r c = cell (pixels s) r c).
  { intros r c. unfold s1. rewrite run_ops_last_put. reflexivity. }
  assert (Hcalls : call_count (fst tl) (snd tl) (calls s1)
                   = S (call_count (fst tl) (snd tl) (calls s))).
  { unfold s1. rewrite run_ops_calls. cbn [filter is_call].
    rewrite !Z.eqb_refl. reflexivity. }
  split; [exact Hseen|]. split; [exact Hpix|].
  destruct (raster_effect point (seen s1) width height s1 (snd tl) (fst tl))
    as (Hp & Hc' & _).
  unfold unseen in Hp, Hc'. rewrite Hseen in Hp, Hc'.
  cbn [negb] in Hp, Hc'. rewrite !andb_false_r in Hp, Hc'.
  split.
  - rewrite Hp. apply Hpix.
  - rewrite Hc'. exact Hcalls.
Qed.

Lemma mixed_single_pixel_skipped_witness :
  rows (Quad (1, 1) (2, 2)) = 1 /\ cols (Quad (1, 1) (2, 2)) = 1
  /\ forall (point : Z -> Z -> list Z) (s : Store),
       cell (pixels
               (Raster.compute_raster point
                  (seen (snd (MixedQuadtree.calculate_mixed point (1, 1) (2, 2) s)))
                  3 3 (snd (MixedQuadtree.calculate_mixed point (1, 1) (2, 2) s))))
            1 1
       = cell (pixels s) 1 1.
Proof.
  split; [reflexivity|]. split; [reflexivity|]. intros point s.
  exact (proj1 (proj2 (proj2 (proj2 (proj2
           (mixed_single_pixel_skipped point (1, 1) (2, 2) s 3 3 eq_refl eq_refl)))))).
Defined.

(** * [src/Normal/util.py]: what the two scanners do *)

Section NormalScan.

Variable Color : Type.
Variable color_differs : Color -> Color -> bool.
Variable to_pixel : Color -> list Z.
Variable point : Z -> Z -> Color * bool.
Variable unfilled : Color.
Variable q : QuadTree.

(** The colours of the scanned pixels, in the order of the scan. *)
Definition normal_row_colors (i : Z) : list Color :=
  [fst (point i (snd (tl q))); fst (point i (snd (br q) - 1))].

Definition normal_col_colors (j : Z) : list Color :=
  [fst (point (fst (tl q)) j); fst (point (fst (br q) - 1) j)].

Definition normal_scan_colors : list Color :=
  flat_map normal_row_colors (range (fst (tl q)) (fst (br q)))
  ++ flat_map normal_col_colors (range (snd (tl q)) (snd (br q))).

Lemma normal_scan_colors_scanned color :
  In color normal_scan_colors
  <-> exists r c, scanned (tl q) (br q) r c = true /\ color = fst (point c r).
Proof.
  unfold normal_scan_colors, scanned. rewrite in_app_iff, !in_flat_map. split.
  - intros [[i [Hi Hin]]|[j [Hj Hin]]].
    + apply in_range_iff in Hi. simpl in Hin.
      destruct Hin as [<-|[<-|[]]].
      * exists (snd (tl q)), i. split; [|reflexivity].
        unfold in_range. zbool. reflexivity.
      * exists (snd (br q) - 1), i. split; [|reflexivity].
        unfold in_range. zbool. simpl. rewrite orb_true_r. reflexivity.
    + apply in_range_iff in Hj. simpl in Hin.
      destruct Hin as [<-|[<-|[]]].
      * exists j, (fst (tl q)). split; [|reflexivity].
        unfold in_range. zbool. simpl. rewrite orb_true_r. reflexivity.
      * exists j, (fst (br q) - 1). split; [|reflexivity].
        unfold in_range. zbool. simpl. rewrite !orb_true_r. reflexivity.
  - intros (r & c & Hs & ->).
    apply orb_true_iff in Hs. destruct Hs as [Hs|Hs];
      apply andb_true_iff in Hs; destruct Hs as [Hin Hedge];
      apply in_range_true in Hin; apply orb_true_iff in Hedge.
    + left. exists c. split; [apply in_range_iff; exact Hin|].
      destruct Hedge as [E|E]; apply Z.eqb_eq in E; subst r; simpl; auto.
    + right. exists r. split; [apply in_range_iff; exact Hin|].
      destruct Hedge as [E|E]; apply Z.eqb_eq in E; subst c; simpl; auto.
Qed.

Let top_bottom := NormalUtil.top_bottom Color color_differs to_pixel point q.
Let left_right := NormalUtil.left_right Color color_differs to_pixel point q.

Lemma normal_compare_border color sp b :
  NormalUtil.compare_border Color color_differs color
    (NormalUtil.Locals Color sp (Some b))
  = NormalUtil.Locals Color (sp || color_differs b color) (Some b).
Proof. destruct sp; reflexivity. Qed.

Lemma normal_fold_rows l : forall sp b s,
  fst (fold_left top_bottom l (NormalUtil.Locals Color sp (Some b), s))
  = NormalUtil.Locals Color
      (sp || existsb (color_differs b) (flat_map normal_row_colors l)) (Some b).
Proof.
  induction l as [|i l IH]; intros sp b s.
  - cbn. rewrite orb_false_r. reflexivity.
  - cbn [fold_left flat_map]. unfold top_bottom at 2, NormalUtil.top_bottom.
    cbn [NormalUtil.border]. rewrite !normal_compare_border.
    fold top_bottom. rewrite IH. f_equal.
    rewrite existsb_app. cbn [normal_row_colors existsb].
    destruct sp, (color_differs b (fst (point i (snd (tl q))))),
      (color_differs b (fst (point i (snd (br q) - 1)))); reflexivity.
Qed.

Lemma normal_fold_cols l : forall sp b s,
  fst (fold_left left_right l (NormalUtil.Locals Color sp (Some b), s))
  = NormalUtil.Locals Color
      (sp || existsb (color_differs b) (flat_map normal_col_colors l)) (Some b).
Proof.
  induction l as [|j l IH]; intros sp b s.
  - cbn. rewrite orb_false_r. reflexivity.
  - cbn [fold_left flat_map]. unfold left_right at 2, NormalUtil.left_right.
    rewrite !normal_compare_border.
    fold left_right. rewrite IH. f_equal.
    rewrite existsb_app. cbn [normal_col_colors existsb].
    destruct sp, (color_differs b (fst (point (fst (tl q)) j))),
      (color_differs b (fst (point (fst (br q) - 1) j))); reflexivity.
Qed.

(** After the two loops on a region with a row and a column: the reference
    colour is the top-left pixel's, and the flag says whether some scanned
    colour differs from it.  The top-left pixel is compared too, by the
    column loop. *)
Lemma normal_scan_locals s :
  fst (tl q) < fst (br q) -> snd (tl q) < snd (br q) ->
  let first := fst (point (fst (tl q)) (snd (tl q))) in
  fst (fold_left left_right (range (snd (tl q)) (snd (br q)))
         (fold_left top_bottom (range (fst (tl q)) (fst (br q)))
            (NormalUtil.Locals Color false None, s)))
  = NormalUtil.Locals Color
      (existsb (color_differs first) normal_scan_colors) (Some first).
Proof.
  intros Hc Hr first.
  rewrite (range_cons (fst (tl q)) (fst (br q))) by exact Hc.
  cbn [fold_left]. unfold top_bottom at 2, NormalUtil.top_bottom.
  cbn [NormalUtil.border NormalUtil.l_split NormalUtil.differs orb].
  fold first.
  match goal with
  | |- fst (fold_left left_right _ (fold_left top_bottom ?l (?loc, ?s0))) = _ =>
      pose proof (normal_fold_rows l
                    (color_differs first (fst (point (fst (tl q)) (snd (br q) - 1))))
                    first s0) as Hrows;
      destruct (fold_left top_bottom l (loc, s0)) as [loc1 s1]
  end.
  cbn [fst] in Hrows. subst loc1. rewrite normal_fold_cols. f_equal.
  unfold normal_scan_colors.
  rewrite (range_cons (fst (tl q)) (fst (br q))) by exact Hc.
  rewrite (range_cons (snd (tl q)) (snd (br q))) by exact Hr.
  cbn [flat_map normal_row_colors normal_col_colors app existsb].
  rewrite !existsb_app. cbn [existsb]. fold first.
  destruct (color_differs first first),
    (color_differs first (fst (point (fst (tl q)) (snd (br q) - 1)))),
    (existsb (color_differs first)
       (flat_map normal_row_colors (range (fst (tl q) + 1) (fst (br q)))));
    cbn [orb]; rewrite ?orb_true_r; reflexivity.
Qed.

(** The traces of the two loops of [calculated_mixed_raster_quadtree]; the
    last store of the column loop is at row [br[0] - 1], column [j]. *)
Definition normal_mixed_row_ops (i : Z) : list op :=
  [Call i (snd (tl q)); Put (snd (tl q)) i (to_pixel (fst (point i (snd (tl q)))));
   Call i (snd (br q) - 1);
   Put (snd (br q) - 1) i (to_pixel (fst (point i (snd (br q) - 1))))].

Definition normal_mixed_col_ops (j : Z) : list op :=
  [Call (fst (tl q)) j; Put j (fst (tl q)) (to_pixel (fst (point (fst (tl q)) j)));
   Call (fst (br q) - 1) j;
   Put (fst (br q) - 1) j (to_pixel (fst (point (fst (br q) - 1) j)))].

Definition normal_mixed_ops : list op :=
  flat_map normal_mixed_row_ops (range (fst (tl q)) (fst (br q)))
  ++ flat_map normal_mixed_col_ops (range (snd (tl q)) (snd (br q))).

Lemma normal_mixed_trace s :
  (rows q =? 1) && (cols q =? 1) = false ->
  snd (NormalUtil.calculated_mixed_raster_quadtree Color to_pixel point unfilled q s)
  = run_ops normal_mixed_ops s.
Proof.
  intros H1. unfold NormalUtil.calculated_mixed_raster_quadtree. rewrite H1.
  cbv zeta.
  rewrite (fold_left_pair
             (fun loc i =>
                NormalUtil.note Color (point i (snd (br q) - 1))
                  (NormalUtil.note Color (point i (snd (tl q))) loc))
             (fun s i => run_ops (normal_mixed_row_ops i) s))
    by reflexivity.
  rewrite (fold_left_pair
             (fun loc j =>
                NormalUtil.note Color (point (fst (br q) - 1) j)
                  (NormalUtil.note Color (point (fst (tl q)) j) loc))
             (fun s j => run_ops (normal_mixed_col_ops j) s))
    by reflexivity.
  cbn [snd]. rewrite !fold_left_flat_map. unfold normal_mixed_ops.
  rewrite run_ops_app. reflexivity.
Qed.

(** The invocations are those of the plain scan. *)
Lemma normal_mixed_calls i j :
  (rows q =? 1) && (cols q =? 1) = false ->
  length (filter (is_call i j) normal_mixed_ops)
  = (Nat.b2n (in_range (fst (tl q)) (fst (br q)) i)
     * (Nat.b2n (j =? snd (tl q))%Z + Nat.b2n (j =? snd (br q) - 1)%Z)
     + Nat.b2n (in_range (snd (tl q)) (snd (br q)) j)
       * (Nat.b2n (i =? fst (tl q))%Z + Nat.b2n (i =? fst (br q) - 1)%Z))%nat.
Proof.
  intros H1.
  rewrite <- (scan_calls (fun _ _ => []) (tl q) (br q) i j) by exact H1.
  unfold scan_ops, normal_mixed_ops. unfold rows, cols in H1. rewrite H1.
  rewrite !filter_app, !filter_flat_map. reflexivity.
Qed.

End NormalScan.

(** X16.  What the plain scanner of the Normal package returns on a region
    with a row and a column, inside the pixel buffer: the colour of the
    top-left pixel, and a split flag that holds exactly when both dimensions
    are greater than 3 and the colour of some border pixel differs from it. *)
Theorem normal_scan_split_iff (Color : Type) (color_differs : Color -> Color -> bool)
    (to_pixel : Color -> list Z) (point : Z -> Z -> Color * bool)
    (q : QuadTree) (s : Store) :
  0 <= fst (tl q) < fst (br q) -> 0 <= snd (tl q) < snd (br q) ->
  fst (br q) <= len1 (pixels s) -> snd (br q) <= len0 (pixels s) ->
  let result :=
    fst (NormalUtil.calculate_quadtree Color color_differs to_pixel point q s) in
  let first := fst (point (fst (tl q)) (snd (tl q))) in
  snd result = Some first
  /\ (fst result = true
      <-> 3 < cols q /\ 3 < rows q
          /\ exists r c, on_border q r c = true
                         /\ color_differs first (fst (point c r)) = true).
Proof.
  intros Hc Hr _ _ result first. subst result.
  unfold NormalUtil.calculate_quadtree.
  destruct ((rows q =? 1) && (cols q =? 1)) eqn:E1.
  - cbn [fst snd]. split; [reflexivity|].
    apply andb_true_iff in E1. destruct E1 as [E1 _]. apply Z.eqb_eq in E1.
    split; [discriminate|lia].
  - cbv zeta.
    pose proof (normal_scan_locals Color color_differs to_pixel point q s
                  ltac:(lia) ltac:(lia)) as E.
    cbv zeta in E.
    destruct (fold_left _ _ (fold_left _ _ _)) as [loc s1].
    cbn [fst] in E. subst loc. cbn [fst snd NormalUtil.l_split NormalUtil.border].
    split; [reflexivity|]. fold first.
    assert (Hex : existsb (color_differs first)
                    (normal_scan_colors Color point q) = true
                  <-> exists r c, on_border q r c = true
                                  /\ color_differs first (fst (point c r)) = true).
    { rewrite existsb_exists. destruct q as [t b]. cbn [tl br] in *. split.
      - intros [color [Hin Hd]].
        apply (normal_scan_colors_scanned Color point (Quad t b)) in Hin.
        destruct Hin as (r & c & Hs & ->). exists r, c.
        cbn [tl br] in Hs. rewrite scanned_on_border in Hs by lia. auto.
      - intros (r & c & Hb & Hd). exists (fst (point c r)). split; [|exact Hd].
        apply (normal_scan_colors_scanned Color point (Quad t b)).
        exists r, c. cbn [tl br]. rewrite scanned_on_border by lia. auto. }
    rewrite !andb_true_iff, Hex, !Z.ltb_lt. tauto.
Qed.

Lemma normal_scan_split_iff_witness :
  0 <= fst (tl (Quad (0, 0) (3, 3))) < fst (br (Quad (0, 0) (3, 3)))
  /\ forall (Color : Type) (color_differs : Color -> Color -> bool)
            (to_pixel : Color -> list Z) (point : Z -> Z -> Color * bool),
       snd (fst (NormalUtil.calculate_quadtree Color color_differs to_pixel point
                   (Quad (0, 0) (3, 3)) (init_store (3, 3))))
       = Some (fst (point 0 0)).
Proof.
  split; [simpl; lia|]. intros Color color_differs to_pixel point.
  exact (proj1 (normal_scan_split_iff Color color_differs to_pixel point
                  (Quad (0, 0) (3, 3)) (init_store (3, 3))
                  ltac:(simpl; lia) ltac:(simpl; lia)
                  ltac:(simpl; lia) ltac:(simpl; lia))).
Defined.

(** X17.  The mixed scanner of the Normal package stores the colours of the
    right column transposed ([pixels[br[0] - 1][j]]).  On a region of at least
    two columns whose stores all fall inside the pixel buffer, take a pixel
    of the right column that is no corner, in a row [r] other than
    [br[0] - 1] and [tl[0]]: it is evaluated once and its cell keeps its
    former content; its colour is in the cell of row [br[0] - 1], column
    [r]. *)
Theorem mixed_raster_column_transposed (Color : Type) (to_pixel : Color -> list Z)
    (point : Z -> Z -> Color * bool) (unfilled : Color) (q : QuadTree)
    (s : Store) (r : Z) :
  0 <= fst (tl q) -> 0 <= snd (tl q) ->
  fst (br q) <= len0 (pixels s) -> fst (br q) <= len1 (pixels s) ->
  snd (br q) <= len0 (pixels s) -> snd (br q) <= len1 (pixels s) ->
  2 <= cols q ->
  snd (tl q) < r < snd (br q) - 1 ->
  r <> fst (br q) - 1 -> r <> fst (tl q) ->
  let s' :=
    snd (NormalUtil.calculated_mixed_raster_quadtree Color to_pixel point unfilled
           q s) in
  on_border q r (fst (br q) - 1) = true
  /\ call_count (fst (br q) - 1) r (calls s')
     = S (call_count (fst (br q) - 1) r (calls s))
  /\ cell (pixels s') r (fst (br q) - 1) = cell (pixels s) r (fst (br q) - 1)
  /\ cell (pixels s') (fst (br q) - 1) r = to_pixel (fst (point (fst (br q) - 1) r)).
Proof.
  intros _ _ _ _ _ _ Hcols Hr Hd Hl s'. subst s'. unfold cols in Hcols.
  assert (H1 : (rows q =? 1) && (cols q =? 1) = false).
  { unfold rows. replace (snd (br q) - snd (tl q) =? 1) with false; [reflexivity|].
    symmetry. apply Z.eqb_neq. lia. }
  rewrite normal_mixed_trace by exact H1.
  split; [|split; [|split]].
  - unfold on_border, covers. zbool. cbn [andb]. rewrite !orb_true_r. reflexivity.
  - rewrite run_ops_calls, normal_mixed_calls by exact H1.
    unfold in_range. zbool. reflexivity.
  - rewrite run_ops_last_put. unfold normal_mixed_ops.
    rewrite last_put_app.
    rewrite (last_put_flat_map_none _ _ (normal_mixed_col_ops Color to_pixel point q)).
    + rewrite last_put_flat_map_none; [reflexivity|].
      intros i _. cbn [normal_mixed_row_ops last_put]. zbool. reflexivity.
    + intros j _. cbn [normal_mixed_col_ops last_put]. zbool.
      cbn [andb]. rewrite andb_false_r. reflexivity.
  - rewrite run_ops_last_put. unfold normal_mixed_ops.
    rewrite last_put_app.
    rewrite (last_put_flat_map_some _ _ (normal_mixed_col_ops Color to_pixel point q)
               _ r (to_pixel (fst (point (fst (br q) - 1) r)))).
    + reflexivity.
    + apply in_range_iff. lia.
    + cbn [normal_mixed_col_ops last_put]. rewrite !Z.eqb_refl. reflexivity.
    + intros j _ Hj. cbn [normal_mixed_col_ops last_put].
      rewrite Z.eqb_refl. cbn [andb]. zbool. rewrite andb_false_r. reflexivity.
Qed.

Lemma mixed_raster_column_transposed_witness :
  2 <= cols (Quad (0, 0) (5, 5))
  /\ forall (Color : Type) (to_pixel : Color -> list Z)
            (point : Z -> Z -> Color * bool) (unfilled : Color),
       cell (pixels (snd (NormalUtil.calculated_mixed_raster_quadtree Color to_pixel
                            point unfilled (Quad (0, 0) (5, 5)) (init_store (5, 5)))))
            2 4
       = [0; 0; 0].
Proof.
  split; [unfold cols; simpl; lia|]. intros Color to_pixel point unfilled.
  exact (proj1 (proj2 (proj2
           (mixed_raster_column_transposed Color to_pixel point unfilled
              (Quad (0, 0) (5, 5)) (init_store (5, 5)) 2
              ltac:(simpl; lia) ltac:(simpl; lia) ltac:(simpl; lia)
              ltac:(simpl; lia) ltac:(simpl; lia) ltac:(simpl; lia)
              ltac:(unfold cols; simpl; lia) ltac:(simpl; lia)
              ltac:(simpl; lia) ltac:(simpl; lia))))).
Defined.

(** ** The plain scanner of the Normal package, pixel by pixel *)

Section NormalPlainTrace.

Variable Color : Type.
Variable color_differs : Color -> Color -> bool.
Variable to_pixel : Color -> list Z.
Variable point : Z -> Z -> Color * bool.

(** What the Normal evaluator returns, in the byte format of the accelerated
    one: the membership flag, then the bytes stored for the colour. *)
Definition as_bytes (i j : Z) : list Z :=
  (if snd (point i j) then 1 else 0) :: to_pixel (fst (point i j)).

(** The plain scanner leaves the state after the trace of the accelerated
    plain scanner. *)
Lemma normal_scan_trace q s :
  snd (NormalUtil.calculate_quadtree Color color_differs to_pixel point q s)
  = run_ops (scan_ops as_bytes (tl q) (br q)) s.
Proof.
  unfold NormalUtil.calculate_quadtree, scan_ops, rows, cols.
  destruct ((snd (br q) - snd (tl q) =? 1) && (fst (br q) - fst (tl q) =? 1));
    [reflexivity|].
  cbv zeta.
  rewrite (fold_left_pair
             (fun loc i =>
                fst (NormalUtil.top_bottom Color color_differs to_pixel point q
                       (loc, init_store (0, 0)) i))
             (fun s i => run_ops (row_ops as_bytes (tl q) (br q) i) s)).
  2:{ intros loc s0 i. unfold NormalUtil.top_bottom.
      destruct (NormalUtil.border Color loc); reflexivity. }
  rewrite (fold_left_pair
             (fun loc j =>
                fst (NormalUtil.left_right Color color_differs to_pixel point q
                       (loc, init_store (0, 0)) j))
             (fun s j => run_ops (col_ops as_bytes (tl q) (br q) j) s))
    by reflexivity.
  cbn [snd]. rewrite !fold_left_flat_map, run_ops_app. reflexivity.
Qed.

End NormalPlainTrace.

(** X18.  The effect of the plain scanner of the Normal package on a region
    of at least 2 by 2 pixels inside the pixel buffer, as for the accelerated
    one: one evaluation at each border pixel that is not a corner, two at
    each corner, none elsewhere; each border pixel receives the bytes of its
    own colour at its own coordinate, and no other cell changes. *)
Theorem normal_scan_effect (Color : Type) (color_differs : Color -> Color -> bool)
    (to_pixel : Color -> list Z) (point : Z -> Z -> Color * bool)
    (q : QuadTree) (s : Store) (r c : Z) :
  0 <= fst (tl q) -> 0 <= snd (tl q) ->
  fst (br q) <= len1 (pixels s) -> snd (br q) <= len0 (pixels s) ->
  2 <= cols q -> 2 <= rows q ->
  let s' :=
    snd (NormalUtil.calculate_quadtree Color color_differs to_pixel point q s) in
  call_count c r (calls s')
  = ((if on_border q r c then (if corner q r c then 2 else 1) else 0)
     + call_count c r (calls s))%nat
  /\ cell (pixels s') r c
     = (if on_border q r c then to_pixel (fst (point c r)) else cell (pixels s) r c).
Proof.
  intros _ _ _ _ Hc Hr s'. subst s'. rewrite normal_scan_trace.
  unfold cols, rows in Hc, Hr.
  assert (H1 : (snd (br q) - snd (tl q) =? 1) && (fst (br q) - fst (tl q) =? 1)
               = false)
    by (zbool; reflexivity).
  destruct q as [t b]. cbn [tl br] in *. split.
  - rewrite run_ops_calls, scan_calls by exact H1. f_equal.
    unfold on_border, corner, covers, in_range. cbn [tl br].
    position r (snd t) (snd b); position c (fst t) (fst b); zbool; reflexivity.
  - rewrite scan_pixels, H1. cbn [negb andb].
    rewrite scanned_on_border by lia. reflexivity.
Qed.

Lemma normal_scan_effect_witness :
  2 <= cols (Quad (0, 0) (3, 3)) /\ 2 <= rows (Quad (0, 0) (3, 3))
  /\ forall (Color : Type) (color_differs : Color -> Color -> bool)
            (to_pixel : Color -> list Z) (point : Z -> Z -> Color * bool),
       cell (pixels (snd (NormalUtil.calculate_quadtree Color color_differs to_pixel
                            point (Quad (0, 0) (3, 3)) (init_store (3, 3))))) 1 2
       = to_pixel (fst (point 2 1)).
Proof.
  split; [unfold cols; simpl; lia|]. split; [unfold rows; simpl; lia|].
  intros Color color_differs to_pixel point.
  exact (proj2 (normal_scan_effect Color color_differs to_pixel point
                  (Quad (0, 0) (3, 3)) (init_store (3, 3)) 1 2
                  ltac:(simpl; lia) ltac:(simpl; lia)
                  ltac:(simpl; lia) ltac:(simpl; lia)
                  ltac:(unfold cols; simpl; lia) ltac:(unfold rows; simpl; lia))).
Defined.

(** X19.  A region of one pixel in the quadtree strategy of the Normal
    package: the scanner evaluates the pixel, returns its colour without a
    split and stores nothing; the caller's [fill_array(pixels, border)] then
    assigns to the empty slice [tl + 1 : br - 1].  The cell keeps its former
    content. *)
Theorem normal_single_pixel_unwritten (Color : Type)
    (color_differs : Color -> Color -> bool) (to_pixel : Color -> list Z)
    (point : Z -> Z -> Color * bool) (broadcast : Color -> option (list Z))
    (q : QuadTree) (s : Store) :
  rows q = 1 -> cols q = 1 ->
  0 <= fst (tl q) -> 0 <= snd (tl q) ->
  fst (br q) <= len1 (pixels s) -> snd (br q) <= len0 (pixels s) ->
  let color := fst (point (fst (tl q)) (snd (tl q))) in
  let result := NormalUtil.calculate_quadtree Color color_differs to_pixel point q s in
  fst result = (false, Some color)
  /\ call_count (fst (tl q)) (snd (tl q)) (calls (snd result))
     = S (call_count (fst (tl q)) (snd (tl q)) (calls s))
  /\ forall v, broadcast color = Some v ->
       exists array',
         fill_array broadcast q (pixels (snd result)) color 1 = Ok array'
         /\ forall r c, cell array' r c = cell (pixels s) r c.
Proof.
  intros Hr Hc Hx Hy Hw Hh color result. subst result.
  unfold NormalUtil.calculate_quadtree. rewrite Hr, Hc. cbn [Z.eqb Pos.eqb andb].
  cbn [fst snd]. split; [reflexivity|]. split.
  - unfold log_call, call_count. cbn [calls filter fst snd].
    rewrite !Z.eqb_refl. reflexivity.
  - intros v Hv. unfold fill_array. rewrite Hv. cbn [log_call pixels].
    destruct (Z.ltb_spec (len0 (pixels s)) (snd (br q))); [lia|].
    eexists. split; [reflexivity|]. intros r c.
    unfold setslice, in_slice, slice_index. cbn [cell].
    unfold rows, cols in Hr, Hc.
    replace ((_ <=? r) && (r <? _)) with false; [reflexivity|].
    symmetry. zbool. destruct (Z.leb_spec (Z.min (snd (tl q) + 1) (len0 (pixels s))) r);
      [|reflexivity].
    cbn [andb]. apply Z.ltb_ge. lia.
Qed.

Lemma normal_single_pixel_unwritten_witness :
  rows (Quad (1, 1) (2, 2)) = 1 /\ cols (Quad (1, 1) (2, 2)) = 1
  /\ forall (Color : Type) (color_differs : Color -> Color -> bool)
            (to_pixel : Color -> list Z) (point : Z -> Z -> Color * bool),
       fst (NormalUtil.calculate_quadtree Color color_differs to_pixel point
              (Quad (1, 1) (2, 2)) (init_store (3, 3)))
       = (false, Some (fst (point 1 1))).
Proof.
  split; [reflexivity|]. split; [reflexivity|].
  intros Color color_differs to_pixel point.
  exact (proj1 (normal_single_pixel_unwritten Color color_differs to_pixel point
                  (fun c => Some (to_pixel c)) (Quad (1, 1) (2, 2)) (init_store (3, 3))
                  eq_refl eq_refl ltac:(simpl; lia) ltac:(simpl; lia)
                  ltac:(simpl; lia) ltac:(simpl; lia))).
Defined.

(** * [src/Normal/util.py], [src/Normal/mandelbrot.py]: the raster strategy *)

Module NormalRaster.

Section Raster.

Variable Color : Type.
Variable to_pixel : Color -> list Z.
Variable point : Z -> Z -> Color * bool.

(** [(pixels[row][j] != unfilled_pixel).any()], the entries of
    [unfilled_pixel] being -1. *)
Definition is_filled (pixel : list Z) : bool :=
  existsb (fun v => negb (v =? -1)) pixel.

(** The body of the loop of [row_raster], at column [j]. *)
Definition visit (row : Z) (st : Store * Z) (j : Z) : Store * Z :=
  let (s, filled) := st in
  if is_filled (cell (pixels s) row j) then
    let color := fst (point j row) in
    let s := log_call j row s in
    let s := store_pixel row j (to_pixel color) s in
    (s, filled + 1)
  else (s, filled).

(** [row_raster(pixels, row, x, y, ...)] with [width = len(x)]: the number it
    returns and the state it leaves. *)
Definition row_raster (width row : Z) (s : Store) : Z * Store :=
  let (s, filled) := fold_left (visit row) (range 0 width) (s, 0) in
  (filled, s).

(** The branch [if self.raster:] of [Mandelbrot.generate]. *)
Definition generate_raster (size : Z * Z) (s : Store) : Store :=
  fold_left (fun s i => snd (row_raster (fst size) i s)) (range 0 (snd size)) s.

End Raster.

End NormalRaster.

Section NormalRasterTrace.

Variable Color : Type.
Variable to_pixel : Color -> list Z.
Variable point : Z -> Z -> Color * bool.

Definition sweep_ops (i j : Z) : list op :=
  [Call j i; Put i j (to_pixel (fst (point j i)))].

Lemma sweep_put r c i j :
  i <> r \/ j <> c -> last_put r c (sweep_ops i j) = None.
Proof.
  intros Hne. cbn [sweep_ops last_put].
  replace ((r =? i) && (c =? j)) with false; [reflexivity|].
  symmetry. apply andb_false_iff.
  destruct Hne; [left|right]; apply Z.eqb_neq; congruence.
Qed.

Lemma sweep_call r c i j :
  i <> r \/ j <> c -> filter (is_call c r) (sweep_ops i j) = [].
Proof.
  intros Hne. cbn [sweep_ops filter is_call].
  replace ((j =? c) && (i =? r)) with false; [reflexivity|].
  symmetry. apply andb_false_iff.
  destruct Hne; [right|left]; apply Z.eqb_neq; congruence.
Qed.

(** One row, from column [a] on, when the cells ahead all pass the test. *)
Lemma row_sweep row n : forall a s filled,
  (forall j, a <= j < a + Z.of_nat n ->
     NormalRaster.is_filled (cell (pixels s) row j) = true) ->
  fold_left (NormalRaster.visit Color to_pixel point row) (range_from a n) (s, filled)
  = (run_ops (flat_map (sweep_ops row) (range_from a n)) s, filled + Z.of_nat n).
Proof.
  induction n as [|n IH]; intros a s filled H.
  - cbn. f_equal. lia.
  - cbn [range_from fold_left flat_map]. unfold NormalRaster.visit at 2.
    rewrite (H a) by lia. cbv zeta. rewrite run_ops_app.
    change (store_pixel row a (to_pixel (fst (point a row))) (log_call a row s))
      with (run_ops (sweep_ops row a) s).
    rewrite IH.
    + f_equal. lia.
    + intros j Hj. rewrite run_ops_last_put, sweep_put by (right; lia).
      apply H. lia.
Qed.

Lemma row_raster_trace width row s :
  (forall j, 0 <= j < width ->
     NormalRaster.is_filled (cell (pixels s) row j) = true) ->
  NormalRaster.row_raster Color to_pixel point width row s
  = (Z.max 0 width, run_ops (flat_map (sweep_ops row) (range 0 width)) s).
Proof.
  intros H. unfold NormalRaster.row_raster, range. rewrite row_sweep.
  - f_equal. lia.
  - intros j Hj. apply H. lia.
Qed.

(** The rows from [a] on, when the cells of these rows all pass the test. *)
Lemma rows_sweep width n : forall a s,
  (forall i j, a <= i < a + Z.of_nat n -> 0 <= j < width ->
     NormalRaster.is_filled (cell (pixels s) i j) = true) ->
  fold_left (fun s i => snd (NormalRaster.row_raster Color to_pixel point width i s))
    (range_from a n) s
  = run_ops (flat_map (fun i => flat_map (sweep_ops i) (range 0 width))
               (range_from a n)) s.
Proof.
  induction n as [|n IH]; intros a s H; [reflexivity|].
  cbn [range_from fold_left flat_map].
  rewrite row_raster_trace by (intros j Hj; apply H; lia).
  cbn [snd]. rewrite run_ops_app. apply IH.
  intros i j Hi Hj. rewrite run_ops_last_put.
  rewrite last_put_flat_map_none; [apply H; lia|].
  intros k _. apply sweep_put. left. lia.
Qed.

Lemma generate_raster_trace size s :
  (forall i j, 0 <= i < snd size -> 0 <= j < fst size ->
     NormalRaster.is_filled (cell (pixels s) i j) = true) ->
  NormalRaster.generate_raster Color to_pixel point size s
  = run_ops (grid_ops sweep_ops (fst size) (snd size)) s.
Proof.
  intros H. unfold NormalRaster.generate_raster, grid_ops, range.
  apply rows_sweep. intros i j Hi Hj. apply H; lia.
Qed.

End NormalRasterTrace.

(** X20.  [row_raster] on a row of the pixel buffer none of whose cells is
    [[-1, -1, -1]], as is every cell of a byte buffer: it evaluates and stores
    every pixel of the row, returns their number, and changes no other
    cell. *)
Theorem row_raster_sweeps (Color : Type) (to_pixel : Color -> list Z)
    (point : Z -> Z -> Color * bool) (width row : Z) (s : Store) :
  0 <= row < len0 (pixels s) -> 0 <= width <= len1 (pixels s) ->
  (forall j, 0 <= j < width ->
     NormalRaster.is_filled (cell (pixels s) row j) = true) ->
  let filled := fst (NormalRaster.row_raster Color to_pixel point width row s) in
  let s' := snd (NormalRaster.row_raster Color to_pixel point width row s) in
  filled = width
  /\ forall r c,
       cell (pixels s') r c
       = (if (r =? row) && in_range 0 width c
          then to_pixel (fst (point c row)) else cell (pixels s) r c)
       /\ call_count c r (calls s')
          = (Nat.b2n ((r =? row)%Z && in_range 0 width c)
             + call_count c r (calls s))%nat.
Proof.
  intros _ Hw H. cbv zeta.
  rewrite (row_raster_trace Color to_pixel point width row s H). cbn [fst snd].
  split; [lia|]. intros r c. split.
  - rewrite run_ops_last_put.
    destruct (Z.eqb_spec r row) as [->|Hne]; cbn [andb].
    + rewrite (last_put_range row c _ 0 width c)
        by (intros j Hj; apply sweep_put; now right).
      destruct (in_range 0 width c); [|reflexivity].
      cbn [sweep_ops last_put]. rewrite !Z.eqb_refl. reflexivity.
    + rewrite last_put_flat_map_none; [reflexivity|].
      intros j _. apply sweep_put. left. congruence.
  - rewrite run_ops_calls. f_equal.
    destruct (Z.eqb_spec r row) as [->|Hne]; cbn [andb].
    + rewrite (calls_range c row _ 0 width c)
        by (intros j Hj; apply sweep_call; now right).
      destruct (in_range 0 width c); [|reflexivity].
      cbn [sweep_ops filter is_call]. rewrite !Z.eqb_refl. reflexivity.
    + induction (range 0 width) as [|j l IH]; [reflexivity|].
      cbn [flat_map]. rewrite filter_app, length_app, IH.
      rewrite sweep_call by (left; congruence). reflexivity.
Qed.

Lemma row_raster_sweeps_witness :
  0 <= 1 < len0 (pixels (init_store (3, 2)))
  /\ forall (Color : Type) (to_pixel : Color -> list Z)
            (point : Z -> Z -> Color * bool),
       fst (NormalRaster.row_raster Color to_pixel point 3 1 (init_store (3, 2))) = 3.
Proof.
  split; [simpl; lia|]. intros Color to_pixel point.
  exact (proj1 (row_raster_sweeps Color to_pixel point 3 1 (init_store (3, 2))
                  ltac:(simpl; lia) ltac:(simpl; lia)
                  ltac:(intros j Hj; reflexivity))).
Defined.

(** X21.  The raster strategy of the Normal package on a pixel buffer of the
    image's size none of whose cells is [[-1, -1, -1]]: every pixel of the
    image is evaluated exactly once and holds its own colour afterwards;
    nothing else is evaluated or stored. *)
Theorem normal_raster_covers (Color : Type) (to_pixel : Color -> list Z)
    (point : Z -> Z -> Color * bool) (size : Z * Z) (s : Store) (r c : Z) :
  snd size <= len0 (pixels s) -> fst size <= len1 (pixels s) ->
  (forall i j, 0 <= i < snd size -> 0 <= j < fst size ->
     NormalRaster.is_filled (cell (pixels s) i j) = true) ->
  let s' := NormalRaster.generate_raster Color to_pixel point size s in
  let inside := in_range 0 (snd size) r && in_range 0 (fst size) c in
  cell (pixels s') r c
  = (if inside then to_pixel (fst (point c r)) else cell (pixels s) r c)
  /\ call_count c r (calls s') = (Nat.b2n inside + call_count c r (calls s))%nat.
Proof.
  intros _ _ H. cbv zeta.
  rewrite (generate_raster_trace Color to_pixel point size s H). split.
  - rewrite run_ops_last_put, grid_last_put by (intros; now apply sweep_put).
    destruct (in_range 0 (snd size) r && in_range 0 (fst size) c); [|reflexivity].
    cbn [sweep_ops last_put]. rewrite !Z.eqb_refl. reflexivity.
  - rewrite run_ops_calls, grid_calls by (intros; now apply sweep_call).
    destruct (in_range 0 (snd size) r && in_range 0 (fst size) c); [|reflexivity].
    cbn [sweep_ops filter is_call]. rewrite !Z.eqb_refl. reflexivity.
Qed.

Lemma normal_raster_covers_witness :
  snd (3, 2) <= len0 (pixels (init_store (3, 2)))
  /\ forall (Color : Type) (to_pixel : Color -> list Z)
            (point : Z -> Z -> Color * bool),
       cell (pixels (NormalRaster.generate_raster Color to_pixel point (3, 2)
                       (init_store (3, 2)))) 1 2
       = to_pixel (fst (point 2 1)).
Proof.
  split; [simpl; lia|]. intros Color to_pixel point.
  exact (proj1 (normal_raster_covers Color to_pixel point (3, 2) (init_store (3, 2))
                  1 2 ltac:(simpl; lia) ltac:(simpl; lia)
                  ltac:(intros i j Hi Hj; reflexivity))).
Defined.

(** * [src/Accelerated/accelerated_mandelbrot.py]: how the strategies end *)

(** X22.  The sequential and the batched quadtree complete, given enough
    steps, exactly on the images that have a pixel; on an image without a row
    or without a column both raise the split failure, before any
    evaluation. *)
Theorem quadtree_completes_iff (point : Z -> Z -> list Z) (size : Z * Z) :
  ((exists out n, forall fuel, (n <= fuel)%nat ->
      AcceleratedMandelbrot.normal_quadtree point size fuel (init_store size)
      = Done out
      /\ AcceleratedMandelbrot.fast_quadtree point size fuel (init_store size)
         = Done out)
   <-> 1 <= fst size /\ 1 <= snd size)
  /\ ((forall fuel,
         AcceleratedMandelbrot.normal_quadtree point size fuel (init_store size)
         = Raised CannotSplit
         /\ AcceleratedMandelbrot.fast_quadtree point size fuel (init_store size)
            = Raised CannotSplit)
      <-> fst size < 1 \/ snd size < 1).
Proof.
  unfold AcceleratedMandelbrot.normal_quadtree, AcceleratedMandelbrot.fast_quadtree.
  destruct (split_outcome (Quad (0, 0) size) 0) as (Hraise & _ & Hok).
  unfold rows, cols, inset in Hraise, Hok. cbn [tl br fst snd] in Hraise, Hok.
  replace (snd size - 0 - (0 + 0)) with (snd size) in * by lia.
  replace (fst size - 0 - (0 + 0)) with (fst size) in * by lia.
  destruct (split (Quad (0, 0) size) 0) as [children|e] eqn:Hs;
    cbn [AcceleratedMandelbrot.lift].
  - assert (Hsize : 1 <= fst size /\ 1 <= snd size).
    { destruct (Z_lt_le_dec (snd size) 1) as [H|H].
      - assert (E : @Ok (list QuadTree) children = Raise CannotSplit)
          by (apply Hraise; now left). discriminate.
      - destruct (Z_lt_le_dec (fst size) 1) as [H'|H']; [|lia].
        assert (E : @Ok (list QuadTree) children = Raise CannotSplit)
          by (apply Hraise; now right). discriminate. }
    split.
    + split; [intros _; exact Hsize|]. intros _.
      destruct (levels_end point (Z.to_nat (fst size)) children (init_store size))
        as (out & n & Hend).
      * apply root_children_good. exact Hs.
      * intros q Hq. apply (root_children_cols size children q Hs Hq).
      * exists out, n. intros fuel Hfuel. apply (Hend fuel Hfuel).
    + split; [|lia]. intros H. destruct (H 0%nat) as [E _].
      simpl in E. discriminate.
  - assert (Hsize : fst size < 1 \/ snd size < 1).
    { destruct (Z_lt_le_dec (snd size) 1) as [H|H]; [now right|].
      destruct (Z_lt_le_dec (fst size) 1) as [H'|H']; [now left|].
      destruct (Hok (conj H H')) as (l & E & _). discriminate. }
    assert (He : e = CannotSplit).
    { assert (E : @Raise (list QuadTree) e = Raise CannotSplit)
        by (apply Hraise; tauto).
      congruence. }
    subst e. split.
    + split; [|lia]. intros (out & n & H). destruct (H n (Nat.le_refl n)) as [E _].
      discriminate.
    + split; [intros _; exact Hsize|]. intros _ fuel. split; reflexivity.
Qed.

(** ** The mixed strategy ends *)

Lemma pow5_pos (n : nat) : (1 <= 5 ^ n)%nat.
Proof. induction n as [|n IH]; simpl; lia. Qed.

Section MixedRuns.

Variable point : Z -> Z -> list Z.

(** A bound on the passes of the loop a region can cause: the region itself
    and at most four children, two columns narrower, for each split. *)
Definition weight (q : QuadTree) : nat := (5 ^ Z.to_nat (cols q))%nat.

Definition total (queue : list QuadTree) : nat := list_sum (map weight queue).

Lemma weight_pos q : (1 <= weight q)%nat.
Proof.
  unfold weight. pose proof (pow5_pos (Z.to_nat (cols q))). lia.
Qed.

Lemma total_app a b : total (a ++ b) = (total a + total b)%nat.
Proof. unfold total. rewrite map_app, list_sum_app. reflexivity. Qed.

Lemma total_bound (m : Z) (l : list QuadTree) :
  Forall (fun k => cols k <= m) l ->
  (total l <= length l * 5 ^ Z.to_nat m)%nat.
Proof.
  induction 1 as [|k l Hk _ IH]; [unfold total; simpl; lia|].
  unfold total, list_sum in *. cbn [map fold_right length].
  assert (weight k <= 5 ^ Z.to_nat m)%nat
    by (apply Nat.pow_le_mono_r; lia).
  rewrite Nat.mul_succ_l. lia.
Qed.

Lemma split_length self boundary children :
  split self boundary = Ok children -> (length children <= 4)%nat.
Proof.
  intros Hs. destruct (split_outcome self boundary) as (Hraise & _ & Hok).
  destruct (Z_lt_le_dec (rows (inset self boundary)) 1) as [H|H].
  - rewrite (proj2 Hraise) in Hs by now left. discriminate.
  - destruct (Z_lt_le_dec (cols (inset self boundary)) 1) as [H'|H'].
    + rewrite (proj2 Hraise) in Hs by now right. discriminate.
    + destruct (Hok (conj H H')) as (l & E & Hlen & _).
      rewrite Hs in E. injection E as <-. lia.
Qed.

Lemma split_children_weight q children :
  split q 1 = Ok children -> 3 <= cols q ->
  (total children + 1 <= weight q)%nat.
Proof.
  intros Hs Hc. pose proof (split_length _ _ _ Hs) as Hlen.
  destruct (split_children _ _ _ Hs) as [Hall _].
  assert (Hb : Forall (fun k => cols k <= cols q - 2) children).
  { apply Forall_impl with (2 := Hall). intros k [Hne Hw].
    unfold within, inset, nonempty, cols in *. cbn [tl br fst snd] in Hw. lia. }
  apply total_bound in Hb. unfold weight.
  replace (Z.to_nat (cols q)) with (2 + Z.to_nat (cols q - 2))%nat by lia.
  rewrite Nat.pow_add_r.
  pose proof (pow5_pos (Z.to_nat (cols q - 2))).
  change (5 ^ 2)%nat with 25%nat. nia.
Qed.

(** A split is only asked for a region of at least three columns. *)
Lemma mixed_split_cols q s :
  negb (nth 0 (fst (MixedQuadtree.calculate_mixed point (tl q) (br q) s)) 0 =? 0)
  = true ->
  3 <= cols q.
Proof.
  rewrite calculate_mixed_parts. cbn [fst]. unfold mixed_scan_result, cols.
  destruct ((snd (br q) - snd (tl q) =? 1) && (fst (br q) - fst (tl q) =? 1));
    [discriminate|].
  destruct (Z.leb_spec 3 (fst (br q) - fst (tl q))); [auto|].
  rewrite andb_false_r. discriminate.
Qed.

(** The loop of [mixed_quadtree] ends within [total queue] passes and one. *)
Lemma mixed_loop_ends fuel : forall queue s,
  (total queue < fuel)%nat ->
  AcceleratedMandelbrot.mixed_loop point fuel queue s <> OutOfFuel.
Proof.
  induction fuel as [|fuel IH]; intros queue s Hf; [lia|].
  destruct queue as [|q rest]; [discriminate|].
  cbn [AcceleratedMandelbrot.mixed_loop].
  pose proof (mixed_split_cols q s) as Hcols.
  destruct (MixedQuadtree.calculate_mixed point (tl q) (br q) s) as [result s1].
  cbn [fst] in Hcols. cbv zeta.
  unfold total, list_sum in Hf. cbn [map fold_right] in Hf.
  change (fold_right Nat.add 0%nat (map weight rest)) with (total rest) in Hf.
  pose proof (weight_pos q) as Hq.
  destruct (negb (nth 0 result 0 =? 0)).
  - destruct (split q 1) as [children|e] eqn:Hs;
      cbn [AcceleratedMandelbrot.lift]; [|discriminate].
    apply IH. rewrite total_app.
    pose proof (split_children_weight q children Hs (Hcols eq_refl)). lia.
  - destruct (negb (nth 1 result 0 =? 0)).
    + destruct (AcceleratedMandelbrot.fill_pixels q (skipn 2 result) s1) as [s2|e];
        cbn [AcceleratedMandelbrot.lift]; [|discriminate].
      destruct (AcceleratedMandelbrot.fill_seen q s2) as [s3|e];
        cbn [AcceleratedMandelbrot.lift]; [|discriminate].
      apply IH. lia.
    + apply IH. lia.
Qed.

(** More steps than needed change nothing. *)
Lemma mixed_loop_more fuel : forall queue s fuel',
  AcceleratedMandelbrot.mixed_loop point fuel queue s <> OutOfFuel ->
  (fuel <= fuel')%nat ->
  AcceleratedMandelbrot.mixed_loop point fuel' queue s
  = AcceleratedMandelbrot.mixed_loop point fuel queue s.
Proof.
  induction fuel as [|fuel IH]; intros queue s fuel' Hend Hle;
    [exfalso; apply Hend; reflexivity|].
  destruct fuel' as [|fuel']; [lia|].
  destruct queue as [|q rest]; [reflexivity|].
  cbn [AcceleratedMandelbrot.mixed_loop] in *.
  destruct (MixedQuadtree.calculate_mixed point (tl q) (br q) s) as [result s1].
  cbv zeta in *.
  destruct (negb (nth 0 result 0 =? 0)).
  - destruct (split q 1) as [children|e];
      cbn [AcceleratedMandelbrot.lift] in *; [|reflexivity].
    apply IH; [exact Hend|lia].
  - destruct (negb (nth 1 result 0 =? 0)).
    + destruct (AcceleratedMandelbrot.fill_pixels q (skipn 2 result) s1) as [s2|e];
        cbn [AcceleratedMandelbrot.lift] in *; [|reflexivity].
      destruct (AcceleratedMandelbrot.fill_seen q s2) as [s3|e];
        cbn [AcceleratedMandelbrot.lift] in *; [|reflexivity].
      apply IH; [exact Hend|lia].
    + apply IH; [exact Hend|lia].
Qed.

End MixedRuns.

(** X23.  The mixed strategy ends: from any state and for any evaluator, the
    loop of [mixed_quadtree] stops, in completion or in an exception, within
    a number of passes that depends on the image width only, and further
    steps do not change the outcome. *)
Theorem mixed_quadtree_ends (point : Z -> Z -> list Z) (size : Z * Z) (s : Store) :
  exists (out : outcome Store),
    out <> OutOfFuel
    /\ forall fuel, (4 * 5 ^ Z.to_nat (fst size) < fuel)%nat ->
         AcceleratedMandelbrot.mixed_quadtree point size fuel s = out.
Proof.
  set (n := S (4 * 5 ^ Z.to_nat (fst size))).
  exists (AcceleratedMandelbrot.mixed_quadtree point size n s).
  unfold AcceleratedMandelbrot.mixed_quadtree.
  destruct (split (Quad (0, 0) size) 0) as [children|e] eqn:Hs;
    cbn [AcceleratedMandelbrot.lift]; [|split; [discriminate|reflexivity]].
  set (s0 := MkStore _ _ _).
  assert (Ht : (total children <= 4 * 5 ^ Z.to_nat (fst size))%nat).
  { pose proof (split_length _ _ _ Hs) as Hlen.
    destruct (split_children _ _ _ Hs) as [Hall _].
    assert (Hb : Forall (fun k => cols k <= fst size) children).
    { apply Forall_impl with (2 := Hall). intros k [Hne Hw].
      unfold within, inset, nonempty, cols in *. cbn [tl br fst snd] in Hw. lia. }
    apply total_bound in Hb.
    pose proof (pow5_pos (Z.to_nat (fst size))). nia. }
  assert (Hend : AcceleratedMandelbrot.mixed_loop point n children s0 <> OutOfFuel)
    by (apply mixed_loop_ends; unfold n; lia).
  split.
  - destruct (AcceleratedMandelbrot.mixed_loop point n children s0);
      cbn [AcceleratedMandelbrot.outcome_map]; [discriminate|discriminate|].
    exfalso. apply Hend. reflexivity.
  - intros fuel Hfuel.
    rewrite (mixed_loop_more point n children s0 fuel Hend) by (unfold n; lia).
    reflexivity.
Qed.

(** ** What the quadtree leaves at the pixels it evaluates *)

Section EvaluatedPixels.

Variable point : Z -> Z -> list Z.

(** The regions of a queue: not empty, with non-negative corners, pairwise
    disjoint. *)
Definition tidy (queue : list QuadTree) : Prop :=
  Forall (fun q => nonempty q /\ 0 <= fst (tl q) /\ 0 <= snd (tl q)) queue
  /\ pairwise disjoint queue.

Definition single (q : QuadTree) : bool := (rows q =? 1) && (cols q =? 1).

(** The regions the loop takes from its queue: those of the queue at the
    start, and the children of every region whose scan asks for a split. *)
Inductive descends (queue : list QuadTree) : QuadTree -> Prop :=
| descends_queue q : In q queue -> descends queue q
| descends_child p children q :
    descends queue p -> wants_split point p = true ->
    split p 1 = Ok children -> In q children -> descends queue q.

(** How the state [out] relates to an earlier state [s], the regions of
    [queue] being still to do: nothing has changed outside these regions, and
    a pixel evaluated in between holds its own colour, unless it is the pixel
    of a region of one pixel taken from the queue: then it holds what it
    held. *)
Definition settled (queue : list QuadTree) (s out : Store) : Prop :=
  forall r c,
    ((forall q, In q queue -> covers q r c = false) ->
     cell (pixels out) r c = cell (pixels s) r c
     /\ call_count c r (calls out) = call_count c r (calls s))
    /\ (call_count c r (calls out) <> call_count c r (calls s) ->
        cell (pixels out) r c = skipn 1 (point c r)
        \/ (cell (pixels out) r c = cell (pixels s) r c
            /\ exists k, descends queue k /\ single k = true
                         /\ covers k r c = true)).

Lemma descends_incl queue queue' k :
  (forall q, In q queue -> In q queue') -> descends queue k -> descends queue' k.
Proof.
  intros Hin H. induction H as [q Hq|p children q _ IH Hw Hs Hq].
  - apply descends_queue. apply Hin. exact Hq.
  - exact (descends_child queue' p children q IH Hw Hs Hq).
Qed.

Lemma descends_split q rest children k :
  wants_split point q = true -> split q 1 = Ok children ->
  descends (rest ++ children) k -> descends (q :: rest) k.
Proof.
  intros Hw Hs H. induction H as [k Hk|p ch k _ IH Hw' Hs' Hk].
  - apply in_app_iff in Hk. destruct Hk as [Hk|Hk].
    + apply descends_queue. now right.
    + apply (descends_child (q :: rest) q children k); auto.
      apply descends_queue. now left.
  - exact (descends_child (q :: rest) p ch k IH Hw' Hs' Hk).
Qed.

(** A region of one pixel covers the pixel at its top-left corner only. *)
Lemma single_covers k r c :
  single k = true -> covers k r c = true ->
  rows k = 1 /\ cols k = 1 /\ tl k = (c, r).
Proof.
  unfold single, covers, rows, cols. destruct k as [[x y] [x' y']].
  cbn [tl br fst snd]. intros Hs Hc.
  rewrite !andb_true_iff, ?Z.eqb_eq, ?Z.leb_le, ?Z.ltb_lt in *.
  repeat split; try lia. f_equal; lia.
Qed.

Lemma covers_disjoint q k r c :
  disjoint q k -> covers q r c = true -> covers k r c = false.
Proof.
  unfold disjoint, covers. intros Hd Hq.
  rewrite !andb_true_iff, !Z.leb_le, !Z.ltb_lt in Hq.
  apply not_true_iff_false. rewrite !andb_true_iff, !Z.leb_le, !Z.ltb_lt. lia.
Qed.

Lemma covers_within k q r c :
  within k q -> covers k r c = true -> covers q r c = true.
Proof.
  unfold within, covers. intros Hw Hk.
  rewrite !andb_true_iff, !Z.leb_le, !Z.ltb_lt in *. lia.
Qed.

Lemma covers_inset q r c :
  covers (inset q 1) r c = true -> covers q r c = true /\ on_border q r c = false.
Proof.
  unfold on_border, covers, inset. cbn [tl br fst snd]. intros H.
  rewrite !andb_true_iff, !Z.leb_le, !Z.ltb_lt in H.
  split; zbool; reflexivity.
Qed.

Lemma visit_cell q s r c :
  nonempty q ->
  cell (pixels (visit point q s)) r c
  = if negb (single q) && on_border q r c
    then skipn 1 (point c r) else cell (pixels s) r c.
Proof.
  intros [Hc Hr]. unfold visit, single, rows, cols. rewrite scan_pixels.
  destruct q as [t b]. cbn [tl br] in *.
  rewrite scanned_on_border by assumption. reflexivity.
Qed.

Lemma visit_calls q s r c :
  nonempty q ->
  call_count c r (calls (visit point q s)) <> call_count c r (calls s) ->
  covers q r c = true /\ (single q = true \/ on_border q r c = true).
Proof.
  intros [Hc Hr]. unfold visit, single, rows, cols. rewrite run_ops_calls.
  destruct ((snd (br q) - snd (tl q) =? 1) && (fst (br q) - fst (tl q) =? 1)) eqn:E1.
  - unfold scan_ops. rewrite E1. cbn [filter is_call].
    apply andb_true_iff in E1. destruct E1 as [E1 E2]. apply Z.eqb_eq in E1, E2.
    destruct (Z.eqb_spec (fst (tl q)) c); destruct (Z.eqb_spec (snd (tl q)) r);
      cbn [andb length]; try lia.
    intros _. split; [|now left]. unfold covers. zbool. reflexivity.
  - rewrite scan_calls by exact E1. intros Hne.
    assert (Hs : scanned (tl q) (br q) r c = true).
    { unfold scanned.
      destruct (in_range (fst (tl q)) (fst (br q)) c), (r =? snd (tl q)),
        (r =? snd (br q) - 1), (in_range (snd (tl q)) (snd (br q)) r),
        (c =? fst (tl q)), (c =? fst (br q) - 1);
        cbn in Hne |- *; try reflexivity; lia. }
    destruct q as [t b]. cbn [tl br] in *. split.
    + apply scanned_covers; assumption.
    + right. rewrite <- scanned_on_border; assumption.
Qed.

Lemma paint_cell q s r c :
  nonempty q -> 0 <= fst (tl q) -> 0 <= snd (tl q) ->
  covers (inset q 1) r c = false ->
  cell (pixels (paint point q s)) r c = cell (pixels s) r c.
Proof.
  intros [Hc Hr] H0 H1 Hout. unfold paint. cbn [pixels setslice cell].
  destruct (in_slice (len0 (pixels s)) (snd (tl q) + 1) (snd (br q) - 1) r) eqn:Er;
    [|reflexivity].
  destruct (in_slice (len1 (pixels s)) (fst (tl q) + 1) (fst (br q) - 1) c) eqn:Ec;
    [|reflexivity].
  exfalso. apply in_slice_bounds in Er; [|lia|lia].
  apply in_slice_bounds in Ec; [|lia|lia].
  apply not_true_iff_false in Hout. apply Hout.
  unfold covers, inset. cbn [tl br fst snd]. zbool. reflexivity.
Qed.

Lemma wants_split_single q : wants_split point q = true -> single q = false.
Proof.
  unfold wants_split, decide, scan_result, single, rows, cols.
  destruct ((snd (br q) - snd (tl q) =? 1) && (fst (br q) - fst (tl q) =? 1));
    [discriminate|reflexivity].
Qed.

Lemma fill_pixels_paint q s s' :
  AcceleratedMandelbrot.fill_pixels q (skipn 1 (decide point q)) s = Ok s' ->
  s' = paint point q s.
Proof.
  unfold AcceleratedMandelbrot.fill_pixels, fill_array. rewrite decide_border.
  destruct (len0 (pixels s) <? snd (br q)).
  - destruct (len0 (pixels s) =? 0); [discriminate|].
    destruct (len1 (pixels s) <? fst (br q)); [discriminate|].
    intros [= <-]. reflexivity.
  - intros [= <-]. reflexivity.
Qed.

Lemma tidy_split q rest children :
  tidy (q :: rest) -> split q 1 = Ok children -> tidy (rest ++ children).
Proof.
  intros [Hall Hpw] Hs. destruct (split_children _ _ _ Hs) as [Hch Hchpw].
  inversion Hall as [|? ? (Hq & H0 & H1) Hrest]; subst.
  destruct Hpw as [Hd Hpw]. split.
  - apply Forall_app. split; [exact Hrest|].
    apply Forall_impl with (2 := Hch). intros k [Hk Hw].
    unfold within, inset in Hw. cbn [tl br fst snd] in Hw.
    repeat split; try apply Hk; lia.
  - apply pairwise_app. split; [exact Hpw|]. split; [exact Hchpw|].
    intros x y Hx Hy. rewrite Forall_forall in Hd, Hch.
    apply disjoint_sym.
    apply (disjoint_within q x y x); [apply Hd; exact Hx| |unfold within; lia].
    apply within_inset. apply (Hch y Hy).
Qed.

(** The sequential loop, pass by pass. *)
Lemma quadtree_loop_settled fuel : forall queue s out,
  tidy queue ->
  AcceleratedMandelbrot.quadtree_loop point fuel queue s = Done out ->
  settled queue s out.
Proof.
  induction fuel as [|fuel IH]; intros queue s out Ht Hrun; [discriminate|].
  destruct queue as [|q rest].
  - injection Hrun as <-. intros r c. split; [auto|]. intros H. congruence.
  - rewrite quadtree_loop_step in Hrun.
    pose proof Ht as [Hall Hpw].
    inversion Hall as [|? ? (Hq & H0 & H1) Hrest]; subst.
    destruct Hpw as [Hd Hpw]. rewrite Forall_forall in Hd.
    destruct (wants_split point q) eqn:Hw.
    + destruct (split q 1) as [children|e] eqn:Hs;
        cbn [AcceleratedMandelbrot.lift] in Hrun; [|discriminate].
      pose proof (IH _ _ _ (tidy_split q rest children Ht Hs) Hrun) as Hnext.
      destruct (split_children _ _ _ Hs) as [Hch _]. rewrite Forall_forall in Hch.
      pose proof (wants_split_single q Hw) as Hsingle.
      intros r c. destruct (Hnext r c) as [Hframe Hexact].
      assert (Hkids : covers q r c = false \/ on_border q r c = true ->
                      forall k, In k children -> covers k r c = false).
      { intros Hout k Hk. destruct (covers k r c) eqn:Ek; [|reflexivity]. exfalso.
        apply (covers_within k (inset q 1)) in Ek; [|apply (Hch k Hk)].
        apply covers_inset in Ek. destruct Ek as [E1 E2].
        destruct Hout; congruence. }
      split.
      * intros Hout.
        assert (Hq' : covers q r c = false) by (apply Hout; now left).
        destruct Hframe as [Hcell Hcalls].
        { intros k Hk. apply in_app_iff in Hk. destruct Hk as [Hk|Hk].
          - apply Hout. now right.
          - apply Hkids; auto. }
        rewrite Hcell, Hcalls. split.
        -- rewrite visit_cell by exact Hq. unfold on_border. rewrite Hq'.
           rewrite andb_false_r. reflexivity.
        -- destruct (Nat.eq_dec (call_count c r (calls (visit point q s)))
                       (call_count c r (calls s))) as [E|E]; [exact E|].
           apply visit_calls in E; [|exact Hq]. destruct E. congruence.
      * intros Hne.
        destruct (on_border q r c) eqn:Eb.
        -- left. destruct Hframe as [Hcell _].
           { intros k Hk. apply in_app_iff in Hk. destruct Hk as [Hk|Hk].
             - apply (covers_disjoint q k); [apply Hd; exact Hk|].
               unfold on_border in Eb. apply andb_true_iff in Eb. tauto.
             - apply Hkids; auto. }
           rewrite Hcell, visit_cell by exact Hq.
           rewrite Hsingle, Eb. reflexivity.
        -- assert (Hsame : call_count c r (calls (visit point q s))
                           = call_count c r (calls s)).
           { destruct (Nat.eq_dec (call_count c r (calls (visit point q s)))
                         (call_count c r (calls s))) as [E|E]; [exact E|].
             apply visit_calls in E; [|exact Hq]. destruct E as [_ [E|E]]; congruence. }
           rewrite <- Hsame in Hne.
           destruct (Hexact Hne) as [H|[H (k & Hk & Hk1 & Hkc)]]; [now left|].
           right. split.
           ++ rewrite H, visit_cell by exact Hq.
              rewrite Eb, andb_false_r. reflexivity.
           ++ exists k. split; [|split; assumption].
              apply (descends_split q rest children k Hw Hs Hk).
    + destruct (AcceleratedMandelbrot.fill_pixels q (skipn 1 (decide point q))
                  (visit point q s)) as [s2|e] eqn:Hfill;
        cbn [AcceleratedMandelbrot.lift] in Hrun; [|discriminate].
      apply fill_pixels_paint in Hfill. subst s2.
      assert (Ht' : tidy rest) by (split; assumption).
      pose proof (IH _ _ _ Ht' Hrun) as Hnext.
      intros r c. destruct (Hnext r c) as [Hframe Hexact].
      change (calls (paint point q (visit point q s)))
        with (calls (visit point q s)) in *.
      split.
      * intros Hout.
        assert (Hq' : covers q r c = false) by (apply Hout; now left).
        destruct Hframe as [Hcell Hcalls];
          [intros k Hk; apply Hout; now right|].
        rewrite Hcell, Hcalls. split.
        -- rewrite paint_cell; try assumption.
           ++ rewrite visit_cell by exact Hq. unfold on_border. rewrite Hq'.
              rewrite andb_false_r. reflexivity.
           ++ destruct (covers (inset q 1) r c) eqn:E; [|reflexivity].
              apply covers_inset in E. destruct E. congruence.
        -- destruct (Nat.eq_dec (call_count c r (calls (visit point q s)))
                       (call_count c r (calls s))) as [E|E]; [exact E|].
           apply visit_calls in E; [|exact Hq]. destruct E. congruence.
      * intros Hne.
        destruct (Nat.eq_dec (call_count c r (calls (visit point q s)))
                    (call_count c r (calls s))) as [E|E].
        -- rewrite <- E in Hne.
           destruct (Hexact Hne) as [H|[H (k & Hk & Hk1 & Hkc)]]; [now left|].
           destruct (covers q r c) eqn:Eq.
           ++ exfalso. destruct Hframe as [_ Hcalls].
              { intros k' Hk'.
                apply (covers_disjoint q k'); [apply Hd; exact Hk'|exact Eq]. }
              congruence.
           ++ right. split.
              ** rewrite H. rewrite paint_cell; try assumption.
                 --- rewrite visit_cell by exact Hq. unfold on_border. rewrite Eq.
                     rewrite andb_false_r. reflexivity.
                 --- destruct (covers (inset q 1) r c) eqn:Ei; [|reflexivity].
                     apply covers_inset in Ei. destruct Ei. congruence.
              ** exists k. split; [|split; assumption].
                 apply (descends_incl rest (q :: rest) k); [|exact Hk].
                 intros x Hx. now right.
        -- apply visit_calls in E; [|exact Hq]. destruct E as [Eq Ecase].
           destruct Hframe as [Hcell _].
           { intros k Hk. apply (covers_disjoint q k); [apply Hd; exact Hk|exact Eq]. }
           rewrite Hcell.
           destruct (single q) eqn:Es.
           ++ right. split.
              ** rewrite paint_cell; try assumption.
                 --- rewrite visit_cell by exact Hq. rewrite Es. reflexivity.
                 --- unfold single, rows, cols in Es. apply andb_true_iff in Es.
                     destruct Es as [E1 E2]. apply Z.eqb_eq in E1, E2.
                     apply not_true_iff_false. unfold covers, inset.
                     cbn [tl br fst snd].
                     rewrite !andb_true_iff, !Z.leb_le, !Z.ltb_lt. lia.
              ** exists q. split; [apply descends_queue; now left|].
                 split; assumption.
           ++ destruct Ecase as [Ecase|Eb]; [discriminate|].
              left. rewrite paint_cell; try assumption.
              ** rewrite visit_cell by exact Hq. rewrite Es, Eb. reflexivity.
              ** destruct (covers (inset q 1) r c) eqn:Ei; [|reflexivity].
                 apply covers_inset in Ei. destruct Ei. congruence.
Qed.

End EvaluatedPixels.

(** X24.  On an image with a pixel, the sequential and the batched quadtree
    complete in the same state, in which every evaluation was at a pixel of
    the image and every evaluated pixel holds its own colour, with one
    exception: a pixel that holds another value holds the zeros of the
    initial buffer and is the single pixel of a region of one row and one
    column that the loop took from its queue ([descends]: a child of the
    root, or a child of a region whose scan asked for a split).  So the scan
    stores every border pixel of a larger region and no fill overwrites a
    pixel that was evaluated. *)
Theorem evaluated_pixels_exact (point : Z -> Z -> list Z) (size : Z * Z) :
  1 <= fst size -> 1 <= snd size ->
  exists out n children,
    split (Quad (0, 0) size) 0 = Ok children
    /\ (forall fuel, (n <= fuel)%nat ->
       AcceleratedMandelbrot.normal_quadtree point size fuel (init_store size)
       = Done out
       /\ AcceleratedMandelbrot.fast_quadtree point size fuel (init_store size)
          = Done out)
    /\ forall r c,
         (0 < call_count c r (calls out))%nat ->
         (0 <= r < snd size /\ 0 <= c < fst size)
         /\ (cell (pixels out) r c = skipn 1 (point c r)
             \/ (cell (pixels out) r c = [0; 0; 0]
                 /\ exists q,
                      descends point children q
                      /\ rows q = 1 /\ cols q = 1 /\ tl q = (c, r))).
Proof.
  intros Hw Hh.
  unfold AcceleratedMandelbrot.normal_quadtree, AcceleratedMandelbrot.fast_quadtree.
  destruct (split_outcome (Quad (0, 0) size) 0) as (_ & _ & Hok).
  destruct Hok as (children & Hs & _);
    [unfold rows, cols, inset; cbn [tl br fst snd]; lia|].
  rewrite Hs. cbn [AcceleratedMandelbrot.lift].
  destruct (levels_end point (Z.to_nat (fst size)) children (init_store size))
    as (out & n & Hend).
  { apply root_children_good. exact Hs. }
  { intros q Hq. apply (root_children_cols size children q Hs Hq). }
  exists out, n, children. split; [reflexivity|].
  split; [intros fuel Hfuel; apply (Hend fuel Hfuel)|].
  destruct (split_children _ _ _ Hs) as [Hch Hpw].
  assert (Ht : tidy children).
  { split; [|exact Hpw]. apply Forall_impl with (2 := Hch). intros k [Hk Hin].
    unfold within, inset in Hin. cbn [tl br fst snd] in Hin.
    repeat split; try apply Hk; lia. }
  destruct (Hend n (Nat.le_refl n)) as [Hrun _].
  pose proof (quadtree_loop_settled point n children (init_store size) out Ht Hrun)
    as Hset.
  intros r c Hcalls. destruct (Hset r c) as [Hframe Hexact].
  change (call_count c r (calls (init_store size))) with 0%nat in *.
  split.
  - destruct (existsb (fun k => covers k r c) children) eqn:Ex.
    + apply existsb_exists in Ex. destruct Ex as [k [Hk Hc]].
      rewrite Forall_forall in Hch. destruct (Hch k Hk) as [_ Hin].
      apply (covers_within k _ r c Hin) in Hc.
      unfold covers, inset in Hc. cbn [tl br fst snd] in Hc.
      rewrite !andb_true_iff, !Z.leb_le, !Z.ltb_lt in Hc. lia.
    + exfalso. destruct Hframe as [_ E]; [|lia].
      intros k Hk. destruct (covers k r c) eqn:Ec; [|reflexivity].
      assert (existsb (fun k => covers k r c) children = true)
        by (apply existsb_exists; exists k; auto).
      congruence.
  - destruct Hexact as [H|[H (k & Hk & Hk1 & Hkc)]]; [lia|now left|].
    right. split; [exact H|]. exists k. split; [exact Hk|].
    apply single_covers; assumption.
Qed.

Lemma evaluated_pixels_exact_witness :
  1 <= fst (3, 3) /\ 1 <= snd (3, 3)
  /\ forall point : Z -> Z -> list Z,
       exists out n,
         (forall fuel, (n <= fuel)%nat ->
            AcceleratedMandelbrot.normal_quadtree point (3, 3) fuel
              (init_store (3, 3))
            = Done out)
         /\ ((0 < call_count 1 1 (calls out))%nat ->
             cell (pixels out) 1 1 = skipn 1 (point 1 1)
             \/ cell (pixels out) 1 1 = [0; 0; 0]).
Proof.
  split; [simpl; lia|]. split; [simpl; lia|]. intros point.
  destruct (evaluated_pixels_exact point (3, 3) ltac:(simpl; lia) ltac:(simpl; lia))
    as (out & n & children & _ & Hrun & Hcell).
  exists out, n. split; [intros fuel Hfuel; apply (Hrun fuel Hfuel)|].
  intros Hcalls. destruct (Hcell 1 1 Hcalls) as [_ [H|[H _]]]; [now left|now right].
Defined.

(** ** What the mixed strategy leaves in the image *)

Section MixedPixels.

Variable point : Z -> Z -> list Z.
(** The evaluator returns four bytes: the flag and the colour. *)
Hypothesis point_length : forall i j, length (point i j) = 4%nat.








End MixedPixels.



(** X26.  A region of one pixel at the head of the queue of [mixed_quadtree]:
    the four bytes [calculate_mixed] returns are read as
    [split, isMandelbrot, border...], so [isMandelbrot] is the first byte of
    the pixel's colour and [border] its last two bytes.  When that first byte
    is not 0 and the buffer holds the region, [fill_array] is asked to assign
    two bytes to pixels of three and the strategy ends in numpy's broadcast
    error. *)
Theorem mixed_single_pixel_raises (point : Z -> Z -> list Z) (q : QuadTree)
    (rest : list QuadTree) (s : Store) (fuel : nat) :
  rows q = 1 -> cols q = 1 ->
  snd (br q) <= len0 (pixels s) ->
  nth 0 (skipn 1 (point (fst (tl q)) (snd (tl q)))) 0 <> 0 ->
  AcceleratedMandelbrot.mixed_loop point (S fuel) (q :: rest) s
  = Raised BroadcastError.
Proof.
  unfold rows, cols. intros Hr Hc Hh Hbyte.
  cbn [AcceleratedMandelbrot.mixed_loop].
  rewrite calculate_mixed_parts. cbv zeta.
  unfold mixed_scan_result. rewrite Hr, Hc. cbn [Z.eqb Pos.eqb andb nth].
  apply Z.eqb_neq in Hbyte. rewrite Hbyte. cbn [negb skipn].
  unfold AcceleratedMandelbrot.fill_pixels, fill_array. cbn [broadcast_rgb].
  rewrite run_ops_len0.
  destruct (Z.ltb_spec (len0 (pixels s)) (snd (br q))); [lia|]. reflexivity.
Qed.

Lemma mixed_single_pixel_raises_witness :
  rows (Quad (0, 0) (1, 1)) = 1 /\ cols (Quad (0, 0) (1, 1)) = 1
  /\ AcceleratedMandelbrot.mixed_loop (fun _ _ => [0; 9; 9; 9]) 10
       [Quad (0, 0) (1, 1); Quad (1, 0) (2, 1)] (init_store (2, 2))
     = Raised BroadcastError.
Proof.
  split; [reflexivity|]. split; [reflexivity|].
  apply (mixed_single_pixel_raises (fun _ _ => [0; 9; 9; 9]) (Quad (0, 0) (1, 1))
           [Quad (1, 0) (2, 1)] (init_store (2, 2)) 9 eq_refl eq_refl);
    simpl; lia.
Defined.
